(** * Recurrence analysis generator: a shallow embedding of
    [optional_step_RQA.py] and the properties of its numerical pipeline.

    The script normalises a scalar series, builds the pairwise distance
    matrix, picks a distance threshold (a percentile of the upper triangle
    unless the caller fixes one), thresholds the matrix, computes the
    recurrence rate, decimates the result for display and lists the
    coordinates of the recurrence points.

    Numbers.  The script computes in IEEE binary64.  Every stage is written
    once, over a small interface of scalar operations ([Scalar], and [Root]
    for the square root), and the interface is instantiated twice:
    - [Float64] : Rocq's primitive binary64 floats, the arithmetic the
      script really runs, used to evaluate the pipeline on concrete inputs
      (including the inputs on which it yields NaN);
    - [Exact] : the rationals, an arithmetic without rounding, overflow or
      NaN, used for the statements that are about real numbers.  It has no
      square root, hence covers the stages downstream of the distance
      matrix.

    Library calls (numpy, scipy, pandas, os.path) are modelled from their
    documented behaviour and, where the documentation is silent, from their
    source; each model names the call it stands for.  numpy is modelled as
    of release 2 on a 64-bit platform: float vectors are added by pairwise
    summation, and an unsigned 64-bit integer combined with a Python integer
    stays unsigned.  Paths are those of a POSIX system.  The columns of a
    file are columns of binary64 values.  Console output and the
    serialisation to JSON are not modelled: [main] returns the records it
    would write. *)

From Stdlib Require Import String Ascii.
From Stdlib Require Import List ZArith QArith Qround Qabs Floats Bool Lia Lqa.
From Stdlib Require Import Sorting.Permutation Sorting.Sorted.
Import ListNotations.

Close Scope Q_scope.
Set Implicit Arguments.

(** ** Exceptions and fallible computations *)

(** The Python exceptions the modelled code can raise. *)
Inductive exn : Type :=
| IndexError
| ValueError
| ZeroDivisionError.

(** A computation either returns a value or raises. *)
Inductive res (A : Type) : Type :=
| Ok (a : A)
| Raise (e : exn).

Arguments Ok {A} a.
Arguments Raise {A} e.

Definition bind {A B : Type} (m : res A) (k : A -> res B) : res B :=
  match m with
  | Ok a => k a
  | Raise e => Raise e
  end.

Notation "x <- m ;; k" := (bind m (fun x => k))
  (at level 61, m at next level, right associativity).

Notation "' pat <- m ;; k" :=
  (bind m (fun x => match x with pat => k end))
  (at level 61, pat pattern, m at next level, right associativity).

(** ** Python sequences *)

(** [l[i]] for a Python integer [i]: negative indices count from the end,
    an index out of range raises [IndexError]. *)
Definition getitem {A : Type} (l : list A) (i : Z) : res A :=
  let n := Z.of_nat (length l) in
  let j := if (i <? 0)%Z then (i + n)%Z else i in
  if ((j <? 0) || (n <=? j))%Z then Raise IndexError
  else match nth_error l (Z.to_nat j) with
       | Some x => Ok x
       | None => Raise IndexError
       end.

(** Every [k]-th element starting with the first: [l[::k]] for [k >= 1]
    ([S k'] below is the step). *)
Fixpoint stride_from (k' : nat) (skip : nat) {A : Type} (l : list A) : list A :=
  match l with
  | [] => []
  | x :: t =>
      match skip with
      | O => x :: stride_from k' k' t
      | S s => stride_from k' s t
      end
  end.

(** [l[::step]] for a non-zero [step]: a positive step walks forward from
    index 0, a negative one walks backward from the last index. *)
Definition slice_nz {A : Type} (step : Z) (l : list A) : list A :=
  if (0 <? step)%Z then stride_from (Z.to_nat step - 1) 0 l
  else stride_from (Z.to_nat (- step) - 1) 0 (rev l).

(** [l[::step]]; a zero step raises [ValueError]. *)
Definition slice_step {A : Type} (l : list A) (step : Z) : res (list A) :=
  if (step =? 0)%Z then Raise ValueError else Ok (slice_nz step l).

(** [M[::step, ::step]]. *)
Definition slice_step2 {A : Type} (M : list (list A)) (step : Z)
  : res (list (list A)) :=
  if (step =? 0)%Z then Raise ValueError
  else Ok (map (slice_nz step) (slice_nz step M)).

(** Python's [a // b] on integers. *)
Definition floordiv (a b : Z) : res Z :=
  if (b =? 0)%Z then Raise ZeroDivisionError else Ok (a / b)%Z.

(** [a - b] on [np.uint64]: the difference modulo [2^64]. *)
Definition uint64_sub (a b : Z) : Z := ((a - b) mod 2 ^ 64)%Z.

(** [os.path.join(a, b)] on a POSIX system: an absolute [b] replaces [a],
    and a separator is added unless [a] is empty or ends with one. *)
Fixpoint ends_with_slash (s : string) : bool :=
  match s with
  | EmptyString => false
  | String c EmptyString => Ascii.eqb c "/"
  | String _ t => ends_with_slash t
  end.

Definition path_join (a b : string) : string :=
  if String.prefix "/" b then b
  else if (String.eqb a "" || ends_with_slash a)%bool then (a ++ b)%string
  else (a ++ "/" ++ b)%string.

(** ** The scalar interface *)

Class Scalar (F : Type) : Type := {
  fzero : F;
  fadd : F -> F -> F;
  fsub : F -> F -> F;
  fmul : F -> F -> F;
  fdiv : F -> F -> F;
  (** [x <= y] *)
  fleb : F -> F -> bool;
  (** [np.isnan] *)
  fisnan : F -> bool;
  (** conversion of a Python integer to a float *)
  of_int : Z -> F;
  (** [np.floor] followed by the conversion to an index *)
  ffloor : F -> Z
}.

Class Root (F : Type) : Type := {
  fsqrt : F -> F
}.

(** A literal [p/q], as the correctly rounded quotient of two integers. *)
Definition of_ratio {F : Type} `{Scalar F} (p q : Z) : F :=
  fdiv (of_int p) (of_int q).

(** ** Matrices *)

(** A two-dimensional array, row by row. *)
Definition matrix (A : Type) : Type := list (list A).

Definition entry {A : Type} (d : A) (M : matrix A) (i j : nat) : A :=
  nth j (nth i M []) d.

(** [M] has [r] rows of [c] entries each. *)
Definition has_shape {A : Type} (r c : nat) (M : matrix A) : Prop :=
  length M = r /\ Forall (fun row => length row = c) M.

Definition symmetric {A : Type} (d : A) (n : nat) (M : matrix A) : Prop :=
  forall i j, i < n -> j < n -> entry d M i j = entry d M j i.

(** ** The numerical stages of [calculate_recurrence_matrix] *)

Section Stages.

Context {F : Type} `{Scalar F}.

(** *** [np.sum] of a float vector

    numpy adds a contiguous float vector by pairwise summation
    ([pairwise_sum] in [loops_utils.h.src]): fewer than 8 elements are added
    left to right; up to 128 elements are added into eight partial sums, one
    block of eight at a time, the partial sums are combined as a balanced
    tree and the elements left over are added last; a longer vector is split
    in two halves, the first of a length that is a multiple of 8, which are
    summed separately. *)

(** The partial sums [r[0..7]] after [blocks] more blocks of eight elements
    of [l] were added to them, with the elements that are left. *)
Fixpoint add_blocks (blocks : nat) (r l : list F) : list F * list F :=
  match blocks with
  | O => (r, l)
  | S b =>
      add_blocks b
        (map (fun p => fadd (fst p) (snd p)) (combine r (firstn 8 l)))
        (skipn 8 l)
  end.

(** [((r[0] + r[1]) + (r[2] + r[3])) + ((r[4] + r[5]) + (r[6] + r[7]))]. *)
Definition sum8 (r : list F) : F :=
  match r with
  | [r0; r1; r2; r3; r4; r5; r6; r7] =>
      fadd (fadd (fadd r0 r1) (fadd r2 r3)) (fadd (fadd r4 r5) (fadd r6 r7))
  | _ => fold_left fadd r fzero
  end.

(** The branch for [8 <= n <= 128]. *)
Definition unrolled_sum (a : list F) : F :=
  let '(r, rest) := add_blocks (length a / 8 - 1) (firstn 8 a) (skipn 8 a) in
  fold_left fadd rest (sum8 r).

(** [pairwise_sum(a, n)].  The recursion halves the vector; [fuel] bounds
    its depth and is never exhausted when it is at least [length a]
    ([pairwise_sum_fuel] below). *)
Fixpoint pairwise_sum (fuel : nat) (a : list F) : F :=
  let n := length a in
  if n <? 8 then fold_left fadd a fzero
  else if n <=? 128 then unrolled_sum a
  else
    match fuel with
    | O => unrolled_sum a
    | S fuel' =>
        let n2 := n / 2 - (n / 2) mod 8 in
        fadd (pairwise_sum fuel' (firstn n2 a))
             (pairwise_sum fuel' (skipn n2 a))
    end.

(** [np.sum]: the reduction starts from the identity of the addition and
    adds the pairwise sum of the vector to it. *)
Definition np_sum (l : list F) : F := fadd fzero (pairwise_sum (length l) l).

(** [np.mean]: the sum divided by the count. *)
Definition np_mean (l : list F) : F :=
  fdiv (np_sum l) (of_int (Z.of_nat (length l))).

(** [np.std] with its default [ddof = 0]: the square root of the mean of
    the squared deviations from the mean. *)
Definition np_std `{Root F} (l : list F) : F :=
  let mu := np_mean l in
  let x := map (fun v => fsub v mu) l in
  fsqrt (fdiv (np_sum (map (fun d => fmul d d) x))
              (of_int (Z.of_nat (length l)))).

(** Line 27: [(time_series - np.mean(time_series)) / np.std(time_series)].
    Nothing guards the division. *)
Definition normalize `{Root F} (time_series : list F) : list F :=
  let mu := np_mean time_series in
  let sigma := np_std time_series in
  map (fun v => fdiv (fsub v mu) sigma) time_series.

(** scipy's Euclidean distance of two one-dimensional points: the square
    root of the squared difference. *)
Definition euclidean `{Root F} (u v : F) : F :=
  let d := fsub u v in fsqrt (fmul d d).

(** Lines 30-33: [cdist(ts_reshaped, ts_reshaped, metric='euclidean')]. *)
Definition cdist `{Root F} (xa xb : list F) : matrix F :=
  map (fun u => map (fun v => euclidean u v) xb) xa.

(** [M[np.triu_indices_from(M, k=1)]]: the entries strictly above the
    diagonal, row by row. *)
Fixpoint triu_from (i : nat) (rows : matrix F) : list F :=
  match rows with
  | [] => []
  | r :: rs => skipn (S i) r ++ triu_from (S i) rs
  end.

Definition upper_triangle (M : matrix F) : list F := triu_from 0 M.

(** *** [np.percentile], default method (linear) *)

Fixpoint insert_sorted (x : F) (l : list F) : list F :=
  match l with
  | [] => [x]
  | y :: t => if fleb x y then x :: l else y :: insert_sorted x t
  end.

(** [np.sort]: ascending, NaN last. *)
Definition np_sort (a : list F) : list F :=
  fold_right insert_sorted [] (filter (fun x => negb (fisnan x)) a)
  ++ filter fisnan a.

(** numpy's [_lerp a b t]. *)
Definition lerp (a b t : F) : F :=
  let diff_b_a := fsub b a in
  if fleb (of_ratio 1 2) t
  then fsub b (fmul diff_b_a (fsub (of_int 1) t))
  else fadd a (fmul diff_b_a t).

(** numpy's [_get_indexes]: the positions of the two order statistics
    around the virtual index ([-1] is the last position). *)
Definition get_indexes (virtual_index : F) (count : Z) : Z * Z :=
  let previous := ffloor virtual_index in
  let next := (previous + 1)%Z in
  let '(previous, next) :=
    if fleb (of_int (count - 1)) virtual_index then ((-1)%Z, (-1)%Z)
    else (previous, next) in
  if negb (fleb fzero virtual_index) && negb (fisnan virtual_index)
  then (0%Z, 0%Z)
  else if fisnan virtual_index then ((-1)%Z, (-1)%Z)
  else (previous, next).

(** [np.percentile(a, q)].  The rank must lie in [0, 100], otherwise
    [ValueError]; a sample containing NaN yields NaN.  numpy's behaviour
    on an empty sample changed between releases; the model raises
    [IndexError] there, as releases from 1.22 do. *)
Definition np_percentile (a : list F) (q : F) : res F :=
  let q := fdiv q (of_int 100) in
  if negb (fleb fzero q && fleb q (of_int 1)) then Raise ValueError
  else
    let count := Z.of_nat (length a) in
    let virtual_index := fmul (of_int (count - 1)) q in
    let '(previous_index, next_index) := get_indexes virtual_index count in
    let arr := np_sort a in
    last_elt <- getitem arr (-1) ;;
    previous <- getitem arr previous_index ;;
    next <- getitem arr next_index ;;
    let gamma := fsub virtual_index (of_int previous_index) in
    let result := lerp previous next gamma in
    if fisnan last_elt then Ok last_elt else Ok result.

(** Lines 36-41: the threshold that is used. *)
Definition select_threshold (distance_matrix : matrix F)
    (threshold : option F) (target_recurrence : F) : res F :=
  match threshold with
  | Some t => Ok t
  | None =>
      np_percentile (upper_triangle distance_matrix)
                    (fmul target_recurrence (of_int 100))
  end.

(** Line 44: [(distance_matrix <= threshold).astype(np.uint8)]. *)
Definition binarize (distance_matrix : matrix F) (threshold : F) : matrix Z :=
  map (map (fun d => if fleb d threshold then 1%Z else 0%Z)) distance_matrix.

(** [np.sum] of an integer matrix. *)
Definition sum_entries (M : matrix Z) : Z :=
  fold_right (fun row acc => (fold_right Z.add 0 row + acc)%Z) 0%Z M.

(** Lines 47-48: [(np.sum(recurrence_matrix) - n) / (n * n - n)].  The sum
    of a [uint8] matrix is a [np.uint64]; under the promotion rules of numpy
    2 the difference with the Python integer [n] is a [np.uint64] too, so
    that a negative difference wraps around, and the quotient by the Python
    integer [n * n - n] is taken in binary64. *)
Definition recurrence_rate (recurrence_matrix : matrix Z) (n : Z) : F :=
  fdiv (of_int (uint64_sub (sum_entries recurrence_matrix) n))
       (of_int (n * n - n)).

(** Lines 35-51, from the distance matrix on; [n] is
    [len(time_series)]. *)
Definition recurrence_from_distances (distance_matrix : matrix F) (n : Z)
    (threshold : option F) (target_recurrence : F)
  : res (matrix Z * F * F) :=
  threshold <- select_threshold distance_matrix threshold target_recurrence ;;
  let recurrence_matrix := binarize distance_matrix threshold in
  let actual_recurrence := recurrence_rate recurrence_matrix n in
  Ok (recurrence_matrix, threshold, actual_recurrence).

(** [calculate_recurrence_matrix(time_series, threshold, target_recurrence)]. *)
Definition calculate_recurrence_matrix `{Root F} (time_series : list F)
    (threshold : option F) (target_recurrence : F)
  : res (matrix Z * F * F) :=
  let ts_normalized := normalize time_series in
  let distance_matrix := cdist ts_normalized ts_normalized in
  recurrence_from_distances distance_matrix
    (Z.of_nat (length time_series)) threshold target_recurrence.

End Stages.

(** ** [matrix_to_sparse_format] *)

(** The positions of the entries of one row that equal 1, left to right. *)
Fixpoint ones_in_row (r c : nat) (row : list Z) : list (nat * nat) :=
  match row with
  | [] => []
  | x :: t =>
      if (x =? 1)%Z then (r, c) :: ones_in_row r (S c) t
      else ones_in_row r (S c) t
  end.

Fixpoint ones_from (r : nat) (M : matrix Z) : list (nat * nat) :=
  match M with
  | [] => []
  | row :: rest => ones_in_row r 0 row ++ ones_from (S r) rest
  end.

(** [np.where(matrix == 1)]: the row indices and the column indices of the
    entries equal to 1, in row-major order. *)
Definition np_where_eq1 (M : matrix Z) : list nat * list nat :=
  List.split (ones_from 0 M).

(** Lines 59-64. *)
Definition matrix_to_sparse_format (M : matrix Z) : list (nat * nat) :=
  let '(rows, cols) := np_where_eq1 M in
  List.combine rows cols.

(** ** [downsample_for_visualization] *)

(** Lines 66-87. *)
Definition downsample_for_visualization {F : Type}
    (time_series time_values : list F) (recurrence_matrix : matrix Z)
    (max_points : Z) : res (list F * list F * matrix Z) :=
  let n_points := Z.of_nat (length time_series) in
  if (n_points <=? max_points)%Z
  then Ok (time_series, time_values, recurrence_matrix)
  else
    factor <- floordiv n_points max_points ;;
    time_ds <- slice_step time_values factor ;;
    data_ds <- slice_step time_series factor ;;
    matrix_ds <- slice_step2 recurrence_matrix factor ;;
    Ok (data_ds, time_ds, matrix_ds).

(** ** [process_rqa_for_datatype] and [main] *)

Section Orchestration.

Context {F : Type} `{Scalar F} `{Root F}.

(** A parsed CSV file: its columns in file order, each a name and its
    cells, of type [float64]; a missing cell is NaN, as pandas reads it. *)
Definition DataFrame : Type := list (string * list F).

(** The files under [assets/timeseries], by path; [None] when the path
    does not exist. *)
Definition FileSystem : Type := string -> option DataFrame.

Record Visualization : Type := {
  vis_time : list F;
  vis_data : list F;
  matrix_size : nat;
  sparse_matrix : list (nat * nat)
}.

Record FullData : Type := {
  n_points : nat;
  full_time_range : F * F
}.

Record Result : Type := {
  data_type : string;
  threshold : F;
  recurrence_rate_of : F;
  time_range : F * F;
  visualization : Visualization;
  full_data : FullData
}.

Definition csv_path_of (video_id data_type : string) : string :=
  ("assets/timeseries/" ++ video_id ++ "_" ++ data_type ++ ".csv")%string.

Definition column_names (df : DataFrame) : list string := map fst df.

(** Line 110: [[col for col in df.columns if col != 'Time']]. *)
Definition data_columns (df : DataFrame) : list string :=
  filter (fun col => negb (String.eqb col "Time")) (column_names df).

(** [df[name]] for a name that is among the columns. *)
Fixpoint column (df : DataFrame) (name : string) : list F :=
  match df with
  | [] => []
  | (c, cells) :: rest =>
      if String.eqb c name then cells else column rest name
  end.

(** [col[mask].values] with [mask = ~pd.isna(df[data_col])]. *)
Definition masked (col data : list F) : list F :=
  map fst (filter (fun p => negb (fisnan (snd p))) (combine col data)).

(** Lines 89-155.  [Ok None] is the function returning [None]. *)
Definition process_rqa_for_datatype (fs : FileSystem)
    (video_id data_type_ : string) : res (option Result) :=
  let csv_path := csv_path_of video_id data_type_ in
  match fs csv_path with
  | None => Ok None
  | Some df =>
      if negb (existsb (String.eqb "Time") (column_names df)) then Ok None
      else
        let data_cols := data_columns df in
        data_col <- getitem data_cols 0 ;;
        let time_clean := masked (column df "Time") (column df data_col) in
        let data_clean := masked (column df data_col) (column df data_col) in
        if (length data_clean <? 10)%nat then Ok None
        else
          '(rec_matrix_full, threshold_, rec_rate) <-
            calculate_recurrence_matrix data_clean None (of_ratio 7 100) ;;
          '(data_vis, time_vis, rec_matrix_vis) <-
            downsample_for_visualization data_clean time_clean
                                         rec_matrix_full 500 ;;
          let sparse := matrix_to_sparse_format rec_matrix_vis in
          first_time <- getitem time_clean 0 ;;
          last_time <- getitem time_clean (-1) ;;
          Ok (Some {|
            data_type := data_type_;
            threshold := threshold_;
            recurrence_rate_of := rec_rate;
            time_range := (first_time, last_time);
            visualization := {|
              vis_time := time_vis;
              vis_data := data_vis;
              matrix_size := length time_vis;
              sparse_matrix := sparse |};
            full_data := {|
              n_points := length data_clean;
              full_time_range := (first_time, last_time) |}
          |})
  end.

(** The part of [config.json] that [main] reads. *)
Record Config : Type := {
  include_RQA : option (list string);
  videoIDs : list string
}.

(** One JSON file written by [main]. *)
Record OutputFile : Type := {
  output_path : string;
  out_video_id : string;
  rqa_data : list (string * Result)
}.

(** [list(dict.fromkeys(l))]: the first occurrence of each entry. *)
Fixpoint dedup (seen l : list string) : list string :=
  match l with
  | [] => []
  | x :: t =>
      if existsb (String.eqb x) seen then dedup seen t
      else x :: dedup (x :: seen) t
  end.

(** Lines 185-189: the loop over the data types of one video.  The keys
    are distinct, so an insertion appends. *)
Fixpoint process_types (fs : FileSystem) (video_id : string)
    (types : list string) (rqa_results : list (string * Result))
  : res (list (string * Result)) :=
  match types with
  | [] => Ok rqa_results
  | data_type_ :: rest =>
      result <- process_rqa_for_datatype fs video_id data_type_ ;;
      match result with
      | Some r =>
          process_types fs video_id rest (rqa_results ++ [(data_type_, r)])
      | None => process_types fs video_id rest rqa_results
      end
  end.

(** Lines 176-207: the loop over the videos.  The result is the list of
    files written so far and the exception that ended the run, if any. *)
Fixpoint process_videos (fs : FileSystem) (output_dir : string)
    (types videos : list string) (written : list OutputFile)
  : list OutputFile * option exn :=
  match videos with
  | [] => (written, None)
  | video_id :: rest =>
      match process_types fs video_id (dedup [] types) [] with
      | Raise e => (written, Some e)
      | Ok [] => process_videos fs output_dir types rest written
      | Ok rqa_results =>
          let file := {|
            output_path :=
              path_join output_dir (video_id ++ "_rqa_data.json")%string;
            out_video_id := video_id;
            rqa_data := rqa_results |} in
          process_videos fs output_dir types rest (written ++ [file])
      end
  end.

(** [main], after the arguments and the configuration are read. *)
Definition main (config : Config) (output_dir : string) (fs : FileSystem)
  : list OutputFile * option exn :=
  match include_RQA config with
  | None | Some [] => ([], None)
  | Some types => process_videos fs output_dir types (videoIDs config) []
  end.

End Orchestration.

Arguments DataFrame F : clear implicits.
Arguments FileSystem F : clear implicits.
Arguments Result F : clear implicits.
Arguments Visualization F : clear implicits.
Arguments FullData F : clear implicits.
Arguments OutputFile F : clear implicits.

(** ** The two arithmetics *)

(** The binary64 value of an integer: the integer itself below [2^53] in
    absolute value, and the nearest binary64 value (ties to even) beyond,
    as the conversions from [int64] and [uint64] give it. *)
Definition float_of_int (z : Z) : float :=
  SF2Prim (binary_normalize prec emax z 0 false).

(** The largest integer not above a finite float (0 for NaN and the
    infinities, which no index computation below produces). *)
Definition float_floor (x : float) : Z :=
  match Prim2SF x with
  | S754_finite s m e =>
      let v := if s then Z.neg m else Z.pos m in
      if (0 <=? e)%Z then (v * 2 ^ e)%Z else (v / 2 ^ (- e))%Z
  | _ => 0%Z
  end.

#[export] Instance Float64 : Scalar float := {
  fzero := 0%float;
  fadd := PrimFloat.add;
  fsub := PrimFloat.sub;
  fmul := PrimFloat.mul;
  fdiv := PrimFloat.div;
  fleb := PrimFloat.leb;
  fisnan := PrimFloat.is_nan;
  of_int := float_of_int;
  ffloor := float_floor
}.

#[export] Instance Float64Root : Root float := {
  fsqrt := PrimFloat.sqrt
}.

#[export] Instance Exact : Scalar Q := {
  fzero := 0%Q;
  fadd := Qplus;
  fsub := Qminus;
  fmul := Qmult;
  fdiv := Qdiv;
  fleb := Qle_bool;
  fisnan := fun _ => false;
  of_int := inject_Z;
  ffloor := Qfloor
}.

(** ** Notions used to state the properties *)

(** *** Matrices of 0 and 1 *)

Definition binary (M : matrix Z) : Prop :=
  Forall (Forall (fun x => x = 0%Z \/ x = 1%Z)) M.

(** The zero-initialised matrix of a recorded size. *)
Definition zeros (rows cols : nat) : matrix Z := repeat (repeat 0%Z cols) rows.

(** [l] with [f] applied at index [i] (unchanged when [i] is out of
    range). *)
Fixpoint update_at {A : Type} (i : nat) (f : A -> A) (l : list A) : list A :=
  match l, i with
  | [], _ => []
  | x :: t, O => f x :: t
  | x :: t, S i' => x :: update_at i' f t
  end.

(** [M[row, col] = 1]. *)
Definition set_one (M : matrix Z) (p : nat * nat) : matrix Z :=
  update_at (fst p) (update_at (snd p) (fun _ => 1%Z)) M.

(** The decoder of the sparse format: start from zeros and set 1 at every
    listed pair. *)
Definition reconstruct (rows cols : nat) (pairs : list (nat * nat)) : matrix Z :=
  fold_left set_one pairs (zeros rows cols).

(** Row-major order on index pairs: row first, then column. *)
Definition row_major_lt (p q : nat * nat) : Prop :=
  fst p < fst q \/ (fst p = fst q /\ snd p < snd q).

Definition index_pairs (n : nat) : list (nat * nat) :=
  list_prod (seq 0 n) (seq 0 n).

(** The number of positions [(i, j)], [i <> j], of an [n x n] matrix whose
    entry is 1. *)
Definition off_diagonal_ones (n : nat) (M : matrix Z) : Z :=
  Z.of_nat (length (filter
    (fun p => negb (Nat.eqb (fst p) (snd p))
              && (entry 0%Z M (fst p) (snd p) =? 1)%Z)
    (index_pairs n))).

Definition zsum (f : nat -> Z) (l : list nat) : Z :=
  fold_right (fun i acc => (f i + acc)%Z) 0%Z l.

(** *** Decimation *)

(** [n / k] rounded up. *)
Definition cdiv (n k : nat) : nat := (n + (k - 1)) / k.

(** [l'] keeps the elements of [l] at the indices [0, k, 2k, ...]. *)
Definition every_kth {A : Type} (k : nat) (l l' : list A) : Prop :=
  length l' = cdiv (length l) k /\
  forall p, p < length l' -> nth_error l' p = nth_error l (p * k).

(** The index of [l] that position [p] of [l[::step]] comes from, for a
    list of length [len]. *)
Definition source_index (step : Z) (len p : nat) : nat :=
  if (0 <? step)%Z then p * Z.to_nat step
  else len - 1 - p * Z.to_nat (- step).

(** *** Percentiles over the rationals *)

(** The textbook linear-interpolation percentile of a sorted sample: the
    fractional rank [h = p/100 * (m - 1)] lies between the order statistics
    at [floor h] and [ceil h], and the value interpolates between them. *)
Definition linear_percentile (sorted : list Q) (p : Q) : Q :=
  let h := (p / 100 * (inject_Z (Z.of_nat (length sorted)) - 1))%Q in
  let lo := Qfloor h in
  let hi := Qceiling h in
  let x_lo := nth (Z.to_nat lo) sorted 0%Q in
  let x_hi := nth (Z.to_nat hi) sorted 0%Q in
  (x_lo + (h - inject_Z lo) * (x_hi - x_lo))%Q.

(** Insertion sort, which [np_sort] is in an arithmetic without NaN. *)
Definition isort (a : list Q) : list Q := fold_right insert_sorted [] a.





(** *** Order and classes of binary64 values *)

Definition float_le (a b : float) : Prop := PrimFloat.leb a b = true.

(** [x] is [+0] or [-0]. *)
Definition is_float_zero (x : float) : bool :=
  match Prim2SF x with
  | S754_zero _ => true
  | _ => false
  end.

(** [x] is NaN or an infinity. *)
Definition is_non_finite (x : float) : bool :=
  match Prim2SF x with
  | S754_nan | S754_infinity _ => true
  | _ => false
  end.

(** [x] is NaN or [+infinity]. *)
Definition is_nan_or_pos_inf (x : float) : bool :=
  match Prim2SF x with
  | S754_nan | S754_infinity false => true
  | _ => false
  end.

(** ** Notions used to state the further properties *)

Section BatchNotions.
Context {F : Type} `{Scalar F} `{Root F}.

(** The records of one video, for the data types that yield one, in the
    order of the data types. *)
Definition results_of (fs : FileSystem F) (video_id : string)
    (types : list string) : list (string * Result F) :=
  flat_map (fun t => match process_rqa_for_datatype fs video_id t with
                     | Ok (Some r) => [(t, r)]
                     | _ => []
                     end) types.

(** The files of the videos that have a record at all, in the order of the
    videos. *)
Definition files_of (fs : FileSystem F) (output_dir : string)
    (types videos : list string) : list (OutputFile F) :=
  flat_map (fun v => match results_of fs v types with
                     | [] => []
                     | rs => [{| output_path :=
                                   path_join output_dir
                                             (v ++ "_rqa_data.json")%string;
                                 out_video_id := v;
                                 rqa_data := rs |}]
                     end) videos.

End BatchNotions.

(** A frame as [pandas] builds it: every column has [rows] cells. *)
Definition rectangular {F : Type} (rows : nat) (df : DataFrame F) : Prop :=
  Forall (fun c => length (snd c) = rows) df.

Section Standardised.
Context {F : Type} `{Scalar F} `{Root F}.

(** The value [x] of the series [ts] after the normalisation of line 27. *)
Definition standardised (ts : list F) (x : F) : F :=
  fdiv (fsub x (np_mean ts)) (np_std ts).

End Standardised.

(** ** Sample inputs *)

Definition ten_fives : list float := repeat 5%float 10.

Definition sample_times : list float :=
  [0; 1; 2; 3; 4; 5; 6; 7; 8; 9; 10; 11]%float.

Definition shuffled_times : list float :=
  [3; 1; 2; 0; 4; 5; 6; 7; 8; 9; 10; 11]%float.

Definition sample_values : list float :=
  [0; 1; 2; 3; 4; 5; 6; 7; 8; 9; 3.5; 20]%float.

(** Four CSV files of the video [v1]: a regular one, one whose rows are
    not in time order, one whose value column is constant, and one with a
    [Time] column only. *)
Definition sample_fs : FileSystem float := fun path =>
  if String.eqb path "assets/timeseries/v1_speed.csv"
  then Some [("Time"%string, sample_times); ("speed"%string, sample_values)]
  else if String.eqb path "assets/timeseries/v1_shuffled.csv"
  then Some [("Time"%string, shuffled_times); ("speed"%string, sample_values)]
  else if String.eqb path "assets/timeseries/v1_flat.csv"
  then Some [("Time"%string, firstn 10 sample_times);
             ("level"%string, ten_fives)]
  else if String.eqb path "assets/timeseries/v1_clock.csv"
  then Some [("Time"%string, sample_times)]
  else None.

Definition sample_distances : matrix Q :=
  [[0; 1; 3]; [1; 0; 2]; [3; 2; 0]]%Q.

Definition sample_recurrence : matrix Z :=
  [[1; 1; 0]; [1; 1; 0]; [0; 0; 1]]%Z.

Definition sample_grid : matrix Z :=
  [[1; 0; 1; 0]; [0; 1; 0; 0]; [1; 0; 1; 1]; [0; 0; 1; 1]]%Z.

(** The regular file of [v1] with one more column at its right. *)
Definition sample_wide_fs : FileSystem float := fun path =>
  if String.eqb path "assets/timeseries/v1_speed.csv"
  then Some ([("Time"%string, sample_times); ("speed"%string, sample_values)]
             ++ [("heading"%string, shuffled_times)])
  else None.

(** ** Proof automation *)

Ltac binary_entries :=
  compute;
  repeat first [ apply Forall_nil | apply Forall_cons
               | left; reflexivity | right; reflexivity ].

Ltac small_indices :=
  repeat match goal with
         | i : nat |- _ => destruct i as [|i]; try lia
         end.

Ltac shape :=
  split; [reflexivity | compute; repeat constructor].

(** * Properties *)

(** ** Pairwise summation *)

Section Summation.
Context {F : Type} `{Scalar F}.

(** The halves of a vector of more than 128 elements are shorter than the
    vector, so that a [fuel] of at least its length is never exhausted: the
    result does not depend on it. *)
Lemma pairwise_sum_fuel (fuel1 fuel2 : nat) (a : list F) :
  length a <= fuel1 -> length a <= fuel2 ->
  pairwise_sum fuel1 a = pairwise_sum fuel2 a.
Proof.
  revert fuel2 a. induction fuel1 as [|f1 IH]; intros fuel2 a L1 L2.
  - destruct a; [|cbn [length] in L1; lia].
    destruct fuel2; reflexivity.
  - destruct fuel2 as [|f2].
    + destruct a; [reflexivity|cbn [length] in L2; lia].
    + cbn [pairwise_sum].
      destruct (length a <? 8) eqn:S8; [reflexivity|].
      destruct (length a <=? 128) eqn:S128; [reflexivity|].
      apply Nat.leb_gt in S128.
      set (n2 := length a / 2 - (length a / 2) mod 8).
      assert (B1 : length a / 2 <= length a) by (apply Nat.Div0.div_le_upper_bound; lia).
      assert (B2 : 2 * (length a / 2) <= length a < 2 * (length a / 2) + 2).
      { pose proof (Nat.div_mod_eq (length a) 2) as E.
        pose proof (Nat.mod_upper_bound (length a) 2). lia. }
      assert (B3 : (length a / 2) mod 8 < 8) by (apply Nat.mod_upper_bound; lia).
      assert (B4 : (length a / 2) mod 8 <= length a / 2)
        by (apply Nat.Div0.mod_le).
      assert (N1 : 0 < n2 < length a) by (unfold n2; lia).
      f_equal; apply IH; rewrite ?length_firstn, ?length_skipn; lia.
Qed.

(** The recursion of [pairwise_sum] on a vector of more than 128
    elements. *)
Lemma pairwise_sum_split (a : list F) :
  128 < length a ->
  let n2 := length a / 2 - (length a / 2) mod 8 in
  0 < n2 < length a /\ n2 mod 8 = 0 /\
  np_sum a = fadd fzero (fadd (pairwise_sum n2 (firstn n2 a))
                              (pairwise_sum (length a - n2) (skipn n2 a))).
Proof.
  intros L n2.
  assert (B1 : length a / 2 <= length a) by (apply Nat.Div0.div_le_upper_bound; lia).
  assert (B2 : 2 * (length a / 2) <= length a < 2 * (length a / 2) + 2).
  { pose proof (Nat.div_mod_eq (length a) 2) as E.
    pose proof (Nat.mod_upper_bound (length a) 2). lia. }
  assert (B3 : (length a / 2) mod 8 < 8) by (apply Nat.mod_upper_bound; lia).
  assert (B4 : (length a / 2) mod 8 <= length a / 2) by (apply Nat.Div0.mod_le).
  assert (N1 : 0 < n2 < length a) by (unfold n2; lia).
  split; [exact N1|]. split.
  { unfold n2. pose proof (Nat.div_mod_eq (length a / 2) 8) as E.
    replace (length a / 2 - (length a / 2) mod 8)
      with (((length a / 2) / 8) * 8) by lia.
    apply Nat.Div0.mod_mul. }
  unfold np_sum. f_equal.
  destruct (length a) as [|k] eqn:Ek; [lia|].
  cbn [pairwise_sum]. rewrite Ek.
  assert (S8 : (S k <? 8) = false) by (apply Nat.ltb_ge; lia).
  assert (S128 : (S k <=? 128) = false) by (apply Nat.leb_gt; lia).
  rewrite S8, S128. fold n2.
  f_equal; apply pairwise_sum_fuel;
    rewrite ?length_firstn, ?length_skipn; lia.
Qed.

End Summation.

(** Ten times the binary64 value nearest to [0.1]: the pairwise sum is [1]
    and the mean is that value again, where the sum from left to right is
    below [1]. *)
Lemma mean_of_ten_tenths :
  np_sum (repeat 0x1.999999999999ap-4%float 10) = 1%float /\
  np_mean (repeat 0x1.999999999999ap-4%float 10) = 0x1.999999999999ap-4%float /\
  fold_left PrimFloat.add (repeat 0x1.999999999999ap-4%float 10) 0%float <> 1%float.
Proof.
  split; [vm_compute; reflexivity|]. split; [vm_compute; reflexivity|].
  intros E. apply (f_equal (fun x => PrimFloat.ltb x 1)) in E.
  vm_compute in E. discriminate.
Qed.

(** ** The sparse format *)

Lemma combine_split_id {A B : Type} (l : list (A * B)) :
  List.combine (fst (List.split l)) (snd (List.split l)) = l.
Proof.
  pose proof (split_combine l) as E. destruct (List.split l); simpl.
  first [exact E | exact (E _ _ eq_refl)].
Qed.

Lemma sparse_format_ones (M : matrix Z) :
  matrix_to_sparse_format M = ones_from 0 M.
Proof.
  unfold matrix_to_sparse_format, np_where_eq1.
  pose proof (combine_split_id (ones_from 0 M)) as E.
  destruct (List.split (ones_from 0 M)); exact E.
Qed.

Lemma in_ones_in_row r c0 row r' c' :
  In (r', c') (ones_in_row r c0 row) <->
  r' = r /\ c0 <= c' /\ nth (c' - c0) row 0%Z = 1%Z.
Proof.
  revert c0. induction row as [|x t IH]; intros c0; simpl.
  - split; [tauto|]. intros (_ & _ & E). destruct (c' - c0); discriminate.
  - destruct (Z.eqb_spec x 1) as [E|E]; simpl; rewrite IH.
    + split.
      * intros [Q|(-> & L & N)].
        -- inversion Q; subst. rewrite Nat.sub_diag. auto.
        -- split; [reflexivity|]. split; [lia|].
           replace (c' - c0) with (S (c' - S c0)) by lia. exact N.
      * intros (-> & L & N). destruct (Nat.eq_dec c' c0) as [->|D]; [left; reflexivity|].
        right. split; [reflexivity|]. split; [lia|].
        replace (c' - c0) with (S (c' - S c0)) in N by lia. exact N.
    + split.
      * intros (-> & L & N). split; [reflexivity|]. split; [lia|].
        replace (c' - c0) with (S (c' - S c0)) by lia. exact N.
      * intros (-> & L & N). split; [reflexivity|].
        destruct (Nat.eq_dec c' c0) as [->|D].
        -- rewrite Nat.sub_diag in N. contradiction.
        -- split; [lia|].
           replace (c' - c0) with (S (c' - S c0)) in N by lia. exact N.
Qed.

Lemma in_ones_from r0 M r' c' :
  In (r', c') (ones_from r0 M) <-> r0 <= r' /\ entry 0%Z M (r' - r0) c' = 1%Z.
Proof.
  revert r0. induction M as [|row rest IH]; intros r0; simpl.
  - unfold entry. split; [tauto|]. intros (_ & E).
    destruct (r' - r0); destruct c'; discriminate.
  - rewrite in_app_iff, in_ones_in_row, IH. unfold entry. split.
    + intros [(-> & _ & N)|(L & N)].
      * rewrite Nat.sub_diag. rewrite Nat.sub_0_r in N. auto.
      * split; [lia|]. replace (r' - r0) with (S (r' - S r0)) by lia. exact N.
    + intros (L & N). destruct (Nat.eq_dec r' r0) as [->|D].
      * left. rewrite Nat.sub_diag in N. rewrite Nat.sub_0_r. auto with arith.
      * right. split; [lia|].
        replace (r' - r0) with (S (r' - S r0)) in N by lia. exact N.
Qed.

Lemma StronglySorted_app {A : Type} (R : A -> A -> Prop) (l1 l2 : list A) :
  StronglySorted R l1 -> StronglySorted R l2 ->
  (forall x y, In x l1 -> In y l2 -> R x y) ->
  StronglySorted R (l1 ++ l2).
Proof.
  induction l1 as [|a l1 IH]; intros S1 S2 X; simpl; [exact S2|].
  inversion S1 as [|? ? S1' F1]; subst. constructor.
  - apply IH; auto. intros; apply X; simpl; auto.
  - apply Forall_app. split; [exact F1|].
    apply Forall_forall. intros y Hy. apply X; simpl; auto.
Qed.

Lemma ones_in_row_sorted r c0 row :
  StronglySorted row_major_lt (ones_in_row r c0 row).
Proof.
  revert c0. induction row as [|x t IH]; intros c0; simpl; [constructor|].
  destruct (x =? 1)%Z; [|apply IH].
  constructor; [apply IH|].
  apply Forall_forall. intros [r' c'] Hin.
  apply in_ones_in_row in Hin. destruct Hin as (-> & L & _).
  right. simpl. lia.
Qed.

Lemma ones_from_sorted r0 M : StronglySorted row_major_lt (ones_from r0 M).
Proof.
  revert r0. induction M as [|row rest IH]; intros r0; simpl; [constructor|].
  apply StronglySorted_app; [apply ones_in_row_sorted|apply IH|].
  intros [r1 c1] [r2 c2] H1 H2.
  apply in_ones_in_row in H1. apply in_ones_from in H2.
  left. simpl. lia.
Qed.

Lemma length_update_at {A : Type} i (f : A -> A) l :
  length (update_at i f l) = length l.
Proof.
  revert i. induction l as [|x t IH]; intros [|i]; simpl; auto.
Qed.

Lemma nth_update_at {A : Type} i j (f : A -> A) l d :
  nth j (update_at i f l) d =
  if Nat.eqb i j then (if Nat.ltb j (length l) then f (nth j l d) else d)
  else nth j l d.
Proof.
  revert i j. induction l as [|x t IH]; intros i j.
  - simpl. destruct (Nat.eqb i j); destruct i, j; reflexivity.
  - destruct i as [|i], j as [|j]; simpl; try reflexivity.
    rewrite IH. reflexivity.
Qed.

Lemma has_shape_set_one rows cols M p :
  has_shape rows cols M -> has_shape rows cols (set_one M p).
Proof.
  intros [L Fa]. unfold set_one. split.
  - rewrite length_update_at. exact L.
  - clear L. revert Fa. generalize (fst p). induction M as [|x t IH]; intros [|i] Fa; simpl; auto;
    inversion Fa; subst; constructor; auto.
    rewrite length_update_at. reflexivity.
Qed.

Lemma entry_set_one rows cols M p r c :
  has_shape rows cols M -> r < rows -> c < cols ->
  entry 0%Z (set_one M p) r c =
  if (Nat.eqb (fst p) r && Nat.eqb (snd p) c)%bool then 1%Z else entry 0%Z M r c.
Proof.
  intros [L Fa] Hr Hc. unfold entry, set_one.
  rewrite nth_update_at.
  destruct (Nat.eqb_spec (fst p) r) as [E|E]; simpl; [|reflexivity].
  assert (LT : r < length M) by lia. apply Nat.ltb_lt in LT. rewrite LT.
  rewrite nth_update_at.
  destruct (Nat.eqb_spec (snd p) c) as [E2|E2]; [|reflexivity].
  assert (LR : length (nth r M []) = cols).
  { rewrite Forall_forall in Fa. apply Fa. apply nth_In. apply Nat.ltb_lt in LT. exact LT. }
  rewrite LR. apply Nat.ltb_lt in Hc. rewrite Hc. reflexivity.
Qed.

Lemma has_shape_zeros rows cols : has_shape rows cols (zeros rows cols).
Proof.
  unfold zeros. split; [apply repeat_length|].
  apply Forall_forall. intros x Hx. apply repeat_spec in Hx. subst. apply repeat_length.
Qed.

Lemma entry_zeros rows cols r c : entry 0%Z (zeros rows cols) r c = 0%Z.
Proof.
  unfold entry, zeros.
  destruct (Nat.lt_ge_cases r rows) as [L|L].
  - rewrite nth_repeat_lt by exact L.
    destruct (Nat.lt_ge_cases c cols) as [L2|L2].
    + rewrite nth_repeat_lt by exact L2. reflexivity.
    + apply nth_overflow. rewrite repeat_length. exact L2.
  - rewrite (nth_overflow (repeat (repeat 0%Z cols) rows) [])
      by (rewrite repeat_length; exact L).
    destruct c; reflexivity.
Qed.

Lemma fold_set_one_spec rows cols pairs M :
  has_shape rows cols M ->
  has_shape rows cols (fold_left set_one pairs M) /\
  forall r c, r < rows -> c < cols ->
    (entry 0%Z (fold_left set_one pairs M) r c = 1%Z <->
     (In (r, c) pairs \/ entry 0%Z M r c = 1%Z)) /\
    (entry 0%Z (fold_left set_one pairs M) r c = 1%Z \/
     entry 0%Z (fold_left set_one pairs M) r c = entry 0%Z M r c).
Proof.
  revert M. induction pairs as [|p ps IH]; intros M HS; simpl.
  - split; [exact HS|]. intros; tauto.
  - destruct (IH (set_one M p) (has_shape_set_one p HS)) as [HS' E].
    split; [exact HS'|]. intros r c Hr Hc.
    destruct (E r c Hr Hc) as [E1 E2].
    rewrite (entry_set_one p HS Hr Hc) in E1, E2.
    destruct p as [pr pc]. simpl in E1, E2.
    destruct (Nat.eqb_spec pr r) as [Q1|Q1];
      destruct (Nat.eqb_spec pc c) as [Q2|Q2]; simpl in E1, E2.
    + subst. split; [|left; apply E1; right; reflexivity].
      split; intros _; [left; left; reflexivity|apply E1; right; reflexivity].
    + split; [|exact E2]. rewrite E1.
      split; [intros [?|?]; auto|intros [[Q|?]|?]; auto].
      inversion Q. contradiction.
    + split; [|exact E2]. rewrite E1.
      split; [intros [?|?]; auto|intros [[Q|?]|?]; auto].
      inversion Q. contradiction.
    + split; [|exact E2]. rewrite E1.
      split; [intros [?|?]; auto|intros [[Q|?]|?]; auto].
      inversion Q. contradiction.
Qed.

Lemma matrix_ext (rows cols : nat) (M N : matrix Z) :
  has_shape rows cols M -> has_shape rows cols N ->
  (forall r c, r < rows -> c < cols -> entry 0%Z M r c = entry 0%Z N r c) ->
  M = N.
Proof.
  intros [LM FM] [LN FN] E.
  apply (nth_ext M N [] []); [congruence|].
  intros r Hr.
  assert (R1 : length (nth r M []) = cols).
  { rewrite Forall_forall in FM. apply FM, nth_In, Hr. }
  assert (R2 : length (nth r N []) = cols).
  { rewrite Forall_forall in FN. apply FN, nth_In. lia. }
  apply (nth_ext _ _ 0%Z 0%Z); [congruence|].
  intros c Hc. apply E; lia.
Qed.

Lemma binary_entry rows cols M r c :
  has_shape rows cols M -> binary M -> r < rows -> c < cols ->
  entry 0%Z M r c = 0%Z \/ entry 0%Z M r c = 1%Z.
Proof.
  intros [L Fa] B Hr Hc. unfold entry.
  assert (I : In (nth r M []) M) by (apply nth_In; lia).
  unfold binary in B. rewrite Forall_forall in B, Fa.
  specialize (B _ I). specialize (Fa _ I). rewrite Forall_forall in B.
  apply B. apply nth_In. lia.
Qed.

(** C8.  For every binary matrix (given as [rows] rows of [cols] entries),
    [matrix_to_sparse_format] lists exactly the positions whose entry is 1,
    in strictly increasing row-major order (row first, then column), and
    setting 1 at every listed position of the zero matrix of the same size
    gives the input matrix back. *)
Theorem sparse_format_exact_and_round_trip (rows cols : nat) (M : matrix Z) :
  has_shape rows cols M -> binary M ->
  (forall r c, In (r, c) (matrix_to_sparse_format M) <-> entry 0%Z M r c = 1%Z) /\
  StronglySorted row_major_lt (matrix_to_sparse_format M) /\
  reconstruct rows cols (matrix_to_sparse_format M) = M.
Proof.
  intros HS B. rewrite sparse_format_ones.
  assert (IN : forall r c, In (r, c) (ones_from 0 M) <-> entry 0%Z M r c = 1%Z).
  { intros r c. rewrite in_ones_from, Nat.sub_0_r. split; [tauto|]. split; [lia|auto]. }
  split; [exact IN|]. split; [apply ones_from_sorted|].
  unfold reconstruct.
  destruct (fold_set_one_spec (ones_from 0 M) (has_shape_zeros rows cols)) as [HS' E].
  apply (matrix_ext HS' HS). intros r c Hr Hc.
  destruct (E r c Hr Hc) as [E1 E2]. rewrite entry_zeros in E1, E2. rewrite IN in E1.
  destruct (binary_entry HS B Hr Hc) as [Z0|Z1].
  - rewrite Z0. destruct E2 as [E2|E2]; [|exact E2].
    apply E1 in E2. destruct E2 as [E2|E2]; [congruence|discriminate].
  - rewrite Z1. apply E1. left. exact Z1.
Qed.

(** ** Decimation for display *)

Lemma nth_error_stride_from {A : Type} k' s (l : list A) p :
  nth_error (stride_from k' s l) p = nth_error l (s + p * S k').
Proof.
  revert s p. induction l as [|x t IH]; intros s p.
  - simpl. destruct p, (s + _); reflexivity.
  - destruct s as [|s]; simpl.
    + destruct p as [|p]; simpl; [reflexivity|]. rewrite IH. reflexivity.
    + apply IH.
Qed.

Lemma length_stride_from {A : Type} k' s (l : list A) :
  s <= k' -> length (stride_from k' s l) = (length l + k' - s) / S k'.
Proof.
  revert s. induction l as [|x t IH]; intros s Hs.
  - cbn [stride_from length]. symmetry. apply Nat.div_small. lia.
  - destruct s as [|s]; cbn [stride_from length].
    + rewrite IH by lia.
      replace (length t + k' - k') with (length t) by lia.
      replace (S (length t) + k' - 0) with (length t + 1 * S k') by lia.
      rewrite Nat.div_add by lia. lia.
    + rewrite IH by lia. f_equal.
Qed.

Lemma nth_via_nth_error {A : Type} (l : list A) n d :
  nth n l d = match nth_error l n with Some x => x | None => d end.
Proof.
  revert n. induction l as [|x t IH]; intros [|n]; simpl; auto.
Qed.

Lemma slice_nz_every_kth {A : Type} (step : Z) (l : list A) :
  (0 < step)%Z -> every_kth (Z.to_nat step) l (slice_nz step l).
Proof.
  intros Hs. unfold slice_nz, every_kth, cdiv.
  apply Z.ltb_lt in Hs. rewrite Hs. apply Z.ltb_lt in Hs.
  assert (E : S (Z.to_nat step - 1) = Z.to_nat step) by lia.
  split.
  - rewrite length_stride_from by lia. rewrite E. f_equal. lia.
  - intros p _. rewrite nth_error_stride_from, E. reflexivity.
Qed.

Lemma nth_slice_nz {A : Type} (step : Z) (l : list A) d p :
  (0 < step)%Z -> nth p (slice_nz step l) d = nth (p * Z.to_nat step) l d.
Proof.
  intros Hs. rewrite !nth_via_nth_error. unfold slice_nz.
  apply Z.ltb_lt in Hs. rewrite Hs. apply Z.ltb_lt in Hs.
  assert (E : S (Z.to_nat step - 1) = Z.to_nat step) by lia.
  rewrite nth_error_stride_from, E. reflexivity.
Qed.

Lemma length_slice_nz {A : Type} (step : Z) (l : list A) :
  (0 < step)%Z -> length (slice_nz step l) = cdiv (length l) (Z.to_nat step).
Proof. intros Hs. apply (slice_nz_every_kth l Hs). Qed.

Lemma slice_nz_nil {A : Type} (step : Z) : slice_nz step (@nil A) = [].
Proof. unfold slice_nz. destruct (0 <? step)%Z; reflexivity. Qed.

Lemma nth_map_slice_nz {A : Type} (step : Z) (M : matrix A) p :
  nth p (map (slice_nz step) M) [] = slice_nz step (nth p M []).
Proof.
  rewrite <- (slice_nz_nil step) at 1. apply map_nth.
Qed.

Lemma entry_slice2 {A : Type} (step : Z) (M : matrix A) d p q :
  (0 < step)%Z ->
  entry d (map (slice_nz step) (slice_nz step M)) p q =
  entry d M (p * Z.to_nat step) (q * Z.to_nat step).
Proof.
  intros Hs. unfold entry.
  rewrite nth_map_slice_nz, !nth_slice_nz by exact Hs. reflexivity.
Qed.

Lemma cdiv_mul_lt n k p : 0 < k -> p < cdiv n k -> p * k < n.
Proof.
  unfold cdiv. intros Hk Hp.
  assert (D : (n + (k - 1)) / k * k <= n + (k - 1)).
  { rewrite Nat.mul_comm. apply Nat.Div0.mul_div_le. }
  nia.
Qed.

Lemma cdiv_mul_ge n k p : 0 < k -> cdiv n k <= p -> n <= p * k.
Proof.
  unfold cdiv. intros Hk Hp.
  assert (D : n + (k - 1) < k * S ((n + (k - 1)) / k)).
  { apply Nat.mul_succ_div_gt. lia. }
  nia.
Qed.

Lemma downsample_small {F : Type} (values times : list F) (M : matrix Z)
    (max_points : Z) :
  (Z.of_nat (length values) <= max_points)%Z ->
  downsample_for_visualization values times M max_points = Ok (values, times, M).
Proof.
  intros Hle. unfold downsample_for_visualization.
  apply Z.leb_le in Hle. rewrite Hle. reflexivity.
Qed.

Lemma downsample_large {F : Type} (values times : list F) (M : matrix Z)
    (max_points : Z) :
  (0 < max_points)%Z -> (max_points < Z.of_nat (length values))%Z ->
  let factor := (Z.of_nat (length values) / max_points)%Z in
  (0 < factor)%Z /\
  downsample_for_visualization values times M max_points
  = Ok (slice_nz factor values, slice_nz factor times,
        map (slice_nz factor) (slice_nz factor M)).
Proof.
  intros Hpos Hlt factor.
  assert (Hf : (1 <= factor)%Z) by (apply Z.div_le_lower_bound; lia).
  split; [lia|].
  unfold downsample_for_visualization.
  assert (L : (Z.of_nat (length values) <=? max_points)%Z = false)
    by (apply Z.leb_gt; lia).
  rewrite L. unfold floordiv.
  assert (Z0 : (max_points =? 0)%Z = false) by (apply Z.eqb_neq; lia).
  rewrite Z0. cbn [bind]. unfold slice_step, slice_step2. fold factor.
  assert (Z1 : (factor =? 0)%Z = false) by (apply Z.eqb_neq; lia).
  rewrite Z1. reflexivity.
Qed.

(** C7.  For a positive bound [max_points] and inputs of length [n]: when
    [n <= max_points] the three inputs come back unchanged; otherwise, with
    [stride = n // max_points] (at least 1), the values and the times keep
    the elements at the indices [0, stride, 2 * stride, ...], and the
    matrix keeps the same rows and columns, so that
    [M'[p, q] = M[p * stride, q * stride]].  In particular 1000 points with
    the bound 500 give 500 points, those at the indices 0, 2, ..., 998. *)
Theorem downsample_identity_or_stride {F : Type}
    (values times : list F) (M : matrix Z) (max_points : Z) :
  (0 < max_points)%Z ->
  let n := Z.of_nat (length values) in
  ((n <= max_points)%Z ->
     downsample_for_visualization values times M max_points
     = Ok (values, times, M)) /\
  ((max_points < n)%Z ->
     let stride := Z.to_nat (n / max_points) in
     exists values' times' M',
       downsample_for_visualization values times M max_points
       = Ok (values', times', M') /\
       1 <= stride /\
       every_kth stride values values' /\
       every_kth stride times times' /\
       length M' = cdiv (length M) stride /\
       (forall p, p < length M' ->
          length (nth p M' []) = cdiv (length (nth (p * stride) M [])) stride) /\
       (forall p q, entry 0%Z M' p q = entry 0%Z M (p * stride) (q * stride))) /\
  (forall (values1000 times1000 : list F) (M1000 : matrix Z),
     length values1000 = 1000 ->
     exists values' times' M',
       downsample_for_visualization values1000 times1000 M1000 500
       = Ok (values', times', M') /\
       length values' = 500 /\
       (forall p, p < 500 -> nth_error values' p = nth_error values1000 (2 * p))).
Proof.
  intros Hpos n. split; [|split].
  - apply downsample_small.
  - intros Hlt stride.
    destruct (downsample_large values times M Hpos Hlt) as [Hs E]. fold n in Hs, E.
    eexists _, _, _. split; [exact E|].
    split; [unfold stride; lia|].
    split; [apply slice_nz_every_kth; exact Hs|].
    split; [apply slice_nz_every_kth; exact Hs|].
    split; [rewrite length_map; apply length_slice_nz; exact Hs|].
    split.
    + intros p Hp.
      rewrite nth_map_slice_nz, length_slice_nz by exact Hs.
      rewrite nth_slice_nz by exact Hs. reflexivity.
    + intros p q. apply entry_slice2. exact Hs.
  - intros v t M0 L.
    assert (H500 : (0 < 500)%Z) by lia.
    assert (Hlt : (500 < Z.of_nat (length v))%Z) by lia.
    destruct (downsample_large v t M0 H500 Hlt) as [_ E].
    rewrite L in E. change (Z.of_nat 1000 / 500)%Z with 2%Z in E.
    eexists _, _, _. split; [exact E|].
    assert (H2 : (0 < 2)%Z) by lia.
    destruct (slice_nz_every_kth v H2) as [E1 E2].
    rewrite L in E1. change (cdiv 1000 (Z.to_nat 2)) with 500 in E1.
    split; [exact E1|]. intros p Hp. rewrite E2 by lia.
    f_equal. change (Z.to_nat 2) with 2. lia.
Qed.

Lemma in_sparse_format (M : matrix Z) r c :
  In (r, c) (matrix_to_sparse_format M) <-> entry 0%Z M r c = 1%Z.
Proof.
  rewrite sparse_format_ones, in_ones_from, Nat.sub_0_r.
  split; [tauto|]. split; [lia|auto].
Qed.

Lemma entry_out_of_rows {A : Type} (d : A) (M : matrix A) r c :
  length M <= r -> entry d M r c = d.
Proof.
  intros L. unfold entry. rewrite (nth_overflow M []) by exact L.
  destruct c; reflexivity.
Qed.

Lemma entry_out_of_cols {A : Type} (d : A) rows cols (M : matrix A) r c :
  has_shape rows cols M -> cols <= c -> entry d M r c = d.
Proof.
  intros [L Fa] Hc. unfold entry.
  destruct (Nat.lt_ge_cases r (length M)) as [Hr|Hr].
  - apply nth_overflow. rewrite Forall_forall in Fa.
    rewrite (Fa (nth r M [])) by (apply nth_In; exact Hr). exact Hc.
  - rewrite (nth_overflow M []) by exact Hr. destruct c; reflexivity.
Qed.

Lemma symmetric_total {A : Type} (d : A) n (M : matrix A) r c :
  has_shape n n M -> symmetric d n M -> entry d M r c = entry d M c r.
Proof.
  intros HS Sy.
  destruct (Nat.lt_ge_cases r n) as [Hr|Hr]; destruct (Nat.lt_ge_cases c n) as [Hc|Hc].
  - apply Sy; assumption.
  - rewrite (entry_out_of_cols d r HS Hc).
    rewrite entry_out_of_rows; [reflexivity|]. destruct HS as [L _]. lia.
  - rewrite (entry_out_of_cols d c HS Hr).
    rewrite entry_out_of_rows; [reflexivity|]. destruct HS as [L _]. lia.
  - rewrite (entry_out_of_cols d r HS Hc), (entry_out_of_cols d c HS Hr). reflexivity.
Qed.

Lemma nth_slice_nz_any {A : Type} (step : Z) (l : list A) (d : A) (p : nat) :
  step <> 0%Z ->
  nth p (slice_nz step l) d
  = if p * Z.to_nat (Z.abs step) <? length l
    then nth (source_index step (length l) p) l d else d.
Proof.
  intros Hs. rewrite nth_via_nth_error. unfold slice_nz, source_index.
  destruct (0 <? step)%Z eqn:Pos.
  - apply Z.ltb_lt in Pos.
    assert (E : S (Z.to_nat step - 1) = Z.to_nat step) by lia.
    rewrite nth_error_stride_from, E. cbn [Nat.add].
    replace (Z.to_nat (Z.abs step)) with (Z.to_nat step) by lia.
    rewrite <- nth_via_nth_error.
    destruct (Nat.ltb_spec (p * Z.to_nat step) (length l)) as [L|L];
      [reflexivity|apply nth_overflow; exact L].
  - apply Z.ltb_ge in Pos.
    assert (E : S (Z.to_nat (- step) - 1) = Z.to_nat (- step)) by lia.
    rewrite nth_error_stride_from, E. cbn [Nat.add].
    replace (Z.to_nat (Z.abs step)) with (Z.to_nat (- step)) by lia.
    rewrite <- nth_via_nth_error.
    destruct (Nat.ltb_spec (p * Z.to_nat (- step)) (length l)) as [L|L].
    + rewrite rev_nth by exact L. f_equal. lia.
    + apply nth_overflow. rewrite length_rev. exact L.
Qed.

Lemma length_slice_nz_any {A : Type} (step : Z) (l : list A) :
  step <> 0%Z ->
  length (slice_nz step l) = cdiv (length l) (Z.to_nat (Z.abs step)).
Proof.
  intros Hs. unfold slice_nz, cdiv.
  destruct (0 <? step)%Z eqn:Pos.
  - apply Z.ltb_lt in Pos. rewrite length_stride_from by lia.
    replace (Z.to_nat (Z.abs step)) with (S (Z.to_nat step - 1)) by lia.
    f_equal. lia.
  - apply Z.ltb_ge in Pos. rewrite length_stride_from, length_rev by lia.
    replace (Z.to_nat (Z.abs step)) with (S (Z.to_nat (- step) - 1)) by lia.
    f_equal. lia.
Qed.

Lemma source_index_lt (step : Z) (len p : nat) :
  step <> 0%Z -> p * Z.to_nat (Z.abs step) < len -> source_index step len p < len.
Proof.
  intros Hs L. unfold source_index. destruct (0 <? step)%Z eqn:Pos.
  - apply Z.ltb_lt in Pos.
    replace (Z.to_nat (Z.abs step)) with (Z.to_nat step) in L by lia. exact L.
  - lia.
Qed.

Lemma entry_slice2_any {A : Type} (step : Z) (n : nat) (M : matrix A) (d : A)
    (p q : nat) :
  step <> 0%Z -> has_shape n n M ->
  entry d (map (slice_nz step) (slice_nz step M)) p q
  = if (p * Z.to_nat (Z.abs step) <? n) && (q * Z.to_nat (Z.abs step) <? n)
    then entry d M (source_index step n p) (source_index step n q) else d.
Proof.
  intros Hs [L Fa]. unfold entry.
  rewrite nth_map_slice_nz, (nth_slice_nz_any M [] p Hs), L.
  destruct (Nat.ltb_spec (p * Z.to_nat (Z.abs step)) n) as [Lp|Lp]; cbn [andb].
  - rewrite (nth_slice_nz_any _ d q Hs).
    rewrite Forall_forall in Fa.
    rewrite (Fa (nth (source_index step n p) M [])).
    + reflexivity.
    + apply nth_In. rewrite L. apply source_index_lt; assumption.
  - rewrite slice_nz_nil. destruct q; reflexivity.
Qed.

Lemma downsample_ok_inv {F : Type} (values times : list F) (M : matrix Z)
    (max_points : Z) (values' times' : list F) (M' : matrix Z) :
  downsample_for_visualization values times M max_points
  = Ok (values', times', M') ->
  M' = M \/
  exists step, step <> 0%Z /\ M' = map (slice_nz step) (slice_nz step M).
Proof.
  unfold downsample_for_visualization.
  destruct (Z.of_nat (length values) <=? max_points)%Z.
  - intros E. injection E as _ _ <-. left. reflexivity.
  - unfold floordiv. destruct (max_points =? 0)%Z; cbn [bind]; [discriminate|].
    unfold slice_step, slice_step2.
    destruct (Z.of_nat (length values) / max_points =? 0)%Z eqn:Z0;
      cbn [bind]; [discriminate|].
    intros E. injection E as _ _ <-. right.
    exists (Z.of_nat (length values) / max_points)%Z.
    split; [apply Z.eqb_neq; exact Z0|reflexivity].
Qed.

(** C10.  Whenever the decimation of a symmetric square matrix returns
    (whatever the bound), the sparse pair list of the decimated matrix
    contains [(c, r)] whenever it contains [(r, c)]; when moreover the
    diagonal of the input is all 1, the list contains [(p, p)] for every
    row [p] of the decimated matrix. *)
Theorem downsample_keeps_symmetry_and_diagonal {F : Type}
    (values times : list F) (n : nat) (M : matrix Z) (max_points : Z)
    (values' times' : list F) (M' : matrix Z) :
  has_shape n n M -> symmetric 0%Z n M ->
  downsample_for_visualization values times M max_points
  = Ok (values', times', M') ->
  (forall r c, In (r, c) (matrix_to_sparse_format M') ->
               In (c, r) (matrix_to_sparse_format M')) /\
  ((forall i, i < n -> entry 0%Z M i i = 1%Z) ->
   forall p, p < length M' -> In (p, p) (matrix_to_sparse_format M')).
Proof.
  intros HS Sy E.
  destruct (downsample_ok_inv _ _ _ _ E) as [->|(step & Hs & ->)].
  - split.
    + intros r c. rewrite !in_sparse_format, (symmetric_total r c HS Sy). auto.
    + intros D p Hp. apply in_sparse_format. apply D. destruct HS as [L _]. lia.
  - split.
    + intros r c. rewrite !in_sparse_format, !(entry_slice2_any 0%Z _ _ Hs HS).
      rewrite andb_comm.
      rewrite (symmetric_total (source_index step n r) (source_index step n c) HS Sy).
      auto.
    + intros D p Hp. apply in_sparse_format.
      rewrite (entry_slice2_any 0%Z _ _ Hs HS).
      rewrite length_map, length_slice_nz_any in Hp by exact Hs.
      destruct HS as [L Fa]. rewrite L in Hp.
      assert (Lp : p * Z.to_nat (Z.abs step) < n).
      { eapply cdiv_mul_lt; [|exact Hp]. lia. }
      apply Nat.ltb_lt in Lp. rewrite Lp. cbn [andb]. apply D.
      apply source_index_lt; [exact Hs|]. apply Nat.ltb_lt. exact Lp.
Qed.

(** ** Thresholding *)

Section Binarize.
Context {F : Type} `{Scalar F}.

Lemma nth_map_in_range {A B : Type} (f : A -> B) (l : list A) j d d' :
  j < length l -> nth j (map f l) d' = f (nth j l d).
Proof.
  intros L. rewrite (nth_indep (map f l) d' (f d)) by (rewrite length_map; exact L).
  apply map_nth.
Qed.

Lemma entry_binarize n (D : matrix F) (t : F) i j :
  has_shape n n D -> i < n -> j < n ->
  entry 0%Z (binarize D t) i j
  = if fleb (entry fzero D i j) t then 1%Z else 0%Z.
Proof.
  intros [L Fa] Hi Hj. unfold entry, binarize.
  rewrite (nth_map_in_range _ D []) by lia.
  rewrite Forall_forall in Fa.
  rewrite (nth_map_in_range _ _ fzero); [reflexivity|].
  rewrite (Fa (nth i D [])) by (apply nth_In; lia). exact Hj.
Qed.

(** C4, as amended.  For every square distance matrix that is symmetric
    with a zero diagonal, the thresholded matrix is symmetric for every
    threshold, and its diagonal is all 1 for every threshold [t] with
    [0 <= t]; when [0 <= t] does not hold, its diagonal is all 0. *)
Theorem binarize_symmetric_unit_diagonal (n : nat) (D : matrix F) (t : F) :
  has_shape n n D ->
  symmetric fzero n D ->
  (forall i, i < n -> entry fzero D i i = fzero) ->
  symmetric 0%Z n (binarize D t) /\
  (fleb fzero t = true ->
   forall i, i < n -> entry 0%Z (binarize D t) i i = 1%Z) /\
  (fleb fzero t = false ->
   forall i, i < n -> entry 0%Z (binarize D t) i i = 0%Z).
Proof.
  intros HS Sy Dg. split; [|split].
  - intros i j Hi Hj.
    rewrite !(entry_binarize t HS) by assumption.
    rewrite (Sy i j Hi Hj). reflexivity.
  - intros Ht i Hi. rewrite (entry_binarize t HS Hi Hi), (Dg i Hi), Ht. reflexivity.
  - intros Ht i Hi. rewrite (entry_binarize t HS Hi Hi), (Dg i Hi), Ht. reflexivity.
Qed.

End Binarize.

(** ** The recurrence rate *)

Lemma length_filter_pairs (P : nat * nat -> bool) (a : nat) (l : list nat) :
  length (filter P (map (fun y => (a, y)) l))
  = length (filter (fun j => P (a, j)) l).
Proof.
  induction l as [|y l IH]; simpl; [reflexivity|].
  destruct (P (a, y)); simpl; rewrite IH; reflexivity.
Qed.

Lemma count_list_prod (P : nat * nat -> bool) (l1 l2 : list nat) :
  Z.of_nat (length (filter P (list_prod l1 l2)))
  = zsum (fun i => Z.of_nat (length (filter (fun j => P (i, j)) l2))) l1.
Proof.
  induction l1 as [|a l1 IH]; simpl; [reflexivity|].
  rewrite filter_app, length_app, Nat2Z.inj_add, IH, length_filter_pairs.
  reflexivity.
Qed.

Lemma zsum_ext (f g : nat -> Z) (l : list nat) :
  (forall i, In i l -> f i = g i) -> zsum f l = zsum g l.
Proof.
  induction l as [|a l IH]; intros E; simpl; [reflexivity|].
  rewrite (E a) by (left; reflexivity). rewrite IH; [reflexivity|].
  intros i Hi. apply E. right. exact Hi.
Qed.

Lemma zsum_minus_one (f : nat -> Z) (l : list nat) :
  zsum (fun i => (f i - 1)%Z) l = (zsum f l - Z.of_nat (length l))%Z.
Proof.
  induction l as [|a l IH]; simpl length; [reflexivity|].
  cbn [zsum fold_right]. fold (zsum (fun i => (f i - 1)%Z) l). fold (zsum f l).
  rewrite IH. lia.
Qed.

Lemma zsum_shift (f : nat -> Z) (a n : nat) :
  zsum f (seq (S a) n) = zsum (fun i => f (S i)) (seq a n).
Proof.
  revert a. induction n as [|n IH]; intros a; simpl; [reflexivity|].
  f_equal. apply IH.
Qed.

Lemma filter_except (Q : nat -> bool) (i : nat) (l : list nat) :
  NoDup l -> In i l -> Q i = true ->
  length (filter Q l)
  = S (length (filter (fun j => negb (Nat.eqb i j) && Q j) l)).
Proof.
  induction l as [|a l IH]; intros ND Hin Qi; [contradiction|].
  inversion ND as [|? ? Hna ND']; subst. simpl.
  destruct Hin as [->|Hin].
  - rewrite Nat.eqb_refl, Qi. simpl. f_equal.
    clear IH ND. induction l as [|b l IHl]; simpl; [reflexivity|].
    assert (Hb : Nat.eqb i b = false).
    { apply Nat.eqb_neq. intros ->. apply Hna. left. reflexivity. }
    rewrite Hb. simpl. inversion ND' as [|? ? ? ND'']; subst.
    destruct (Q b); simpl; rewrite IHl; auto; intros Hi; apply Hna; right; exact Hi.
  - assert (Hia : Nat.eqb i a = false).
    { apply Nat.eqb_neq. intros ->. contradiction. }
    rewrite Hia. simpl. destruct (Q a); simpl; rewrite (IH ND' Hin Qi); reflexivity.
Qed.

Lemma length_filter_map_S (P : nat -> bool) (l : list nat) :
  length (filter P (map S l)) = length (filter (fun j => P (S j)) l).
Proof.
  induction l as [|a l IH]; simpl; [reflexivity|].
  destruct (P (S a)); simpl; rewrite IH; reflexivity.
Qed.

Lemma filter_head {A : Type} (P : A -> bool) (a : A) (l : list A) :
  filter P (a :: l) = if P a then a :: filter P l else filter P l.
Proof. reflexivity. Qed.

Lemma count_row_ones (row : list Z) :
  Forall (fun x => x = 0%Z \/ x = 1%Z) row ->
  Z.of_nat (length (filter (fun j => (nth j row 0 =? 1)%Z) (seq 0 (length row))))
  = fold_right Z.add 0%Z row.
Proof.
  induction row as [|x t IH]; intros B; [reflexivity|].
  inversion B as [|? ? Bx Bt]; subst.
  specialize (IH Bt).
  change (seq 0 (length (x :: t))) with (0 :: seq 1 (length t)).
  rewrite <- seq_shift, filter_head.
  change (nth 0 (x :: t) 0%Z) with x.
  change (fold_right Z.add 0%Z (x :: t)) with (x + fold_right Z.add 0%Z t)%Z.
  assert (E : length (filter (fun j => (nth j (x :: t) 0 =? 1)%Z)
                             (map S (seq 0 (length t))))
              = length (filter (fun j => (nth j t 0 =? 1)%Z) (seq 0 (length t)))).
  { rewrite length_filter_map_S. reflexivity. }
  destruct Bx as [->| ->].
  - change (0 =? 1)%Z with false. cbv iota. rewrite E, IH. lia.
  - change (1 =? 1)%Z with true. cbv iota.
    rewrite length_cons, Nat2Z.inj_succ, E, IH. lia.
Qed.

Lemma zsum_cons (f : nat -> Z) (a : nat) (l : list nat) :
  zsum f (a :: l) = (f a + zsum f l)%Z.
Proof. reflexivity. Qed.

Lemma sum_entries_rows (M : matrix Z) :
  sum_entries M
  = zsum (fun i => fold_right Z.add 0%Z (nth i M [])) (seq 0 (length M)).
Proof.
  induction M as [|row rest IH]; [reflexivity|].
  change (sum_entries (row :: rest))
    with (fold_right Z.add 0%Z row + sum_entries rest)%Z.
  change (seq 0 (length (row :: rest))) with (0 :: seq 1 (length rest)).
  rewrite zsum_cons, zsum_shift, IH. reflexivity.
Qed.

Lemma sum_entries_off_diagonal (n : nat) (R : matrix Z) :
  has_shape n n R -> binary R ->
  (forall i, i < n -> entry 0%Z R i i = 1%Z) ->
  (sum_entries R - Z.of_nat n)%Z = off_diagonal_ones n R.
Proof.
  intros [L Fa] B Dg. unfold off_diagonal_ones, index_pairs.
  rewrite count_list_prod. cbn [fst snd].
  rewrite sum_entries_rows, L.
  rewrite <- (length_seq n 0) at 2. rewrite <- zsum_minus_one.
  symmetry. apply zsum_ext. intros i Hi. apply in_seq in Hi.
  assert (Hrow : In (nth i R []) R) by (apply nth_In; lia).
  rewrite Forall_forall in Fa. unfold binary in B. rewrite Forall_forall in B.
  pose proof (count_row_ones (B _ Hrow)) as C. rewrite (Fa _ Hrow) in C.
  rewrite <- C. unfold entry.
  rewrite (@filter_except (fun j => (nth j (nth i R []) 0 =? 1)%Z) i (seq 0 n)).
  - lia.
  - apply seq_NoDup.
  - apply in_seq. lia.
  - apply Z.eqb_eq. apply Dg. lia.
Qed.

Lemma row_sum_bounds (row : list Z) :
  Forall (fun x => x = 0%Z \/ x = 1%Z) row ->
  (0 <= fold_right Z.add 0 row <= Z.of_nat (length row))%Z.
Proof.
  induction row as [|x t IH]; intros B; [simpl; lia|].
  inversion B as [|? ? Bx Bt]; subst. specialize (IH Bt).
  cbn [fold_right length]. rewrite Nat2Z.inj_succ. destruct Bx; subst; lia.
Qed.

Lemma sum_entries_bounds (r c : nat) (M : matrix Z) :
  has_shape r c M -> binary M ->
  (0 <= sum_entries M <= Z.of_nat r * Z.of_nat c)%Z.
Proof.
  intros [L Fa] B. subst r. unfold binary in B.
  induction M as [|row rest IH]; [simpl; lia|].
  inversion Fa as [|? ? Hr Fr]; subst. inversion B as [|? ? Br Bt]; subst.
  specialize (IH Fr Bt). pose proof (row_sum_bounds Br) as RB.
  change (sum_entries (row :: rest))
    with (fold_right Z.add 0%Z row + sum_entries rest)%Z.
  cbn [length]. rewrite Nat2Z.inj_succ. nia.
Qed.

Lemma uint64_sub_ge (a b : Z) :
  (0 <= b <= a)%Z -> (a < 2 ^ 64)%Z -> uint64_sub a b = (a - b)%Z.
Proof. intros Hb Ha. unfold uint64_sub. apply Z.mod_small. lia. Qed.

Lemma uint64_sub_lt (a b : Z) :
  (0 <= a < b)%Z -> (b <= 2 ^ 64)%Z -> uint64_sub a b = (2 ^ 64 + a - b)%Z.
Proof.
  intros Ha Hb. unfold uint64_sub.
  symmetry. apply Z.mod_unique with (q := (-1)%Z); lia.
Qed.

Lemma rate_without_wrap {F : Type} `{Scalar F} (n : nat) (R : matrix Z) :
  (Z.of_nat n < 2 ^ 32)%Z -> has_shape n n R -> binary R ->
  (Z.of_nat n <= sum_entries R)%Z ->
  recurrence_rate R (Z.of_nat n)
  = fdiv (of_int (sum_entries R - Z.of_nat n))
         (of_int (Z.of_nat n * Z.of_nat n - Z.of_nat n)).
Proof.
  intros Hn HS B Le. pose proof (sum_entries_bounds HS B) as SB.
  unfold recurrence_rate. rewrite uint64_sub_ge; [reflexivity|lia|].
  change (2 ^ 64)%Z with (2 ^ 32 * 2 ^ 32)%Z. nia.
Qed.

Lemma rate_with_wrap {F : Type} `{Scalar F} (n : nat) (R : matrix Z) :
  (Z.of_nat n < 2 ^ 32)%Z -> has_shape n n R -> binary R ->
  (sum_entries R < Z.of_nat n)%Z ->
  recurrence_rate R (Z.of_nat n)
  = fdiv (of_int (2 ^ 64 + sum_entries R - Z.of_nat n))
         (of_int (Z.of_nat n * Z.of_nat n - Z.of_nat n)).
Proof.
  intros Hn HS B Lt. pose proof (sum_entries_bounds HS B) as SB.
  unfold recurrence_rate. rewrite uint64_sub_lt; [reflexivity|lia|].
  change (2 ^ 64)%Z with (2 ^ 32 * 2 ^ 32)%Z. nia.
Qed.

(** C6, as amended.  For every [n x n] matrix of 0 and 1, [n < 2^32], that
    has exactly [k] off-diagonal entries equal to 1, in whatever arithmetic
    the quotient is taken: when the diagonal is all 1, the recurrence rate
    is [k / (n * n - n)]; in general the unsigned difference of line 48 is
    [ones - n] when the matrix has at least [n] entries equal to 1, and
    wraps around to [2^64 + ones - n] when it has fewer, so that the rate of
    the all-zero matrix is [(2^64 - n) / (n * n - n)] and not [0]. *)
Theorem recurrence_rate_is_off_diagonal_fraction {F : Type} `{Scalar F}
    (n : nat) (R : matrix Z) (k : Z) :
  (Z.of_nat n < 2 ^ 32)%Z ->
  has_shape n n R -> binary R ->
  off_diagonal_ones n R = k ->
  ((forall i, i < n -> entry 0%Z R i i = 1%Z) ->
   recurrence_rate R (Z.of_nat n)
   = fdiv (of_int k) (of_int (Z.of_nat n * Z.of_nat n - Z.of_nat n))) /\
  ((Z.of_nat n <= sum_entries R)%Z ->
   recurrence_rate R (Z.of_nat n)
   = fdiv (of_int (sum_entries R - Z.of_nat n))
          (of_int (Z.of_nat n * Z.of_nat n - Z.of_nat n))) /\
  ((sum_entries R < Z.of_nat n)%Z ->
   recurrence_rate R (Z.of_nat n)
   = fdiv (of_int (2 ^ 64 + sum_entries R - Z.of_nat n))
          (of_int (Z.of_nat n * Z.of_nat n - Z.of_nat n))).
Proof.
  intros Hn HS B K.
  pose proof (sum_entries_bounds HS B) as SB.
  split; [|split].
  - intros Dg. rewrite (rate_without_wrap Hn HS B).
    + rewrite (sum_entries_off_diagonal HS B Dg), K. reflexivity.
    + pose proof (sum_entries_off_diagonal HS B Dg) as E.
      unfold off_diagonal_ones in E. lia.
  - intros Le. apply (rate_without_wrap Hn HS B Le).
  - intros Lt. apply (rate_with_wrap Hn HS B Lt).
Qed.

(** ** Percentiles in exact arithmetic *)

Lemma filter_all {A : Type} (l : list A) : filter (fun _ => true) l = l.
Proof. induction l as [|x t IH]; simpl; [|rewrite IH]; reflexivity. Qed.

Lemma filter_none {A : Type} (l : list A) : filter (fun _ => false) l = [].
Proof. induction l as [|x t IH]; simpl; auto. Qed.

Lemma np_sort_exact (a : list Q) : np_sort a = isort a.
Proof.
  unfold np_sort, isort. cbn [fisnan Exact negb].
  rewrite filter_all, filter_none, app_nil_r. reflexivity.
Qed.

Lemma insert_sorted_perm (x : Q) (l : list Q) :
  Permutation (insert_sorted x l) (x :: l).
Proof.
  induction l as [|y t IH]; simpl; [reflexivity|].
  destruct (Qle_bool x y); [reflexivity|].
  rewrite IH. apply perm_swap.
Qed.

Lemma isort_perm (a : list Q) : Permutation (isort a) a.
Proof.
  induction a as [|x t IH]; simpl; [reflexivity|].
  unfold isort in *. simpl. rewrite insert_sorted_perm. constructor. exact IH.
Qed.

Lemma insert_sorted_sorted (x : Q) (l : list Q) :
  StronglySorted Qle l -> StronglySorted Qle (insert_sorted x l).
Proof.
  induction l as [|y t IH]; intros S; simpl.
  - constructor; constructor.
  - destruct (Qle_bool x y) eqn:E.
    + apply Qle_bool_iff in E. constructor; [exact S|].
      inversion S as [|? ? S' Fy]; subst. constructor; [exact E|].
      rewrite Forall_forall in *. intros z Hz. apply Qle_trans with y; auto.
    + assert (L : (y <= x)%Q).
      { destruct (Qlt_le_dec y x) as [H|H]; [apply Qlt_le_weak; exact H|].
        apply Qle_bool_iff in H. cbn [fleb Exact] in E. congruence. }
      inversion S as [|? ? S' Fy]; subst. constructor; [apply IH; exact S'|].
      rewrite Forall_forall in *. intros z Hz.
      apply (Permutation_in _ (insert_sorted_perm x t)) in Hz.
      destruct Hz as [<-|Hz]; auto.
Qed.

Lemma isort_sorted (a : list Q) : StronglySorted Qle (isort a).
Proof.
  induction a as [|x t IH]; [constructor|].
  unfold isort in *. simpl. apply insert_sorted_sorted. exact IH.
Qed.

Lemma isort_length (a : list Q) : length (isort a) = length a.
Proof. apply Permutation_length, isort_perm. Qed.

Lemma getitem_nth {A : Type} (l : list A) (i : Z) (d : A) :
  (0 <= i < Z.of_nat (length l))%Z -> getitem l i = Ok (nth (Z.to_nat i) l d).
Proof.
  intros [L U]. unfold getitem.
  assert (E1 : (i <? 0)%Z = false) by (apply Z.ltb_ge; lia).
  assert (E2 : (Z.of_nat (length l) <=? i)%Z = false) by (apply Z.leb_gt; lia).
  rewrite E1, E1, E2. cbn [orb].
  destruct (nth_error l (Z.to_nat i)) eqn:N.
  - f_equal. symmetry. apply nth_error_nth. exact N.
  - apply nth_error_None in N. lia.
Qed.

Lemma getitem_last {A : Type} (l : list A) (d : A) :
  l <> [] -> getitem l (-1) = Ok (nth (length l - 1) l d).
Proof.
  intros NE. unfold getitem.
  assert (0 < length l) by (destruct l; [contradiction|simpl; lia]).
  change (-1 <? 0)%Z with true. cbv iota.
  assert (E1 : (-1 + Z.of_nat (length l) <? 0)%Z = false) by (apply Z.ltb_ge; lia).
  assert (E2 : (Z.of_nat (length l) <=? -1 + Z.of_nat (length l))%Z = false)
    by (apply Z.leb_gt; lia).
  rewrite E1, E2. cbn [orb].
  replace (Z.to_nat (-1 + Z.of_nat (length l))) with (length l - 1) by lia.
  destruct (nth_error l (length l - 1)) eqn:N.
  - f_equal. symmetry. apply nth_error_nth. exact N.
  - apply nth_error_None in N. lia.
Qed.

Lemma get_indexes_exact (vi : Q) (count : Z) :
  (0 <= vi)%Q ->
  get_indexes vi count
  = if Qle_bool (inject_Z (count - 1)) vi then ((-1)%Z, (-1)%Z)
    else (Qfloor vi, (Qfloor vi + 1)%Z).
Proof.
  intros Hv. unfold get_indexes. cbn [fleb fisnan fzero of_int ffloor Exact].
  apply Qle_bool_iff in Hv. rewrite Hv. cbn [negb andb].
  destruct (Qle_bool (inject_Z (count - 1)) vi); reflexivity.
Qed.

Lemma lerp_exact (a b t : Q) : (lerp a b t == a + (b - a) * t)%Q.
Proof.
  unfold lerp, of_ratio. cbn [fleb fsub fadd fmul fdiv of_int Exact].
  destruct (Qle_bool _ t); [|reflexivity].
  change (inject_Z 1) with 1%Q. ring.
Qed.

Lemma inject_Z_pred (z : Z) : (inject_Z (z - 1) == inject_Z z - 1)%Q.
Proof.
  unfold Z.sub. rewrite inject_Z_plus. reflexivity.
Qed.

Lemma floor_ceiling_cases (h : Q) :
  (Qceiling h = Qfloor h /\ (h == inject_Z (Qfloor h))%Q) \/
  Qceiling h = (Qfloor h + 1)%Z.
Proof.
  pose proof (Qfloor_le h) as F1. pose proof (Qlt_floor h) as F2.
  pose proof (Qle_ceiling h) as C1. pose proof (Qceiling_lt h) as C2.
  assert (L : (Qfloor h <= Qceiling h)%Z).
  { rewrite Zle_Qle. apply Qle_trans with h; assumption. }
  assert (U : (Qceiling h - 1 < Qfloor h + 1)%Z).
  { rewrite Zlt_Qlt. apply Qlt_trans with h; assumption. }
  destruct (Z.eq_dec (Qceiling h) (Qfloor h)) as [E|E].
  - left. split; [exact E|]. rewrite E in C1. apply Qle_antisym; assumption.
  - right. lia.
Qed.

Lemma linear_percentile_rank (s : list Q) (p vi : Q) :
  (vi == p / 100 * (inject_Z (Z.of_nat (length s)) - 1))%Q ->
  (linear_percentile s p ==
   nth (Z.to_nat (Qfloor vi)) s 0
   + (vi - inject_Z (Qfloor vi))
     * (nth (Z.to_nat (Qceiling vi)) s 0 - nth (Z.to_nat (Qfloor vi)) s 0))%Q.
Proof.
  intros E. unfold linear_percentile. cbv zeta.
  rewrite <- (Qfloor_comp _ _ E), <- (Qceiling_comp _ _ E), <- E. reflexivity.
Qed.

Lemma np_percentile_exact (a : list Q) (p : Q) :
  a <> [] -> (0 <= p)%Q -> (p <= 100)%Q ->
  exists r, np_percentile a p = Ok r /\
            (r == linear_percentile (np_sort a) p)%Q.
Proof.
  intros NE P0 P100.
  assert (Hm : 0 < length a) by (destruct a; [contradiction|simpl; lia]).
  assert (Ls : length (np_sort a) = length a)
    by (rewrite np_sort_exact; apply isort_length).
  assert (NEs : np_sort a <> []).
  { intros E. rewrite E in Ls. simpl in Ls. lia. }
  unfold np_percentile. cbn [fleb fdiv fmul fsub fzero fisnan of_int Exact].
  change (inject_Z 100) with 100%Q. change (inject_Z 1) with 1%Q.
  assert (Q0 : (0 <= p / 100)%Q) by (apply Qle_shift_div_l; [reflexivity|lra]).
  assert (Q1 : (p / 100 <= 1)%Q) by (apply Qle_shift_div_r; [reflexivity|lra]).
  assert (B0 : Qle_bool 0 (p / 100) = true) by (apply Qle_bool_iff; exact Q0).
  assert (B1 : Qle_bool (p / 100) 1 = true) by (apply Qle_bool_iff; exact Q1).
  rewrite B0, B1. cbn [andb negb].
  set (count := Z.of_nat (length a)).
  set (vi := (inject_Z (count - 1) * (p / 100))%Q).
  assert (C1 : (0 <= inject_Z (count - 1))%Q).
  { change 0%Q with (inject_Z 0). rewrite <- Zle_Qle. unfold count. lia. }
  assert (V0 : (0 <= vi)%Q) by (unfold vi; apply Qmult_le_0_compat; assumption).
  assert (V1 : (vi <= inject_Z (count - 1))%Q).
  { unfold vi. generalize dependent (inject_Z (count - 1)).
    generalize dependent (p / 100)%Q. intros. nra. }
  assert (VH : (vi == p / 100 * (inject_Z (Z.of_nat (length (np_sort a))) - 1))%Q).
  { unfold vi, count. rewrite Ls, inject_Z_pred. ring. }
  pose proof (linear_percentile_rank (np_sort a) VH) as LP.
  rewrite (get_indexes_exact count V0).
  rewrite (getitem_last 0%Q NEs). cbn [bind].
  destruct (Qle_bool (inject_Z (count - 1)) vi) eqn:A.
  - (* the rank reaches the last position *)
    apply Qle_bool_iff in A.
    assert (VE : (vi == inject_Z (count - 1))%Q) by (apply Qle_antisym; assumption).
    rewrite (getitem_last 0%Q NEs). cbn [bind].
    eexists. split; [reflexivity|].
    rewrite lerp_exact, LP.
    rewrite (Qfloor_comp _ _ VE), (Qceiling_comp _ _ VE), Qfloor_Z, Qceiling_Z.
    replace (Z.to_nat (count - 1)) with (length (np_sort a) - 1) by (unfold count; lia).
    ring.
  - (* the rank lies strictly inside *)
    assert (A' : (vi < inject_Z (count - 1))%Q).
    { apply Qnot_le_lt. intros C. apply Qle_bool_iff in C. congruence. }
    pose proof (Qfloor_le vi) as F1. pose proof (Qlt_floor vi) as F2.
    assert (F0 : (0 <= Qfloor vi)%Z).
    { change 0%Z with (Qfloor 0). apply Qfloor_resp_le. exact V0. }
    assert (FU : (Qfloor vi < count - 1)%Z).
    { rewrite Zlt_Qlt. apply Qle_lt_trans with vi; assumption. }
    rewrite (getitem_nth (np_sort a) 0%Q) by (rewrite Ls; fold count; lia).
    cbn [bind].
    rewrite (getitem_nth (np_sort a) 0%Q) by (rewrite Ls; fold count; lia).
    cbn [bind].
    eexists. split; [reflexivity|].
    rewrite lerp_exact, LP.
    destruct (floor_ceiling_cases vi) as [[E1 E2]|E1]; rewrite E1.
    + assert (G : (vi - inject_Z (Qfloor vi) == 0)%Q) by lra.
      set (g := (vi - inject_Z (Qfloor vi))%Q) in *. rewrite G. ring.
    + ring.
Qed.

(** ** The derived threshold *)

Lemma in_skipn_iff {A : Type} (k : nat) (l : list A) (d x : A) :
  In x (skipn k l) <-> exists c, k <= c /\ c < length l /\ x = nth c l d.
Proof.
  revert k. induction l as [|y t IH]; intros k.
  - rewrite skipn_nil. simpl. split; [tauto|]. intros (c & _ & L & _). lia.
  - destruct k as [|k].
    + simpl skipn. split.
      * intros Hin. destruct (In_nth _ _ d Hin) as (c & L & E).
        exists c. split; [lia|]. split; [exact L|]. symmetry. exact E.
      * intros (c & _ & L & ->). apply nth_In. exact L.
    + simpl skipn. rewrite IH. split.
      * intros (c & L1 & L2 & E). exists (S c). simpl. repeat split; try lia. exact E.
      * intros (c & L1 & L2 & E). destruct c as [|c]; [lia|].
        exists c. simpl in *. repeat split; try lia. exact E.
Qed.

Lemma in_triu_from {F : Type} `{Scalar F} (i0 : nat) (rows : matrix F) (x : F) :
  In x (triu_from i0 rows) <->
  exists r c, r < length rows /\ i0 + r < c /\ c < length (nth r rows []) /\
              x = nth c (nth r rows []) fzero.
Proof.
  revert i0. induction rows as [|row rest IH]; intros i0; cbn [triu_from length].
  - split; [simpl; tauto|]. intros (r & c & L & _). lia.
  - rewrite in_app_iff, (in_skipn_iff _ _ fzero), IH. split.
    + intros [(c & L1 & L2 & E)|(r & c & L1 & L2 & L3 & E)].
      * exists 0, c. cbn [nth]. repeat split; try lia. exact E.
      * exists (S r), c. cbn [nth]. repeat split; try lia; assumption.
    + intros (r & c & L1 & L2 & L3 & E). destruct r as [|r]; cbn [nth] in *.
      * left. exists c. repeat split; try lia; assumption.
      * right. exists r, c. repeat split; try lia; assumption.
Qed.

Lemma in_upper_triangle {F : Type} `{Scalar F} (n : nat) (D : matrix F) (x : F) :
  has_shape n n D ->
  In x (upper_triangle D) <->
  exists i j, i < j /\ j < n /\ x = entry fzero D i j.
Proof.
  intros [L Fa]. unfold upper_triangle, entry. rewrite in_triu_from.
  rewrite Forall_forall in Fa. split.
  - intros (r & c & L1 & L2 & L3 & E).
    rewrite (Fa (nth r D [])) in L3 by (apply nth_In; exact L1).
    exists r, c. repeat split; try lia. exact E.
  - intros (i & j & L1 & L2 & E). exists i, j.
    rewrite (Fa (nth i D [])) by (apply nth_In; lia).
    repeat split; try lia. exact E.
Qed.

Lemma length_triu_from {F : Type} (n i0 : nat) (rows : matrix F) :
  Forall (fun row => length row = n) rows -> i0 + length rows = n ->
  2 * length (triu_from i0 rows) = length rows * (length rows - 1).
Proof.
  revert i0. induction rows as [|row rest IH]; intros i0 Fa E; [reflexivity|].
  inversion Fa as [|? ? Hr Fr]; subst.
  cbn [triu_from length] in *. rewrite length_app, length_skipn.
  specialize (IH (S i0) Fr). rewrite Hr. nia.
Qed.





Lemma upper_triangle_nonempty (n : nat) (D : matrix Q) :
  2 <= n -> has_shape n n D -> upper_triangle D <> [].
Proof.
  intros Hn HS E.
  assert (I : In (entry 0%Q D 0 1) (upper_triangle D)).
  { apply (@in_upper_triangle Q Exact n D _ HS). exists 0, 1. repeat split; lia. }
  rewrite E in I. exact I.
Qed.

Lemma select_threshold_exact (n : nat) (D : matrix Q) (target : Q) :
  2 <= n -> has_shape n n D -> (0 <= target)%Q -> (target <= 1)%Q ->
  exists t, select_threshold D None target = Ok t /\
            (t == linear_percentile (np_sort (upper_triangle D)) (target * 100))%Q.
Proof.
  intros Hn HS T0 T1. unfold select_threshold. cbn [fmul of_int Exact].
  change (inject_Z 100) with 100%Q.
  apply np_percentile_exact; [apply (upper_triangle_nonempty Hn HS)|lra|lra].
Qed.


(** ** The range of the recurrence rate *)

Lemma binarize_binary {F : Type} `{Scalar F} (D : matrix F) (t : F) :
  binary (binarize D t).
Proof.
  unfold binary, binarize. apply Forall_forall. intros row Hrow.
  apply in_map_iff in Hrow. destruct Hrow as (r & <- & _).
  apply Forall_forall. intros x Hx.
  apply in_map_iff in Hx. destruct Hx as (d & <- & _).
  destruct (fleb d t); auto.
Qed.

Lemma binarize_shape {F : Type} `{Scalar F} (r c : nat) (D : matrix F) (t : F) :
  has_shape r c D -> has_shape r c (binarize D t).
Proof.
  intros [L Fa]. unfold binarize. split; [rewrite length_map; exact L|].
  apply Forall_forall. intros row Hrow.
  apply in_map_iff in Hrow. destruct Hrow as (r0 & <- & Hr0).
  rewrite length_map. rewrite Forall_forall in Fa. apply Fa. exact Hr0.
Qed.

Lemma sum_entries_all_zero (M : matrix Z) :
  Forall (Forall (fun x => x = 0%Z)) M -> sum_entries M = 0%Z.
Proof.
  induction M as [|row rest IH]; intros Z0; [reflexivity|].
  inversion Z0 as [|? ? Zr Zt]; subst.
  change (sum_entries (row :: rest))
    with (fold_right Z.add 0%Z row + sum_entries rest)%Z.
  rewrite (IH Zt).
  assert (R : fold_right Z.add 0%Z row = 0%Z).
  { clear -Zr. induction row as [|x t IHr]; [reflexivity|].
    inversion Zr; subst. simpl. rewrite IHr by assumption. reflexivity. }
  rewrite R. reflexivity.
Qed.

Lemma linear_percentile_nonneg (s : list Q) (p : Q) :
  (forall x, In x s -> (0 <= x)%Q) -> (0 <= linear_percentile s p)%Q.
Proof.
  intros Pos.
  assert (N : forall k, (0 <= nth k s 0)%Q).
  { intros k. destruct (Nat.lt_ge_cases k (length s)) as [L|L].
    - apply Pos, nth_In, L.
    - rewrite nth_overflow by exact L. apply Qle_refl. }
  unfold linear_percentile. cbv zeta.
  set (h := (p / 100 * (inject_Z (Z.of_nat (length s)) - 1))%Q).
  pose proof (Qfloor_le h) as F1. pose proof (Qlt_floor h) as F2.
  rewrite inject_Z_plus in F2. change (inject_Z 1) with 1%Q in F2.
  pose proof (N (Z.to_nat (Qfloor h))) as N1.
  pose proof (N (Z.to_nat (Qceiling h))) as N2.
  remember (nth (Z.to_nat (Qfloor h)) s 0%Q) as x eqn:Ex.
  remember (nth (Z.to_nat (Qceiling h)) s 0%Q) as y eqn:Ey.
  remember (inject_Z (Qfloor h)) as f eqn:Ef. clear Ex Ey Ef.
  assert (E : (x + (h - f) * (y - x) == (1 - (h - f)) * x + (h - f) * y)%Q) by ring.
  rewrite E.
  assert (0 <= (1 - (h - f)) * x)%Q by (apply Qmult_le_0_compat; lra).
  assert (0 <= (h - f) * y)%Q by (apply Qmult_le_0_compat; lra).
  lra.
Qed.




(** A threshold that every diagonal entry is below gives a unit diagonal,
    and then the difference of line 48 does not wrap. *)
Lemma rate_with_unit_diagonal {F : Type} `{Scalar F}
    (n : nat) (D : matrix F) (t : F) :
  (Z.of_nat n < 2 ^ 32)%Z -> has_shape n n D ->
  (forall i, i < n -> fleb (entry fzero D i i) t = true) ->
  (forall i, i < n -> entry 0%Z (binarize D t) i i = 1%Z) /\
  (0 <= off_diagonal_ones n (binarize D t)
   <= Z.of_nat n * Z.of_nat n - Z.of_nat n)%Z /\
  recurrence_rate (binarize D t) (Z.of_nat n)
  = fdiv (of_int (off_diagonal_ones n (binarize D t)))
         (of_int (Z.of_nat n * Z.of_nat n - Z.of_nat n)).
Proof.
  intros Hn HS Dg.
  assert (DG : forall i, i < n -> entry 0%Z (binarize D t) i i = 1%Z).
  { intros i Hi. rewrite (entry_binarize t HS Hi Hi), (Dg i Hi). reflexivity. }
  pose proof (sum_entries_off_diagonal (binarize_shape t HS)
                (binarize_binary D t) DG) as E.
  pose proof (sum_entries_bounds (binarize_shape t HS) (binarize_binary D t))
    as B.
  split; [exact DG|]. split.
  - split; [unfold off_diagonal_ones; lia|lia].
  - rewrite (rate_without_wrap Hn (binarize_shape t HS) (binarize_binary D t)).
    + rewrite E. reflexivity.
    + unfold off_diagonal_ones in E. lia.
Qed.


(** ** The orchestration *)

Lemma getitem_0_inv {A : Type} (l : list A) (x d : A) :
  getitem l 0 = Ok x -> l <> [] /\ hd d l = x.
Proof.
  destruct l as [|a t]; unfold getitem; simpl; [discriminate|].
  intros E. injection E as <-. split; [discriminate|reflexivity].
Qed.

Lemma getitem_last_inv {A : Type} (l : list A) (x d : A) :
  getitem l (-1) = Ok x -> last l d = x.
Proof.
  intros E. destruct l as [|a t]; [unfold getitem in E; simpl in E; discriminate|].
  rewrite (getitem_last d) in E by discriminate.
  injection E as <-.
  assert (G : forall (l : list A) d, l <> [] -> last l d = nth (length l - 1) l d).
  { clear. induction l as [|a [|b t] IH]; intros d NE; [contradiction|reflexivity|].
    change (last (a :: b :: t) d) with (last (b :: t) d).
    rewrite IH by discriminate.
    replace (length (a :: b :: t) - 1) with (S (length (b :: t) - 1))
      by (cbn [length]; lia).
    reflexivity. }
  apply G. discriminate.
Qed.

Lemma SFleb_trans (a b c : spec_float) :
  SFleb a b = true -> SFleb b c = true -> SFleb a c = true.
Proof.
  unfold SFleb, SFcompare.
  destruct a as [sa| sa | | sa ma ea], b as [sb| sb | | sb mb eb],
           c as [sc| sc | | sc mc ec];
    try destruct sa; try destruct sb; try destruct sc; simpl; try congruence;
    change (Pos.compare_cont Eq) with Pos.compare.
  all: try (destruct (Z.compare_spec ea eb); try congruence).
  all: try (destruct (Z.compare_spec eb ec); try congruence).
  all: try (destruct (Z.compare_spec ea ec); try congruence; try lia).
  all: subst.
  all: try (destruct (Pos.compare_spec ma mb); simpl; try congruence).
  all: try (destruct (Pos.compare_spec mb mc); simpl; try congruence).
  all: try (destruct (Pos.compare_spec ma mc); simpl; try congruence; try lia).
Qed.

Lemma SFleb_refl (a : spec_float) : SFeqb a a = true -> SFleb a a = true.
Proof.
  unfold SFleb, SFeqb. destruct (SFcompare a a) as [[| |]|]; congruence.
Qed.

Lemma float_le_trans (a b c : float) :
  float_le a b -> float_le b c -> float_le a c.
Proof. unfold float_le. rewrite !FloatAxioms.leb_spec. apply SFleb_trans. Qed.

Lemma float_le_refl (a : float) : PrimFloat.is_nan a = false -> float_le a a.
Proof.
  unfold float_le, PrimFloat.is_nan. intros N.
  apply negb_false_iff in N.
  rewrite FloatAxioms.eqb_spec in N. rewrite FloatAxioms.leb_spec.
  apply SFleb_refl. exact N.
Qed.

Lemma sorted_bounds (l : list float) (x : float) :
  Sorted float_le l -> Forall (fun t => PrimFloat.is_nan t = false) l ->
  In x l -> float_le (hd 0%float l) x /\ float_le x (last l 0%float).
Proof.
  intros So NN Hin.
  assert (SS : StronglySorted float_le l).
  { apply Sorted_StronglySorted; [|exact So].
    intros a b c. apply float_le_trans. }
  clear So. split.
  - destruct l as [|a t]; [contradiction|]. simpl.
    inversion SS as [|? ? _ Fa]; subst. inversion NN; subst.
    destruct Hin as [<-|Hin]; [apply float_le_refl; assumption|].
    rewrite Forall_forall in Fa. apply Fa. exact Hin.
  - revert x Hin. induction l as [|a t IH]; intros x Hin; [contradiction|].
    inversion SS as [|? ? St Fa]; subst. inversion NN as [|? ? Na Nt]; subst.
    destruct t as [|b t'].
    + destruct Hin as [<-|[]]. apply float_le_refl. exact Na.
    + change (last (a :: b :: t') 0%float) with (last (b :: t') 0%float).
      destruct Hin as [<-|Hin]; [|apply IH; assumption].
      rewrite Forall_forall in Fa. apply Fa.
      clear. generalize b. induction t' as [|c t'' IHt]; intros b0; [left; reflexivity|].
      change (last (b0 :: c :: t'') 0%float) with (last (c :: t'') 0%float).
      right. apply IHt.
Qed.

Section Outcomes.
Context {F : Type} `{Scalar F} `{Root F}.

Lemma bind_ok_inv {A B : Type} (m : res A) (k : A -> res B) (b : B) :
  bind m k = Ok b -> exists a, m = Ok a /\ k a = Ok b.
Proof. destruct m as [a|e]; simpl; [eauto|discriminate]. Qed.

Lemma existsb_time_iff (names : list string) :
  existsb (String.eqb "Time") names = true <-> In "Time"%string names.
Proof.
  rewrite existsb_exists. split.
  - intros (x & Hx & E). apply String.eqb_eq in E. subst. exact Hx.
  - intros Hx. exists "Time"%string. split; [exact Hx|apply String.eqb_refl].
Qed.

Lemma skipped_iff_input_missing
    (fs : FileSystem F) (video_id data_type_ : string) :
  process_rqa_for_datatype fs video_id data_type_ = Ok None <->
  match fs (csv_path_of video_id data_type_) with
  | None => True
  | Some df =>
      ~ In "Time"%string (column_names df) \/
      exists data_col,
        getitem (data_columns df) 0 = Ok data_col /\
        length (masked (column df data_col) (column df data_col)) < 10
  end.
Proof.
  unfold process_rqa_for_datatype.
  destruct (fs (csv_path_of video_id data_type_)) as [df|]; [|tauto].
  fold (data_columns df).
  destruct (existsb (String.eqb "Time") (column_names df)) eqn:T; cbn [negb].
  - apply existsb_time_iff in T.
    destruct (getitem (data_columns df) 0) as [data_col|e] eqn:G; cbn [bind].
    + destruct (length (masked (column df data_col) (column df data_col)) <? 10) eqn:L.
      * apply Nat.ltb_lt in L. split; [|reflexivity].
        intros _. right. exists data_col. split; [reflexivity|exact L].
      * apply Nat.ltb_ge in L. split.
        -- intros E. exfalso.
           destruct (calculate_recurrence_matrix _ None (of_ratio 7 100))
             as [[[R t] rate]|e]; cbn [bind] in E; [|discriminate].
           destruct (downsample_for_visualization _ _ R 500)
             as [[[dv tv] Rv]|e]; cbn [bind] in E; [|discriminate].
           destruct (getitem (masked (column df "Time") (column df data_col)) 0)
             as [ft|e]; cbn [bind] in E; [|discriminate].
           destruct (getitem (masked (column df "Time") (column df data_col)) (-1))
             as [lt|e]; cbn [bind] in E; discriminate.
        -- intros [NT|(c & Ec & Lc)]; [contradiction|].
           injection Ec as <-. lia.
    + split; [discriminate|].
      intros [NT|(c & Ec & _)]; [contradiction|discriminate].
  - split; [|reflexivity]. intros _. left. intros I.
    apply existsb_time_iff in I. congruence.
Qed.

(** C3.  A source that has a [Time] column and no other column makes
    [process_rqa_for_datatype] raise [IndexError] (at [data_cols[0]]); the
    exception ends [main]: nothing is written, and the remaining data types
    and videos are not processed. *)
Theorem source_without_value_column_aborts
    (fs : FileSystem F) (video_id data_type_ output_dir : string)
    (cells : list F) (other_types other_videos : list string) :
  fs (csv_path_of video_id data_type_) = Some [("Time"%string, cells)] ->
  process_rqa_for_datatype fs video_id data_type_ = Raise IndexError /\
  main {| include_RQA := Some (data_type_ :: other_types);
          videoIDs := video_id :: other_videos |} output_dir fs
  = ([], Some IndexError).
Proof.
  intros E.
  assert (P : process_rqa_for_datatype fs video_id data_type_ = Raise IndexError).
  { unfold process_rqa_for_datatype. rewrite E. reflexivity. }
  split; [exact P|].
  unfold main. cbn [include_RQA videoIDs process_videos dedup existsb process_types].
  rewrite P. reflexivity.
Qed.

End Outcomes.

Lemma hd_in {A : Type} (l : list A) (d : A) : l <> [] -> In (hd d l) l.
Proof. destruct l; [contradiction|left; reflexivity]. Qed.

Lemma last_in {A : Type} (l : list A) (d : A) : l <> [] -> In (last l d) l.
Proof.
  induction l as [|a [|b t] IH]; intros NE; [contradiction|left; reflexivity|].
  right. apply IH. discriminate.
Qed.

Lemma division_by_zero_is_non_finite (x y : float) :
  is_float_zero y = true -> is_non_finite (x / y) = true.
Proof.
  unfold is_float_zero, is_non_finite. rewrite FloatAxioms.div_spec.
  destruct (Prim2SF y); try discriminate.
  intros _. destruct (Prim2SF x); reflexivity.
Qed.

(** C2, as amended.  For every processed pair, the [time_range] of the
    record, in the top-level field and in the [full_data] block alike, is
    the pair (first, last) of the cleaned time values; when these are in
    non-decreasing order (and none is NaN) the pair is (minimum, maximum). *)
Theorem time_range_is_first_and_last_time
    (fs : FileSystem float) (video_id data_type_ : string) (r : Result float) :
  process_rqa_for_datatype fs video_id data_type_ = Ok (Some r) ->
  exists df data_col,
    fs (csv_path_of video_id data_type_) = Some df /\
    getitem (data_columns df) 0 = Ok data_col /\
    let time_clean := masked (column df "Time") (column df data_col) in
    time_clean <> [] /\
    time_range r = (hd 0%float time_clean, last time_clean 0%float) /\
    full_time_range (full_data r) = time_range r /\
    (Sorted float_le time_clean ->
     Forall (fun t => PrimFloat.is_nan t = false) time_clean ->
     In (fst (time_range r)) time_clean /\
     In (snd (time_range r)) time_clean /\
     forall x, In x time_clean ->
       float_le (fst (time_range r)) x /\ float_le x (snd (time_range r))).
Proof.
  unfold process_rqa_for_datatype. intros E.
  destruct (fs (csv_path_of video_id data_type_)) as [df|]; [|discriminate].
  fold (data_columns df) in E.
  destruct (existsb (String.eqb "Time") (column_names df)); cbn [negb] in E;
    [|discriminate].
  destruct (getitem (data_columns df) 0) as [data_col|e] eqn:G; cbn [bind] in E;
    [|discriminate].
  destruct (length (masked (column df data_col) (column df data_col)) <? 10);
    [discriminate|].
  destruct (calculate_recurrence_matrix _ None (of_ratio 7 100))
    as [[[R t] rate]|e]; cbn [bind] in E; [|discriminate].
  destruct (downsample_for_visualization _ _ R 500)
    as [[[dv tv] Rv]|e]; cbn [bind] in E; [|discriminate].
  destruct (getitem (masked (column df "Time") (column df data_col)) 0)
    as [ft|e] eqn:G0; cbn [bind] in E; [|discriminate].
  destruct (getitem (masked (column df "Time") (column df data_col)) (-1))
    as [lt|e] eqn:G1; cbn [bind] in E; [|discriminate].
  injection E as <-. cbn [time_range full_data full_time_range fst snd].
  destruct (getitem_0_inv _ 0%float G0) as [NE Hd].
  pose proof (getitem_last_inv _ 0%float G1) as La.
  exists df, data_col. split; [reflexivity|]. split; [exact G|].
  cbv zeta. split; [exact NE|]. split; [rewrite Hd, La; reflexivity|].
  split; [reflexivity|].
  intros So NN. rewrite <- Hd, <- La.
  split; [apply hd_in; exact NE|]. split; [apply last_in; exact NE|].
  intros x Hx. apply sorted_bounds; assumption.
Qed.

(** * Further properties of the code *)

(** ** Removal of duplicate data types *)

Lemma existsb_eqb_in (x : string) (l : list string) :
  existsb (String.eqb x) l = true <-> In x l.
Proof.
  rewrite existsb_exists. split.
  - intros (y & Hy & E). apply String.eqb_eq in E. subst. exact Hy.
  - intros Hx. exists x. split; [exact Hx|apply String.eqb_refl].
Qed.

Lemma in_dedup (seen l : list string) (x : string) :
  In x (dedup seen l) <-> In x l /\ ~ In x seen.
Proof.
  revert seen. induction l as [|y t IH]; intros seen; cbn [dedup].
  - simpl. tauto.
  - destruct (existsb (String.eqb y) seen) eqn:E.
    + apply existsb_eqb_in in E. rewrite IH. simpl. split.
      * intros [H1 H2]. auto.
      * intros [[->|H1] H2]; [contradiction|auto].
    + assert (N : ~ In y seen).
      { intros I. apply existsb_eqb_in in I. congruence. }
      simpl. rewrite IH. simpl. split.
      * intros [->|[H1 H2]]; [auto|]. split; [auto|]. intros I. apply H2. auto.
      * intros [[->|H1] H2]; [auto|].
        destruct (string_dec y x) as [->|D]; [auto|].
        right. split; [exact H1|]. intros [?|?]; [contradiction|contradiction].
Qed.

Lemma dedup_nodup (seen l : list string) : NoDup (dedup seen l).
Proof.
  revert seen. induction l as [|y t IH]; intros seen; cbn [dedup]; [constructor|].
  destruct (existsb (String.eqb y) seen); [apply IH|].
  constructor; [|apply IH].
  rewrite in_dedup. intros [_ N]. apply N. left. reflexivity.
Qed.

Lemma dedup_idempotent (seen l : list string) :
  dedup seen (dedup seen l) = dedup seen l.
Proof.
  revert seen. induction l as [|y t IH]; intros seen; cbn [dedup]; [reflexivity|].
  destruct (existsb (String.eqb y) seen) eqn:E; [apply IH|].
  cbn [dedup]. rewrite E. f_equal. apply IH.
Qed.

Lemma dedup_of_nodup (seen l : list string) :
  NoDup l -> (forall x, In x l -> ~ In x seen) -> dedup seen l = l.
Proof.
  revert seen. induction l as [|y t IH]; intros seen ND Dis; [reflexivity|].
  inversion ND as [|? ? Hy NDt]; subst. cbn [dedup].
  assert (E : existsb (String.eqb y) seen = false).
  { destruct (existsb (String.eqb y) seen) eqn:E; [|reflexivity].
    apply existsb_eqb_in in E. exfalso. apply (Dis y); [left; reflexivity|exact E]. }
  rewrite E. f_equal. apply IH; [exact NDt|].
  intros x Hx [<-|I]; [contradiction|]. apply (Dis x); [right; exact Hx|exact I].
Qed.

(** X1.  Removing the repeated data types (line 182) keeps every requested name
    exactly once: the result has no duplicate, has the same members as the
    list of the configuration, is unchanged by a second removal, is the list
    itself when no name is repeated, and is empty only when the list is. *)
Theorem dedup_keeps_each_name_once (l : list string) :
  NoDup (dedup [] l) /\
  (forall x, In x (dedup [] l) <-> In x l) /\
  dedup [] (dedup [] l) = dedup [] l /\
  (NoDup l -> dedup [] l = l) /\
  (l <> [] -> dedup [] l <> []).
Proof.
  split; [apply dedup_nodup|].
  split; [intros x; rewrite in_dedup; simpl; tauto|].
  split; [apply dedup_idempotent|].
  split; [intros ND; apply dedup_of_nodup; [exact ND|intros x _ []]|].
  destruct l as [|y t]; [congruence|]. intros _. cbn. discriminate.
Qed.

Section Batch.
Context {F : Type} `{Scalar F} `{Root F}.

(** X2.  A data type listed more than once in [include_RQA] changes nothing: the
    files written and the exception raised, if any, are those of the run on
    the list with its repetitions removed. *)
Theorem main_ignores_repeated_data_types
    (fs : FileSystem F) (output_dir : string) (types videos : list string) :
  main {| include_RQA := Some types; videoIDs := videos |} output_dir fs
  = main {| include_RQA := Some (dedup [] types); videoIDs := videos |}
         output_dir fs.
Proof.
  assert (G : forall written,
             process_videos fs output_dir types videos written
             = process_videos fs output_dir (dedup [] types) videos written).
  { induction videos as [|v vs IH]; intros written; [reflexivity|].
    cbn [process_videos]. rewrite dedup_idempotent.
    destruct (process_types fs v (dedup [] types) []) as [[|r rs]|e];
      [apply IH|apply IH|reflexivity]. }
  unfold main. cbn [include_RQA videoIDs].
  destruct types as [|y t]; [reflexivity|].
  rewrite (G []). reflexivity.
Qed.

End Batch.

Section BatchProofs.
Context {F : Type} `{Scalar F} `{Root F}.

Lemma process_ok_inv (fs : FileSystem F) (video_id data_type_ : string)
    (r : Result F) :
  process_rqa_for_datatype fs video_id data_type_ = Ok (Some r) ->
  exists df data_col R thr rate dv tv Rv ft lt,
    fs (csv_path_of video_id data_type_) = Some df /\
    In "Time"%string (column_names df) /\
    getitem (data_columns df) 0 = Ok data_col /\
    10 <= length (masked (column df data_col) (column df data_col)) /\
    calculate_recurrence_matrix (masked (column df data_col) (column df data_col))
      None (of_ratio 7 100) = Ok (R, thr, rate) /\
    downsample_for_visualization
      (masked (column df data_col) (column df data_col))
      (masked (column df "Time") (column df data_col)) R 500
    = Ok (dv, tv, Rv) /\
    getitem (masked (column df "Time") (column df data_col)) 0 = Ok ft /\
    getitem (masked (column df "Time") (column df data_col)) (-1) = Ok lt /\
    r = {| data_type := data_type_;
           threshold := thr;
           recurrence_rate_of := rate;
           time_range := (ft, lt);
           visualization := {| vis_time := tv; vis_data := dv;
                               matrix_size := length tv;
                               sparse_matrix := matrix_to_sparse_format Rv |};
           full_data := {| n_points :=
                             length (masked (column df data_col)
                                            (column df data_col));
                           full_time_range := (ft, lt) |} |}.
Proof.
  unfold process_rqa_for_datatype. intros E.
  destruct (fs (csv_path_of video_id data_type_)) as [df|]; [|discriminate].
  destruct (existsb (String.eqb "Time") (column_names df)) eqn:T; cbn [negb] in E;
    [|discriminate].
  apply existsb_time_iff in T.
  destruct (getitem (data_columns df) 0) as [data_col|e] eqn:G; cbn [bind] in E;
    [|discriminate].
  destruct (length (masked (column df data_col) (column df data_col)) <? 10) eqn:L;
    [discriminate|].
  apply Nat.ltb_ge in L.
  destruct (calculate_recurrence_matrix _ None (of_ratio 7 100))
    as [[[R t] rate]|e] eqn:C; cbn [bind] in E; [|discriminate].
  destruct (downsample_for_visualization _ _ R 500)
    as [[[dv tv] Rv]|e] eqn:Dn; cbn [bind] in E; [|discriminate].
  destruct (getitem (masked (column df "Time") (column df data_col)) 0)
    as [ft|e] eqn:G0; cbn [bind] in E; [|discriminate].
  destruct (getitem (masked (column df "Time") (column df data_col)) (-1))
    as [lt|e] eqn:G1; cbn [bind] in E; [|discriminate].
  injection E as <-.
  exists df, data_col, R, t, rate, dv, tv, Rv, ft, lt.
  repeat split; try assumption; reflexivity.
Qed.

Lemma process_types_spec (fs : FileSystem F) (video_id : string)
    (types : list string) (acc : list (string * Result F)) :
  match process_types fs video_id types acc with
  | Ok rs =>
      rs = acc ++ results_of fs video_id types /\
      forall t e, In t types ->
                  process_rqa_for_datatype fs video_id t <> Raise e
  | Raise e =>
      exists t, In t types /\ process_rqa_for_datatype fs video_id t = Raise e
  end.
Proof.
  revert acc. induction types as [|t ts IH]; intros acc; cbn [process_types].
  - split; [unfold results_of; simpl; rewrite app_nil_r; reflexivity|].
    intros t e [].
  - unfold results_of. cbn [flat_map]. fold (results_of fs video_id ts).
    destruct (process_rqa_for_datatype fs video_id t) as [[r|]|e] eqn:P;
      cbn [bind].
    + specialize (IH (acc ++ [(t, r)])).
      destruct (process_types fs video_id ts (acc ++ [(t, r)])) as [rs|e].
      * destruct IH as [-> NR]. split; [rewrite <- app_assoc; reflexivity|].
        intros t' e' [<-|I]; [congruence|apply NR; exact I].
      * destruct IH as (t' & I & R'). exists t'. split; [right; exact I|exact R'].
    + specialize (IH acc).
      destruct (process_types fs video_id ts acc) as [rs|e].
      * destruct IH as [-> NR]. split; [reflexivity|].
        intros t' e' [<-|I]; [congruence|apply NR; exact I].
      * destruct IH as (t' & I & R'). exists t'. split; [right; exact I|exact R'].
    + exists t. split; [left; reflexivity|exact P].
Qed.

Lemma in_results_of (fs : FileSystem F) (video_id : string)
    (types : list string) (k : string) (r : Result F) :
  In (k, r) (results_of fs video_id types) <->
  In k types /\ process_rqa_for_datatype fs video_id k = Ok (Some r).
Proof.
  unfold results_of. rewrite in_flat_map. split.
  - intros (t & I & Hin).
    destruct (process_rqa_for_datatype fs video_id t) as [[r'|]|e] eqn:P;
      try contradiction.
    destruct Hin as [Q|[]]. injection Q as <- <-. auto.
  - intros [I P]. exists k. split; [exact I|]. rewrite P. left. reflexivity.
Qed.

Lemma results_of_keys_nodup (fs : FileSystem F) (video_id : string)
    (types : list string) :
  NoDup types -> NoDup (map fst (results_of fs video_id types)).
Proof.
  induction types as [|t ts IH]; intros ND; [constructor|].
  inversion ND as [|? ? Ht NDt]; subst.
  unfold results_of. cbn [flat_map]. fold (results_of fs video_id ts).
  destruct (process_rqa_for_datatype fs video_id t) as [[r|]|e];
    cbn [app map fst]; try (apply IH; exact NDt).
  constructor; [|apply IH; exact NDt].
  intros I. apply in_map_iff in I. destruct I as ([k r'] & <- & I).
  apply in_results_of in I. apply Ht. apply I.
Qed.

Lemma process_videos_spec (fs : FileSystem F) (output_dir : string)
    (types videos : list string) (written : list (OutputFile F)) :
  exists done,
    fst (process_videos fs output_dir types videos written)
    = written ++ files_of fs output_dir (dedup [] types) done /\
    (forall v t e, In v done -> In t types ->
                   process_rqa_for_datatype fs v t <> Raise e) /\
    match snd (process_videos fs output_dir types videos written) with
    | None => done = videos
    | Some e =>
        exists v rest t,
          videos = done ++ v :: rest /\ In t types /\
          process_rqa_for_datatype fs v t = Raise e
    end.
Proof.
  revert written. induction videos as [|v vs IH]; intros written;
    cbn [process_videos].
  - exists []. cbn. rewrite app_nil_r. split; [reflexivity|].
    split; [intros v t e []|reflexivity].
  - pose proof (process_types_spec fs v (dedup [] types) []) as PT.
    destruct (process_types fs v (dedup [] types) []) as [rs|e].
    + destruct PT as [-> NR]. cbn [app] in *.
      assert (NR' : forall t e, In t types ->
                                process_rqa_for_datatype fs v t <> Raise e).
      { intros t e I. apply NR. apply in_dedup. split; [exact I|intros []]. }
      assert (Step : forall w,
        (exists done,
           fst (process_videos fs output_dir types vs w)
           = w ++ files_of fs output_dir (dedup [] types) done /\
           (forall v t e, In v done -> In t types ->
                          process_rqa_for_datatype fs v t <> Raise e) /\
           match snd (process_videos fs output_dir types vs w) with
           | None => done = vs
           | Some e =>
               exists v rest t,
                 vs = done ++ v :: rest /\ In t types /\
                 process_rqa_for_datatype fs v t = Raise e
           end) ->
        exists done,
           fst (process_videos fs output_dir types vs w)
           = w ++ files_of fs output_dir (dedup [] types) done /\
           (forall v0 t e, In v0 (v :: done) -> In t types ->
                          process_rqa_for_datatype fs v0 t <> Raise e) /\
           match snd (process_videos fs output_dir types vs w) with
           | None => v :: done = v :: vs
           | Some e =>
               exists v0 rest t,
                 v :: vs = (v :: done) ++ v0 :: rest /\ In t types /\
                 process_rqa_for_datatype fs v0 t = Raise e
           end).
      { intros w (done & E1 & E2 & E3). exists done. split; [exact E1|].
        split.
        - intros v0 t e [<-|I] It; [apply NR'; exact It|apply E2; assumption].
        - destruct (snd (process_videos fs output_dir types vs w)) as [e|].
          + destruct E3 as (v' & rest & t & -> & I & R').
            exists v', rest, t. auto.
          + rewrite E3. reflexivity. }
      destruct (results_of fs v (dedup [] types)) as [|r0 rs0] eqn:RS.
      * destruct (Step written (IH written)) as (done & E1 & E2 & E3).
        exists (v :: done). split; [|split; [exact E2|exact E3]].
        rewrite E1. unfold files_of. cbn [flat_map]. rewrite RS. reflexivity.
      * match goal with
        | |- context [process_videos fs output_dir types vs (written ++ [?f])] =>
            destruct (Step (written ++ [f]) (IH (written ++ [f])))
              as (done & E1 & E2 & E3)
        end.
        exists (v :: done). split; [|split; [exact E2|exact E3]].
        rewrite E1. unfold files_of. cbn [flat_map]. rewrite RS.
        rewrite <- app_assoc. reflexivity.
    + destruct PT as (t & I & R'). exists []. cbn [fst snd].
      split; [unfold files_of; cbn; rewrite app_nil_r; reflexivity|].
      split; [intros v0 t0 e0 []|].
      exists v, vs, t. split; [reflexivity|]. split; [|exact R'].
      apply in_dedup in I. apply I.
Qed.

End BatchProofs.

Section BatchTheorems.
Context {F : Type} `{Scalar F} `{Root F}.


(** X3.  Every file written by [main] belongs to a configured video, is named
    [os.path.join(output_dir, <video>_rqa_data.json)], holds at least one
    record and at most one per data type; its records are exactly those of the requested data
    types for which [process_rqa_for_datatype] returns a record, each stored
    under the data type it names. *)
Theorem written_files_are_well_formed
    (fs : FileSystem F) (output_dir : string) (types videos : list string)
    (file : OutputFile F) :
  In file (fst (main {| include_RQA := Some types; videoIDs := videos |}
                     output_dir fs)) ->
  In (out_video_id file) videos /\
  output_path file
  = path_join output_dir (out_video_id file ++ "_rqa_data.json")%string /\
  rqa_data file <> [] /\
  NoDup (map fst (rqa_data file)) /\
  (forall k r, In (k, r) (rqa_data file) <->
     In k types /\
     process_rqa_for_datatype fs (out_video_id file) k = Ok (Some r)) /\
  (forall k r, In (k, r) (rqa_data file) -> data_type r = k).
Proof.
  unfold main. cbn [include_RQA videoIDs].
  destruct types as [|y ts]; [intros []|].
  destruct (process_videos_spec fs output_dir (y :: ts) videos [])
    as (done & E1 & _ & E3).
  rewrite E1. cbn [app]. set (types := y :: ts) in *. clearbody types.
  intros Hin. unfold files_of in Hin. apply in_flat_map in Hin.
  destruct Hin as (v & Iv & Hf).
  assert (Iv' : In v videos).
  { destruct (snd (process_videos fs output_dir types videos [])) as [e|].
    - destruct E3 as (v' & rest & t & -> & _). apply in_or_app. left. exact Iv.
    - rewrite <- E3. exact Iv. }
  destruct (results_of fs v (dedup [] types)) as [|r0 rs] eqn:RS; [contradiction|].
  destruct Hf as [<-|[]]. cbn [out_video_id output_path rqa_data].
  rewrite <- RS.
  assert (M : forall k r, In (k, r) (results_of fs v (dedup [] types)) <->
                          In k types /\
                          process_rqa_for_datatype fs v k = Ok (Some r)).
  { intros k r. rewrite in_results_of, in_dedup. simpl. tauto. }
  split; [exact Iv'|]. split; [reflexivity|].
  split; [rewrite RS; discriminate|].
  split; [apply results_of_keys_nodup, dedup_nodup|].
  split; [exact M|].
  intros k r I. apply M in I. destruct I as [_ P].
  destruct (process_ok_inv _ _ _ P) as (? & ? & ? & ? & ? & ? & ? & ? & ? & ? & Q).
  decompose [and] Q. subst r. reflexivity.
Qed.


End BatchTheorems.

Section Calculate.
Context {F : Type} `{Scalar F} `{Root F}.

Lemma cdist_shape (xa xb : list F) :
  has_shape (length xa) (length xb) (cdist xa xb).
Proof.
  unfold cdist. split; [apply length_map|].
  apply Forall_forall. intros row Hrow.
  apply in_map_iff in Hrow. destruct Hrow as (u & <- & _). apply length_map.
Qed.

Lemma normalize_length (ts : list F) : length (normalize ts) = length ts.
Proof. unfold normalize. apply length_map. Qed.

Lemma calculate_ok_inv (ts : list F) (threshold : option F) (target : F)
    (R : matrix Z) (thr rate : F) :
  calculate_recurrence_matrix ts threshold target = Ok (R, thr, rate) ->
  R = binarize (cdist (normalize ts) (normalize ts)) thr /\
  rate = recurrence_rate R (Z.of_nat (length ts)) /\
  select_threshold (cdist (normalize ts) (normalize ts)) threshold target = Ok thr.
Proof.
  unfold calculate_recurrence_matrix, recurrence_from_distances. intros E.
  destruct (select_threshold _ threshold target) as [t|e]; cbn [bind] in E;
    [|discriminate].
  injection E as <- <- <-. auto.
Qed.

(** X5.  Whatever [calculate_recurrence_matrix] returns for a series of [n]
    values is an [n x n] matrix of zeros and ones, whose sum lies between [0]
    and [n * n]; with a threshold given by the caller it never raises, hands
    that threshold back, and ignores the target recurrence. *)
Theorem recurrence_matrix_is_square_and_binary
    (ts : list F) (threshold : option F) (target : F) :
  (forall R thr rate,
     calculate_recurrence_matrix ts threshold target = Ok (R, thr, rate) ->
     has_shape (length ts) (length ts) R /\ binary R /\
     (0 <= sum_entries R <= Z.of_nat (length ts) * Z.of_nat (length ts))%Z) /\
  (forall t, exists R rate,
     calculate_recurrence_matrix ts (Some t) target = Ok (R, t, rate)) /\
  (forall t target', calculate_recurrence_matrix ts (Some t) target
                     = calculate_recurrence_matrix ts (Some t) target').
Proof.
  split; [|split].
  - intros R thr rate E. destruct (calculate_ok_inv _ _ _ E) as (-> & _ & _).
    assert (HS : has_shape (length ts) (length ts)
                   (binarize (cdist (normalize ts) (normalize ts)) thr)).
    { apply binarize_shape.
      pose proof (cdist_shape (normalize ts) (normalize ts)) as S.
      rewrite normalize_length in S. exact S. }
    split; [exact HS|]. split; [apply binarize_binary|].
    apply (sum_entries_bounds HS (binarize_binary _ _)).
  - intros t. eexists _, _. reflexivity.
  - intros t target'. reflexivity.
Qed.

End Calculate.

(** ** Thresholds in exact arithmetic *)

(** X6.  In exact arithmetic, deriving the threshold (lines 36-40) raises
    [ValueError] exactly when the target recurrence lies outside [[0, 1]],
    whatever the distance matrix. *)
Theorem threshold_rank_out_of_range (D : matrix Q) (target : Q) :
  select_threshold D None target = Raise ValueError <->
  (target < 0)%Q \/ (1 < target)%Q.
Proof.
  unfold select_threshold. cbn [fmul of_int Exact].
  change (inject_Z 100) with 100%Q.
  split.
  - intros E.
    destruct (Qlt_le_dec target 0) as [L|L]; [left; exact L|].
    destruct (Qlt_le_dec 1 target) as [U|U]; [right; exact U|].
    exfalso. destruct (upper_triangle D) as [|x a] eqn:UT.
    + unfold np_percentile in E. cbn [fleb fdiv fmul fsub fzero fisnan of_int Exact] in E.
      change (inject_Z 100) with 100%Q in E. change (inject_Z 1) with 1%Q in E.
      assert (B0 : Qle_bool 0 (target * 100 / 100) = true)
        by (apply Qle_bool_iff; apply Qle_shift_div_l; [reflexivity|lra]).
      assert (B1 : Qle_bool (target * 100 / 100) 1 = true)
        by (apply Qle_bool_iff; apply Qle_shift_div_r; [reflexivity|lra]).
      rewrite B0, B1 in E. cbn [andb negb] in E.
      destruct (get_indexes _ _) as [pi ni]. cbn in E. discriminate.
    + destruct (@np_percentile_exact (x :: a) (target * 100)%Q) as (r & Er & _);
        [discriminate|lra|lra|]. congruence.
  - intros O. unfold np_percentile.
    cbn [fleb fdiv fmul fsub fzero fisnan of_int Exact].
    change (inject_Z 100) with 100%Q. change (inject_Z 1) with 1%Q.
    assert (B : Qle_bool 0 (target * 100 / 100) && Qle_bool (target * 100 / 100) 1
                = false).
    { apply andb_false_iff.
      assert (E : (target * 100 / 100 == target)%Q) by field.
      destruct O as [L|U].
      - left. destruct (Qle_bool 0 (target * 100 / 100)) eqn:B; [|reflexivity].
        apply Qle_bool_iff in B. lra.
      - right. destruct (Qle_bool (target * 100 / 100) 1) eqn:B; [|reflexivity].
        apply Qle_bool_iff in B. lra. }
    rewrite B. reflexivity.
Qed.

Lemma sorted_nth_le (s : list Q) (i j : nat) :
  StronglySorted Qle s -> i <= j -> j < length s ->
  (nth i s 0 <= nth j s 0)%Q.
Proof.
  intros Hs. revert i j. induction Hs as [|a t St IH Fa]; intros i j Hij Hj.
  - simpl in Hj. lia.
  - destruct i as [|i], j as [|j]; cbn [nth length] in *; try lia.
    + apply Qle_refl.
    + rewrite Forall_forall in Fa. apply Fa. apply nth_In. lia.
    + apply IH; lia.
Qed.

Lemma rank_bounds (m : nat) (p h : Q) :
  0 < m -> (0 <= p)%Q -> (p <= 100)%Q ->
  (h == p / 100 * (inject_Z (Z.of_nat m) - 1))%Q ->
  (0 <= h)%Q /\ (h <= inject_Z (Z.of_nat m - 1))%Q /\
  (0 <= Qfloor h)%Z /\ (Qceiling h <= Z.of_nat m - 1)%Z.
Proof.
  intros Hm P0 P1 Eh.
  assert (Q0 : (0 <= p / 100)%Q) by (apply Qle_shift_div_l; [reflexivity|lra]).
  assert (Q1 : (p / 100 <= 1)%Q) by (apply Qle_shift_div_r; [reflexivity|lra]).
  assert (M : (0 <= inject_Z (Z.of_nat m) - 1)%Q).
  { rewrite <- inject_Z_pred. change 0%Q with (inject_Z 0).
    rewrite <- Zle_Qle. lia. }
  assert (H0 : (0 <= h)%Q) by (rewrite Eh; apply Qmult_le_0_compat; assumption).
  assert (H1 : (h <= inject_Z (Z.of_nat m - 1))%Q).
  { rewrite inject_Z_pred, Eh.
    remember (inject_Z (Z.of_nat m) - 1)%Q as c. remember (p / 100)%Q as q.
    nra. }
  split; [exact H0|]. split; [exact H1|]. split.
  - change 0%Z with (Qfloor 0). apply Qfloor_resp_le. exact H0.
  - rewrite <- (Qceiling_Z (Z.of_nat m - 1)). apply Qceiling_resp_le. exact H1.
Qed.

Lemma linear_percentile_mono (s : list Q) (p1 p2 : Q) :
  StronglySorted Qle s -> s <> [] ->
  (0 <= p1)%Q -> (p1 <= p2)%Q -> (p2 <= 100)%Q ->
  (linear_percentile s p1 <= linear_percentile s p2)%Q.
Proof.
  intros Hs NE P0 P12 P2.
  assert (Hm : 0 < length s) by (destruct s; [contradiction|simpl; lia]).
  set (h1 := (p1 / 100 * (inject_Z (Z.of_nat (length s)) - 1))%Q).
  set (h2 := (p2 / 100 * (inject_Z (Z.of_nat (length s)) - 1))%Q).
  assert (E1 : (h1 == p1 / 100 * (inject_Z (Z.of_nat (length s)) - 1))%Q)
    by reflexivity.
  assert (E2 : (h2 == p2 / 100 * (inject_Z (Z.of_nat (length s)) - 1))%Q)
    by reflexivity.
  rewrite (linear_percentile_rank s E1), (linear_percentile_rank s E2).
  destruct (@rank_bounds (length s) p1 h1 Hm) as (A1 & B1 & F1 & C1);
    [lra|lra|exact E1|].
  destruct (@rank_bounds (length s) p2 h2 Hm) as (A2 & B2 & F2 & C2);
    [lra|lra|exact E2|].
  assert (H12 : (h1 <= h2)%Q).
  { unfold h1, h2.
    assert (M : (0 <= inject_Z (Z.of_nat (length s)) - 1)%Q).
    { rewrite <- inject_Z_pred. change 0%Q with (inject_Z 0).
      rewrite <- Zle_Qle. lia. }
    assert (Q12 : (p1 / 100 <= p2 / 100)%Q).
    { unfold Qdiv. apply Qmult_le_compat_r; [exact P12|].
      unfold Qle; simpl; lia. }
    remember (inject_Z (Z.of_nat (length s)) - 1)%Q as c.
    remember (p1 / 100)%Q as q1. remember (p2 / 100)%Q as q2. nra. }
  pose proof (Qfloor_le h1) as L1. pose proof (Qlt_floor h1) as U1.
  pose proof (Qfloor_le h2) as L2. pose proof (Qlt_floor h2) as U2.
  rewrite inject_Z_plus in U1, U2. change (inject_Z 1) with 1%Q in U1, U2.
  pose proof (Qle_floor_ceiling h1) as FC1. pose proof (Qle_floor_ceiling h2) as FC2.
  rewrite <- Zle_Qle in FC1, FC2.
  assert (S1 : (nth (Z.to_nat (Qfloor h1)) s 0 <= nth (Z.to_nat (Qceiling h1)) s 0)%Q)
    by (apply sorted_nth_le; [exact Hs|lia|lia]).
  assert (S2 : (nth (Z.to_nat (Qfloor h2)) s 0 <= nth (Z.to_nat (Qceiling h2)) s 0)%Q)
    by (apply sorted_nth_le; [exact Hs|lia|lia]).
  destruct (Z_le_gt_dec (Qceiling h1) (Qfloor h2)) as [Sep|Same].
  - assert (S3 : (nth (Z.to_nat (Qceiling h1)) s 0 <= nth (Z.to_nat (Qfloor h2)) s 0)%Q)
      by (apply sorted_nth_le; [exact Hs|lia|lia]).
    remember (nth (Z.to_nat (Qfloor h1)) s 0%Q) as a1.
    remember (nth (Z.to_nat (Qceiling h1)) s 0%Q) as b1.
    remember (nth (Z.to_nat (Qfloor h2)) s 0%Q) as a2.
    remember (nth (Z.to_nat (Qceiling h2)) s 0%Q) as b2.
    remember (inject_Z (Qfloor h1)) as k1. remember (inject_Z (Qfloor h2)) as k2.
    assert (T1 : (a1 + (h1 - k1) * (b1 - a1) <= b1)%Q) by nra.
    assert (T2 : (a2 <= a2 + (h2 - k2) * (b2 - a2))%Q) by nra.
    lra.
  - assert (FF : (Qfloor h1 <= Qfloor h2)%Z) by (apply Qfloor_resp_le; exact H12).
    assert (CC : (Qceiling h1 <= Qceiling h2)%Z) by (apply Qceiling_resp_le; exact H12).
    assert (K1 : Qceiling h1 = (Qfloor h1 + 1)%Z).
    { destruct (floor_ceiling_cases h1) as [[E _]|E]; [lia|exact E]. }
    assert (K2 : Qceiling h2 = (Qfloor h2 + 1)%Z).
    { destruct (floor_ceiling_cases h2) as [[E _]|E]; [lia|exact E]. }
    assert (K : Qfloor h2 = Qfloor h1) by lia.
    rewrite K2, K. rewrite K1 in S1. rewrite K1.
    remember (nth (Z.to_nat (Qfloor h1)) s 0%Q) as a.
    remember (nth (Z.to_nat (Qfloor h1 + 1)) s 0%Q) as b.
    remember (inject_Z (Qfloor h1)) as k. nra.
Qed.

Lemma row_sum_mono (row : list Q) (t1 t2 : Q) :
  (t1 <= t2)%Q ->
  (fold_right Z.add 0 (map (fun d => if Qle_bool d t1 then 1 else 0) row)
   <= fold_right Z.add 0 (map (fun d => if Qle_bool d t2 then 1 else 0) row))%Z.
Proof.
  intros T. induction row as [|d row IH]; [simpl; lia|].
  cbn [map fold_right].
  destruct (Qle_bool d t1) eqn:B1; destruct (Qle_bool d t2) eqn:B2; try lia.
  apply Qle_bool_iff in B1.
  assert (B : Qle_bool d t2 = true) by (apply Qle_bool_iff; lra). congruence.
Qed.

Lemma sum_entries_mono (D : matrix Q) (t1 t2 : Q) :
  (t1 <= t2)%Q -> (sum_entries (binarize D t1) <= sum_entries (binarize D t2))%Z.
Proof.
  intros T. induction D as [|row D IH]; [simpl; lia|].
  unfold binarize in *. cbn [map fleb Exact] in *.
  change (sum_entries (?r :: ?M)) with (fold_right Z.add 0%Z r + sum_entries M)%Z.
  pose proof (row_sum_mono row T). lia.
Qed.

(** X7.  In exact arithmetic, for [n >= 2] and targets [0 <= target1 <= target2
    <= 1], the derived threshold and the recurrence matrix grow with the
    target: every recurrence point found for [target1] is one for [target2],
    so that the number of recurrence points grows; the recurrence rate grows
    with them for a distance matrix, with non-negative entries and a zero
    diagonal, of size below [2^32] (elsewhere the difference of line 48 can
    wrap around for [target1] and not for [target2]). *)
Theorem higher_target_keeps_recurrence_points
    (n : nat) (D : matrix Q) (target1 target2 : Q) :
  2 <= n -> has_shape n n D ->
  (0 <= target1)%Q -> (target1 <= target2)%Q -> (target2 <= 1)%Q ->
  exists R1 t1 rate1 R2 t2 rate2,
    recurrence_from_distances D (Z.of_nat n) None target1 = Ok (R1, t1, rate1) /\
    recurrence_from_distances D (Z.of_nat n) None target2 = Ok (R2, t2, rate2) /\
    (t1 <= t2)%Q /\
    (forall i j, i < n -> j < n -> entry 0%Z R1 i j = 1%Z -> entry 0%Z R2 i j = 1%Z) /\
    (sum_entries R1 <= sum_entries R2)%Z /\
    ((Z.of_nat n < 2 ^ 32)%Z ->
     (forall i j, i < n -> j < n -> (0 <= entry 0%Q D i j)%Q) ->
     (forall i, i < n -> (entry 0%Q D i i == 0)%Q) ->
     (rate1 <= rate2)%Q).
Proof.
  intros Hn HS T0 T12 T2.
  destruct (@select_threshold_exact n D target1 Hn HS) as (t1 & E1 & V1); [lra|lra|].
  destruct (@select_threshold_exact n D target2 Hn HS) as (t2 & E2 & V2); [lra|lra|].
  assert (T : (t1 <= t2)%Q).
  { rewrite V1, V2. apply linear_percentile_mono.
    - rewrite np_sort_exact. apply isort_sorted.
    - intros E. apply (upper_triangle_nonempty Hn HS).
      apply (f_equal (@length Q)) in E. rewrite np_sort_exact, isort_length in E.
      destruct (upper_triangle D); [reflexivity|discriminate].
    - lra.
    - lra.
    - lra. }
  exists (binarize D t1), t1, (recurrence_rate (binarize D t1) (Z.of_nat n)),
    (binarize D t2), t2, (recurrence_rate (binarize D t2) (Z.of_nat n)).
  split; [unfold recurrence_from_distances; rewrite E1; reflexivity|].
  split; [unfold recurrence_from_distances; rewrite E2; reflexivity|].
  split; [exact T|]. split; [|split].
  - intros i j Hi Hj. rewrite !(entry_binarize _ HS Hi Hj). cbn [fleb fzero Exact].
    destruct (Qle_bool (entry 0%Q D i j) t1) eqn:B1; [|discriminate].
    intros _. apply Qle_bool_iff in B1.
    assert (B : Qle_bool (entry 0%Q D i j) t2 = true) by (apply Qle_bool_iff; lra).
    rewrite B. reflexivity.
  - apply (sum_entries_mono D T).
  - intros Hn32 Pos Dg.
    assert (T1pos : (0 <= t1)%Q).
    { rewrite V1. apply linear_percentile_nonneg. intros x Hx.
      rewrite np_sort_exact in Hx. apply (Permutation_in _ (isort_perm _)) in Hx.
      apply (@in_upper_triangle Q Exact n D x HS) in Hx.
      destruct Hx as (i & j & L1 & L2 & ->). apply Pos; lia. }
    assert (DG : forall t, (0 <= t)%Q ->
                 forall i, i < n -> fleb (entry fzero D i i) t = true).
    { intros t Tp i Hi. cbn [fleb fzero Exact].
      apply Qle_bool_iff. rewrite (Dg i Hi). exact Tp. }
    destruct (rate_with_unit_diagonal t1 Hn32 HS (DG t1 T1pos)) as (D1 & _ & _).
    destruct (rate_with_unit_diagonal t2 Hn32 HS (DG t2 ltac:(lra)))
      as (D2 & _ & _).
    pose proof (sum_entries_off_diagonal (binarize_shape t1 HS)
                  (binarize_binary D t1) D1) as O1.
    pose proof (sum_entries_off_diagonal (binarize_shape t2 HS)
                  (binarize_binary D t2) D2) as O2.
    rewrite (rate_without_wrap Hn32 (binarize_shape t1 HS) (binarize_binary D t1))
      by (unfold off_diagonal_ones in O1; lia).
    rewrite (rate_without_wrap Hn32 (binarize_shape t2 HS) (binarize_binary D t2))
      by (unfold off_diagonal_ones in O2; lia).
    cbn [fdiv of_int Exact].
    assert (Hnn : (0 < Z.of_nat n * Z.of_nat n - Z.of_nat n)%Z) by nia.
    assert (Dq : (0 < inject_Z (Z.of_nat n * Z.of_nat n - Z.of_nat n))%Q).
    { change 0%Q with (inject_Z 0). rewrite <- Zlt_Qlt. exact Hnn. }
    pose proof (sum_entries_mono D T) as SM.
    apply Qle_shift_div_l; [exact Dq|].
    assert (X : (inject_Z (sum_entries (binarize D t1) - Z.of_nat n)
                 / inject_Z (Z.of_nat n * Z.of_nat n - Z.of_nat n)
                 * inject_Z (Z.of_nat n * Z.of_nat n - Z.of_nat n)
                 == inject_Z (sum_entries (binarize D t1) - Z.of_nat n))%Q).
    { field. intros Z0. rewrite Z0 in Dq. apply (Qlt_irrefl 0). exact Dq. }
    rewrite X. rewrite <- Zle_Qle. lia.
Qed.

Lemma length_ones_in_row (r c : nat) (row : list Z) :
  Forall (fun x => x = 0%Z \/ x = 1%Z) row ->
  Z.of_nat (length (ones_in_row r c row)) = fold_right Z.add 0%Z row.
Proof.
  revert c. induction row as [|x t IH]; intros c B; [reflexivity|].
  inversion B as [|? ? Bx Bt]; subst. cbn [ones_in_row fold_right].
  destruct Bx as [->| ->].
  - change (0 =? 1)%Z with false. cbv iota. rewrite (IH (S c) Bt). lia.
  - change (1 =? 1)%Z with true. cbv iota.
    rewrite length_cons, Nat2Z.inj_succ, (IH (S c) Bt). lia.
Qed.

Lemma length_ones_from (r : nat) (M : matrix Z) :
  binary M -> Z.of_nat (length (ones_from r M)) = sum_entries M.
Proof.
  revert r. induction M as [|row rest IH]; intros r B; [reflexivity|].
  inversion B as [|? ? Br Bt]; subst. cbn [ones_from].
  change (sum_entries (row :: rest))
    with (fold_right Z.add 0%Z row + sum_entries rest)%Z.
  rewrite length_app, Nat2Z.inj_add, (length_ones_in_row r 0 Br), (IH (S r) Bt).
  reflexivity.
Qed.

Lemma strongly_sorted_nodup (l : list (nat * nat)) :
  StronglySorted row_major_lt l -> NoDup l.
Proof.
  induction 1 as [|a t St IH Fa]; constructor; [|exact IH].
  intros I. rewrite Forall_forall in Fa. specialize (Fa a I).
  unfold row_major_lt in Fa. lia.
Qed.

Lemma sparse_format_in_range (rows cols : nat) (M : matrix Z) :
  has_shape rows cols M ->
  forall r c, In (r, c) (matrix_to_sparse_format M) -> r < rows /\ c < cols.
Proof.
  intros HS r c I. apply in_sparse_format in I.
  destruct (Nat.lt_ge_cases r rows) as [Lr|Lr].
  - split; [exact Lr|]. destruct (Nat.lt_ge_cases c cols) as [Lc|Lc]; [exact Lc|].
    rewrite (entry_out_of_cols 0%Z r HS Lc) in I. discriminate.
  - rewrite entry_out_of_rows in I by (destruct HS as [L _]; lia). discriminate.
Qed.

Lemma length_sparse_format (M : matrix Z) :
  binary M -> Z.of_nat (length (matrix_to_sparse_format M)) = sum_entries M.
Proof. rewrite sparse_format_ones. apply length_ones_from. Qed.

(** X8.  The sparse format of a [rows x cols] matrix lists positions inside the
    matrix, none of them twice; for a matrix of zeros and ones their number is
    the sum of the matrix, the quantity line 48 computes the rate from. *)
Theorem sparse_format_counts_the_ones (rows cols : nat) (M : matrix Z) :
  has_shape rows cols M ->
  (forall r c, In (r, c) (matrix_to_sparse_format M) -> r < rows /\ c < cols) /\
  NoDup (matrix_to_sparse_format M) /\
  (binary M -> Z.of_nat (length (matrix_to_sparse_format M)) = sum_entries M).
Proof.
  intros HS. split; [|split].
  - apply (sparse_format_in_range HS).
  - rewrite sparse_format_ones. apply strongly_sorted_nodup, ones_from_sorted.
  - apply length_sparse_format.
Qed.

(** ** Decimation: lengths and errors *)

Lemma downsample_ok_inv_full {F : Type} (values times : list F) (M : matrix Z)
    (max_points : Z) (values' times' : list F) (M' : matrix Z) :
  downsample_for_visualization values times M max_points
  = Ok (values', times', M') ->
  (values' = values /\ times' = times /\ M' = M) \/
  exists step, step <> 0%Z /\ values' = slice_nz step values /\
               times' = slice_nz step times /\
               M' = map (slice_nz step) (slice_nz step M).
Proof.
  unfold downsample_for_visualization.
  destruct (Z.of_nat (length values) <=? max_points)%Z.
  - intros E. injection E as <- <- <-. left. auto.
  - unfold floordiv. destruct (max_points =? 0)%Z; cbn [bind]; [discriminate|].
    unfold slice_step, slice_step2.
    destruct (Z.of_nat (length values) / max_points =? 0)%Z eqn:Z0;
      cbn [bind]; [discriminate|].
    intros E. injection E as <- <- <-. right.
    exists (Z.of_nat (length values) / max_points)%Z.
    split; [apply Z.eqb_neq; exact Z0|auto].
Qed.

Lemma in_stride_from {A : Type} (k s : nat) (l : list A) (x : A) :
  In x (stride_from k s l) -> In x l.
Proof.
  revert s. induction l as [|y t IH]; intros s I; [exact I|].
  destruct s as [|s]; cbn [stride_from] in I.
  - destruct I as [<-|I]; [left; reflexivity|right; apply (IH k); exact I].
  - right. apply (IH s). exact I.
Qed.

Lemma in_slice_nz {A : Type} (step : Z) (l : list A) (x : A) :
  In x (slice_nz step l) -> In x l.
Proof.
  unfold slice_nz. destruct (0 <? step)%Z; intros I; apply in_stride_from in I;
    [exact I|apply in_rev; exact I].
Qed.

Lemma has_shape_slice2 {A : Type} (step : Z) (n m : nat) (M : matrix A) :
  step <> 0%Z -> has_shape n m M ->
  has_shape (cdiv n (Z.to_nat (Z.abs step))) (cdiv m (Z.to_nat (Z.abs step)))
            (map (slice_nz step) (slice_nz step M)).
Proof.
  intros Hs [L Fa]. split.
  - rewrite length_map, length_slice_nz_any, L by exact Hs. reflexivity.
  - apply Forall_forall. intros row Hrow.
    apply in_map_iff in Hrow. destruct Hrow as (r0 & <- & Hr0).
    rewrite length_slice_nz_any by exact Hs. f_equal.
    rewrite Forall_forall in Fa. apply Fa. apply (in_slice_nz _ _ _ Hr0).
Qed.

Lemma cdiv_le (n k : nat) : 1 <= k -> cdiv n k <= n.
Proof.
  intros K. unfold cdiv.
  destruct n as [|n]; [rewrite Nat.div_small; lia|].
  apply Nat.Div0.div_le_upper_bound. nia.
Qed.

(** The length of [l[::n // m]] for a list of [n > m > 0] elements. *)
Lemma decimated_length_bounds (n : nat) (m : Z) :
  (0 < m)%Z -> (m < Z.of_nat n)%Z ->
  let len := Z.of_nat (cdiv n (Z.to_nat (Z.of_nat n / m))) in
  (m <= len <= 2 * m - 1)%Z /\
  ((Z.of_nat n mod m = 0)%Z -> len = m).
Proof.
  intros Hpos Hlt.
  set (k := (Z.of_nat n / m)%Z) in *.
  pose proof (Z.div_mod (Z.of_nat n) m ltac:(lia)) as DM.
  pose proof (Z.mod_pos_bound (Z.of_nat n) m Hpos) as MB.
  fold k in DM.
  assert (Hk : (0 < k)%Z).
  { unfold k. apply Z.div_str_pos. lia. }
  unfold cdiv.
  assert (C : (Z.of_nat ((n + (Z.to_nat k - 1)) / Z.to_nat k)
               = (Z.of_nat n + (k - 1)) / k)%Z).
  { rewrite Nat2Z.inj_div, Nat2Z.inj_add, Nat2Z.inj_sub by lia.
    rewrite Z2Nat.id by lia. reflexivity. }
  cbv zeta. rewrite C.
  assert (Lo : (m <= (Z.of_nat n + (k - 1)) / k)%Z).
  { apply Z.div_le_lower_bound; [lia|]. nia. }
  assert (Hi : ((Z.of_nat n + (k - 1)) / k < 2 * m)%Z).
  { apply Z.div_lt_upper_bound; [lia|]. nia. }
  split; [lia|].
  intros Z0. rewrite Z0 in DM.
  symmetry. apply Z.div_unique with (r := (k - 1)%Z); [lia|]. nia.
Qed.

(** X10.  Decimation keeps the three arrays aligned: for a series and a time
    axis of [n] values and an [n x n] matrix, every result has as many times as
    values, a square matrix of that size, and at most [n] values. *)
Theorem downsample_keeps_arrays_aligned {F : Type}
    (values times : list F) (n : nat) (M : matrix Z) (max_points : Z)
    (values' times' : list F) (M' : matrix Z) :
  length values = n -> length times = n -> has_shape n n M ->
  downsample_for_visualization values times M max_points
  = Ok (values', times', M') ->
  length times' = length values' /\
  has_shape (length values') (length values') M' /\
  length values' <= n.
Proof.
  intros Lv Lt HS E.
  destruct (downsample_ok_inv_full _ _ _ _ E)
    as [(-> & -> & ->)|(step & Hs & -> & -> & ->)].
  - rewrite Lv, Lt. auto.
  - rewrite !length_slice_nz_any by exact Hs. rewrite Lv, Lt.
    split; [reflexivity|]. split; [apply (has_shape_slice2 Hs HS)|].
    apply cdiv_le. lia.
Qed.

(** X9.  With [0 < max_points < n] the decimation succeeds and keeps between
    [max_points] and [2 * max_points - 1] values: the result may exceed
    [max_points], and has exactly [max_points] values when [max_points]
    divides [n]. *)
Theorem downsample_length_bounds {F : Type}
    (values times : list F) (M : matrix Z) (max_points : Z) :
  (0 < max_points)%Z -> (max_points < Z.of_nat (length values))%Z ->
  exists values' times' M',
    downsample_for_visualization values times M max_points
    = Ok (values', times', M') /\
    (max_points <= Z.of_nat (length values') <= 2 * max_points - 1)%Z /\
    ((Z.of_nat (length values) mod max_points = 0)%Z ->
     Z.of_nat (length values') = max_points).
Proof.
  intros Hpos Hlt.
  destruct (downsample_large values times M Hpos Hlt) as [Hs E].
  eexists _, _, _. split; [exact E|].
  rewrite length_slice_nz by exact Hs.
  apply (decimated_length_bounds (length values) Hpos Hlt).
Qed.

(** X15.  [downsample_for_visualization] raises in two cases only:
    [ZeroDivisionError] when [max_points] is [0] and the series is not empty
    (line 76), and [ValueError] when [max_points] is negative and the series
    is empty (a slice step of [0], line 79). *)
Theorem downsample_raises_only_on_degenerate_bounds {F : Type}
    (values times : list F) (M : matrix Z) (max_points : Z) (e : exn) :
  downsample_for_visualization values times M max_points = Raise e <->
  (e = ZeroDivisionError /\ max_points = 0%Z /\ values <> []) \/
  (e = ValueError /\ (max_points < 0)%Z /\ values = []).
Proof.
  unfold downsample_for_visualization.
  destruct (Z.leb_spec (Z.of_nat (length values)) max_points) as [L|L].
  - split; [discriminate|].
    intros [(_ & -> & NE)|(_ & Neg & ->)].
    + destruct values; [contradiction|simpl in L; lia].
    + simpl in L. lia.
  - unfold floordiv. destruct (Z.eqb_spec max_points 0) as [->|NZ]; cbn [bind].
    + split.
      * intros Q. injection Q as <-. left. split; [reflexivity|].
        split; [reflexivity|]. intros ->. simpl in L. lia.
      * intros [(-> & _)|(_ & Neg & _)]; [reflexivity|lia].
    + unfold slice_step, slice_step2.
      destruct (Z.eqb_spec (Z.of_nat (length values) / max_points) 0) as [Z0|Z0];
        cbn [bind].
      * split.
        -- intros Q. injection Q as <-. right. split; [reflexivity|].
           assert (Neg : (max_points < 0)%Z).
           { destruct (Z.lt_ge_cases max_points 0) as [N|N]; [exact N|].
             exfalso. assert (P : (0 < max_points)%Z) by lia.
             assert ((1 <= Z.of_nat (length values) / max_points)%Z)
               by (apply Z.div_le_lower_bound; lia). lia. }
           split; [exact Neg|].
           destruct values as [|v vs]; [reflexivity|]. exfalso.
           assert (Hn : (0 < Z.of_nat (length (v :: vs)))%Z) by (simpl; lia).
           pose proof (Z.div_mod (Z.of_nat (length (v :: vs))) max_points NZ) as DM.
           pose proof (Z.mod_neg_bound (Z.of_nat (length (v :: vs))) max_points Neg).
           rewrite Z0 in DM. lia.
        -- intros [(_ & -> & _)|(-> & _)]; [contradiction|reflexivity].
      * split; [discriminate|].
        intros [(_ & -> & _)|(_ & Neg & ->)]; [contradiction|].
        exfalso. apply Z0. reflexivity.
Qed.

(** ** The emitted record *)

Section Record.
Context {F : Type} `{Scalar F} `{Root F}.

Lemma masked_self (l : list F) :
  masked l l = filter (fun x => negb (fisnan x)) l.
Proof.
  unfold masked. induction l as [|x t IH]; [reflexivity|].
  cbn [combine filter snd]. destruct (negb (fisnan x)); cbn [map fst];
    rewrite IH; reflexivity.
Qed.

Lemma in_masked (col data : list F) (x : F) :
  In x (masked col data) -> In x col.
Proof.
  unfold masked. intros I. apply in_map_iff in I.
  destruct I as ([a b] & <- & I). apply filter_In in I.
  destruct I as [I _]. apply in_combine_l in I. exact I.
Qed.

Lemma length_masked (col data : list F) :
  length col = length data ->
  length (masked col data) = length (masked data data).
Proof.
  unfold masked. revert data.
  induction col as [|c col IH]; intros [|d data] L; try discriminate;
    [reflexivity|].
  cbn [combine filter snd]. injection L as L.
  destruct (negb (fisnan d)); cbn [map length]; rewrite (IH data L); reflexivity.
Qed.

Lemma column_in (df : DataFrame F) (name : string) :
  In name (column_names df) -> In (name, column df name) df.
Proof.
  induction df as [|[c cells] rest IH]; intros I; [destruct I|].
  cbn [column]. destruct (String.eqb_spec c name) as [->|N].
  - left. reflexivity.
  - right. apply IH. destruct I as [E|I]; [contradiction|exact I].
Qed.

Lemma length_column (rows : nat) (df : DataFrame F) (name : string) :
  rectangular rows df -> In name (column_names df) ->
  length (column df name) = rows.
Proof.
  intros R I. unfold rectangular in R. rewrite Forall_forall in R.
  apply (R _ (column_in df name I)).
Qed.

Lemma first_data_column (df : DataFrame F) (data_col : string) :
  getitem (data_columns df) 0 = Ok data_col ->
  In data_col (column_names df) /\ data_col <> "Time"%string /\
  exists rest, data_columns df = data_col :: rest.
Proof.
  intros G. destruct (data_columns df) as [|c rest] eqn:D; [discriminate|].
  assert (c = data_col) as ->.
  { apply (@getitem_0_inv _ _ _ data_col G). }
  assert (I : In data_col (data_columns df)) by (rewrite D; left; reflexivity).
  unfold data_columns in I. apply filter_In in I. destruct I as [I N].
  split; [exact I|]. split; [|exists rest; reflexivity].
  intros ->. discriminate.
Qed.

(** X11.  A record returned by [process_rqa_for_datatype] describes the first
    column of the file other than [Time], cleaned of its missing values: it
    carries the requested data type, [n_points] is the number of values of that
    column that are not NaN and is at least [10], both time ranges agree and
    their ends are cells of the [Time] column, [matrix_size] is the number of
    displayed times, the displayed times are cells of the [Time] column, the
    displayed values are cells of the data column that are not NaN, and no
    more values are displayed than were analysed. *)
Theorem record_describes_the_cleaned_series
    (fs : FileSystem F) (video_id data_type_ : string) (r : Result F) :
  process_rqa_for_datatype fs video_id data_type_ = Ok (Some r) ->
  exists df data_col rest,
    fs (csv_path_of video_id data_type_) = Some df /\
    data_columns df = data_col :: rest /\
    data_type r = data_type_ /\
    n_points (full_data r)
    = length (filter (fun x => negb (fisnan x)) (column df data_col)) /\
    10 <= n_points (full_data r) /\
    full_time_range (full_data r) = time_range r /\
    In (fst (time_range r)) (column df "Time") /\
    In (snd (time_range r)) (column df "Time") /\
    matrix_size (visualization r) = length (vis_time (visualization r)) /\
    (forall x, In x (vis_time (visualization r)) -> In x (column df "Time")) /\
    (forall x, In x (vis_data (visualization r)) ->
               In x (column df data_col) /\ fisnan x = false) /\
    length (vis_data (visualization r)) <= n_points (full_data r).
Proof.
  intros E.
  destruct (process_ok_inv _ _ _ E)
    as (df & data_col & R & thr & rate & dv & tv & Rv & ft & lt_ &
        Efs & IT & G & L & C & D & Gf & Gl & ->).
  destruct (first_data_column df G) as (_ & _ & rest & Dc).
  exists df, data_col, rest.
  cbn [data_type full_data n_points full_time_range time_range visualization
       matrix_size vis_time vis_data fst snd].
  rewrite masked_self in *.
  set (data_clean := filter (fun x => negb (fisnan x)) (column df data_col)) in *.
  set (time_clean := masked (column df "Time") (column df data_col)) in *.
  assert (NE : time_clean <> []).
  { intros N. rewrite N in Gf. discriminate. }
  assert (Sub : (forall x, In x tv -> In x time_clean) /\
                (forall x, In x dv -> In x data_clean) /\
                length dv <= length data_clean).
  { destruct (downsample_ok_inv_full _ _ _ _ D)
      as [(-> & -> & _)|(step & Hs & -> & -> & _)].
    - auto.
    - split; [intros x; apply in_slice_nz|].
      split; [intros x; apply in_slice_nz|].
      rewrite length_slice_nz_any by exact Hs. apply cdiv_le. lia. }
  destruct Sub as (St & Sd & Ld).
  split; [exact Efs|]. split; [exact Dc|]. split; [reflexivity|].
  split; [reflexivity|]. split; [exact L|]. split; [reflexivity|].
  split.
  { apply (in_masked _ (column df data_col)). fold time_clean.
    destruct (@getitem_0_inv _ _ _ ft Gf) as [_ <-]. apply hd_in. exact NE. }
  split.
  { apply (in_masked _ (column df data_col)). fold time_clean.
    rewrite <- (@getitem_last_inv _ _ _ ft Gl). apply last_in. exact NE. }
  split; [reflexivity|]. split.
  { intros x I. apply (in_masked _ (column df data_col)). apply St. exact I. }
  split; [|exact Ld].
  intros x I. apply Sd in I. unfold data_clean in I. apply filter_In in I.
  destruct I as [I N]. apply negb_true_iff in N. split; assumption.
Qed.

(** X12.  For a file whose columns all have the same number of rows, the
    visualization block of a record is consistent: times and values both have
    [matrix_size] elements; [matrix_size] is [n_points] up to [500] points and
    lies between [500] and [999] beyond; the sparse matrix lists positions
    below [matrix_size], none twice, hence at most [matrix_size ^ 2] of them. *)
Theorem visualization_is_consistent
    (fs : FileSystem F) (video_id data_type_ : string) (r : Result F)
    (rows : nat) (df : DataFrame F) :
  fs (csv_path_of video_id data_type_) = Some df ->
  rectangular rows df ->
  process_rqa_for_datatype fs video_id data_type_ = Ok (Some r) ->
  let v := visualization r in
  let n := n_points (full_data r) in
  length (vis_time v) = matrix_size v /\
  length (vis_data v) = matrix_size v /\
  (n <= 500 -> matrix_size v = n) /\
  (500 < n -> 500 <= matrix_size v <= 999) /\
  (forall row col, In (row, col) (sparse_matrix v) ->
                   row < matrix_size v /\ col < matrix_size v) /\
  NoDup (sparse_matrix v) /\
  length (sparse_matrix v) <= matrix_size v * matrix_size v.
Proof.
  intros Efs Rect E.
  destruct (process_ok_inv _ _ _ E)
    as (df' & data_col & R & thr & rate & dv & tv & Rv & ft & lt_ &
        Efs' & IT & G & L & C & D & Gf & Gl & ->).
  rewrite Efs in Efs'. injection Efs' as <-.
  destruct (first_data_column df G) as (Ic & _ & _).
  cbn [full_data n_points visualization matrix_size vis_time vis_data
       sparse_matrix].
  set (data_clean := masked (column df data_col) (column df data_col)) in *.
  set (time_clean := masked (column df "Time") (column df data_col)) in *.
  assert (Lt : length time_clean = length data_clean).
  { apply length_masked.
    rewrite (@length_column rows df _ Rect IT), (@length_column rows df _ Rect Ic). reflexivity. }
  destruct (calculate_ok_inv _ _ _ C) as (ER & _ & _).
  assert (HS : has_shape (length data_clean) (length data_clean) R).
  { rewrite ER. apply binarize_shape.
    pose proof (cdist_shape (normalize data_clean) (normalize data_clean)) as S.
    rewrite normalize_length in S. exact S. }
  assert (BR : binary R) by (rewrite ER; apply binarize_binary).
  assert (Shape : length dv = length tv /\
                  has_shape (length tv) (length tv) Rv /\ binary Rv /\
                  (length data_clean <= 500 -> length tv = length data_clean) /\
                  (500 < length data_clean -> 500 <= length tv <= 999)).
  { destruct (Z_le_gt_dec (Z.of_nat (length data_clean)) 500) as [Le|Gt].
    - rewrite (downsample_small _ time_clean R Le) in D.
      injection D as <- <- <-. rewrite Lt.
      repeat split; try assumption; try reflexivity; try lia;
        destruct HS; assumption.
    - destruct (@downsample_large F data_clean time_clean R 500
                  ltac:(lia) ltac:(lia)) as [Hk D'].
      rewrite D' in D. injection D as <- <- <-.
      set (k := (Z.of_nat (length data_clean) / 500)%Z) in *.
      assert (Hs : k <> 0%Z) by lia.
      rewrite !length_slice_nz_any by exact Hs. rewrite Lt.
      pose proof (has_shape_slice2 Hs HS) as HS'.
      pose proof (@decimated_length_bounds (length data_clean) 500
                    ltac:(lia) ltac:(lia)) as [B _].
      fold k in B. replace (Z.to_nat (Z.abs k)) with (Z.to_nat k) in * by lia.
      repeat split; try exact HS'; try lia; try (destruct HS'; assumption).
      unfold binary. apply Forall_forall. intros row Hrow.
      apply in_map_iff in Hrow. destruct Hrow as (r0 & <- & Hr0).
      apply in_slice_nz in Hr0. unfold binary in BR.
      rewrite Forall_forall in BR. specialize (BR _ Hr0).
      rewrite Forall_forall in BR. apply Forall_forall.
      intros x Hx. apply in_slice_nz in Hx. apply BR. exact Hx. }
  destruct Shape as (Ldv & HSv & Bv & Small & Large).
  split; [reflexivity|]. split; [exact Ldv|]. split; [exact Small|].
  split; [exact Large|]. split; [apply (sparse_format_in_range HSv)|].
  split.
  - rewrite sparse_format_ones. apply strongly_sorted_nodup, ones_from_sorted.
  - pose proof (length_sparse_format Bv) as LS.
    pose proof (sum_entries_bounds HSv Bv) as SB. nia.
Qed.

(** X13.  Up to [500] points nothing is decimated, and the recurrence rate of
    the record can be recomputed from the record alone: with [ones] listed
    pairs and [n = n_points] it is [(ones - n) / (n * n - n)] when at least
    [n] pairs are listed, and [(2^64 + ones - n) / (n * n - n)], the
    difference wrapped around, when fewer are. *)
Theorem rate_is_recoverable_from_the_sparse_matrix
    (fs : FileSystem F) (video_id data_type_ : string) (r : Result F) :
  process_rqa_for_datatype fs video_id data_type_ = Ok (Some r) ->
  n_points (full_data r) <= 500 ->
  let n := Z.of_nat (n_points (full_data r)) in
  let ones := Z.of_nat (length (sparse_matrix (visualization r))) in
  recurrence_rate_of r
  = fdiv (of_int (if (n <=? ones)%Z then ones - n else 2 ^ 64 + ones - n))
         (of_int (n * n - n)).
Proof.
  intros E Small.
  destruct (process_ok_inv _ _ _ E)
    as (df & data_col & R & thr & rate & dv & tv & Rv & ft & lt_ &
        Efs & IT & G & L & C & D & Gf & Gl & ->).
  cbn [full_data n_points visualization sparse_matrix recurrence_rate_of] in *.
  rewrite downsample_small in D by lia.
  injection D as _ _ <-.
  destruct (calculate_ok_inv _ _ _ C) as (ER & -> & _).
  cbv zeta. rewrite length_sparse_format by (rewrite ER; apply binarize_binary).
  set (n := length (masked (column df data_col) (column df data_col))) in *.
  assert (HS : has_shape n n R).
  { rewrite ER. apply binarize_shape.
    pose proof (cdist_shape (normalize (masked (column df data_col)
                                               (column df data_col)))
                            (normalize (masked (column df data_col)
                                               (column df data_col)))) as S.
    rewrite normalize_length in S. exact S. }
  assert (B : binary R) by (rewrite ER; apply binarize_binary).
  assert (Hn : (Z.of_nat n < 2 ^ 32)%Z).
  { change (2 ^ 32)%Z with 4294967296%Z. lia. }
  destruct (Z.leb_spec (Z.of_nat n) (sum_entries R)) as [Le|Lt].
  - apply (rate_without_wrap Hn HS B Le).
  - apply (rate_with_wrap Hn HS B Lt).
Qed.

(** X14.  Only the [Time] column and the first other column are read: columns
    added to the right of a file that has both leave the outcome of
    [process_rqa_for_datatype] unchanged. *)
Theorem later_columns_are_ignored
    (fs fs' : FileSystem F) (video_id data_type_ : string)
    (df more : DataFrame F) (data_col : string) (rest : list string) :
  fs (csv_path_of video_id data_type_) = Some df ->
  fs' (csv_path_of video_id data_type_) = Some (df ++ more) ->
  In "Time"%string (column_names df) ->
  data_columns df = data_col :: rest ->
  process_rqa_for_datatype fs' video_id data_type_
  = process_rqa_for_datatype fs video_id data_type_.
Proof.
  intros Efs Efs' IT Dc.
  assert (Col : forall name, In name (column_names df) ->
                             column (df ++ more) name = column df name).
  { clear. intros name. induction df as [|[c cells] t IH]; intros I;
      [destruct I|].
    cbn [app column]. destruct (String.eqb_spec c name) as [->|N];
      [reflexivity|].
    apply IH. destruct I as [E|I]; [contradiction|exact I]. }
  assert (Ic : In data_col (column_names df)).
  { assert (I : In data_col (data_columns df)) by (rewrite Dc; left; reflexivity).
    unfold data_columns in I. apply filter_In in I. tauto. }
  unfold process_rqa_for_datatype. rewrite Efs, Efs'.
  fold (data_columns df). fold (data_columns (df ++ more)).
  assert (T : existsb (String.eqb "Time") (column_names df) = true)
    by (apply existsb_time_iff; exact IT).
  assert (T' : existsb (String.eqb "Time") (column_names (df ++ more)) = true).
  { apply existsb_time_iff. unfold column_names. rewrite map_app.
    apply in_or_app. left. exact IT. }
  rewrite T, T'. cbn [negb].
  assert (Dc' : data_columns (df ++ more) = data_col :: rest ++ data_columns more).
  { unfold data_columns, column_names. rewrite map_app, filter_app.
    fold (column_names df). fold (data_columns df). rewrite Dc. reflexivity. }
  rewrite Dc, Dc'.
  change (getitem (data_col :: rest ++ data_columns more) 0) with (Ok data_col).
  change (getitem (data_col :: rest) 0) with (@Ok string data_col).
  cbn [bind]. rewrite !Col by assumption. reflexivity.
Qed.

End Record.

Lemma combine_stride_from {A B : Type} (k s : nat) (a : list A) (b : list B) :
  combine (stride_from k s a) (stride_from k s b) = stride_from k s (combine a b).
Proof.
  revert s b. induction a as [|x a IH]; intros s b.
  - cbn [stride_from combine]. reflexivity.
  - destruct b as [|y b].
    + cbn [combine stride_from].
      destruct s; cbn [stride_from combine];
        [|destruct (stride_from k s a)]; reflexivity.
    + cbn [combine stride_from]. destruct s as [|s]; cbn [combine];
        rewrite IH; reflexivity.
Qed.

Section Displayed.
Context {F : Type} `{Scalar F} `{Root F}.

Lemma combine_masked (col data : list F) :
  length col = length data ->
  combine (masked col data) (masked data data)
  = filter (fun p => negb (fisnan (snd p))) (combine col data).
Proof.
  unfold masked. revert data.
  induction col as [|c col IH]; intros [|d data] L; try discriminate;
    [reflexivity|].
  injection L as L. cbn [combine filter snd].
  destruct (negb (fisnan d)); cbn [map fst combine]; rewrite (IH data L);
    reflexivity.
Qed.

(** X16.  For a file whose columns all have the same number of rows, each
    displayed point is a row of the file: the [k]-th displayed time and value
    are the [Time] cell and the data cell of one row, and the value is not
    NaN. *)
Theorem displayed_points_are_rows_of_the_file
    (fs : FileSystem F) (video_id data_type_ : string) (r : Result F)
    (rows : nat) (df : DataFrame F) :
  fs (csv_path_of video_id data_type_) = Some df ->
  rectangular rows df ->
  process_rqa_for_datatype fs video_id data_type_ = Ok (Some r) ->
  exists data_col rest,
    data_columns df = data_col :: rest /\
    forall t x,
      In (t, x) (combine (vis_time (visualization r))
                         (vis_data (visualization r))) ->
      In (t, x) (combine (column df "Time") (column df data_col)) /\
      fisnan x = false.
Proof.
  intros Efs Rect E.
  destruct (process_ok_inv _ _ _ E)
    as (df' & data_col & R & thr & rate & dv & tv & Rv & ft & lt_ &
        Efs' & IT & G & L & C & D & Gf & Gl & ->).
  rewrite Efs in Efs'. injection Efs' as <-.
  destruct (first_data_column df G) as (Ic & _ & rest & Dc).
  exists data_col, rest. split; [exact Dc|].
  cbn [visualization vis_time vis_data].
  set (data_clean := masked (column df data_col) (column df data_col)) in *.
  set (time_clean := masked (column df "Time") (column df data_col)) in *.
  assert (Lc : length (column df "Time") = length (column df data_col)).
  { rewrite (@length_column _ rows df _ Rect IT),
            (@length_column _ rows df _ Rect Ic). reflexivity. }
  assert (Sub : forall t x, In (t, x) (combine tv dv) ->
                            In (t, x) (combine time_clean data_clean)).
  { destruct (Z_le_gt_dec (Z.of_nat (length data_clean)) 500) as [Le|Gt].
    - rewrite (downsample_small _ time_clean R Le) in D.
      injection D as <- <- <-. auto.
    - destruct (@downsample_large F data_clean time_clean R 500
                  ltac:(lia) ltac:(lia)) as [Hk D'].
      rewrite D' in D. injection D as <- <- <-.
      intros t x I. unfold slice_nz in I.
      apply Z.ltb_lt in Hk. rewrite Hk in I.
      rewrite combine_stride_from in I. apply in_stride_from in I. exact I. }
  intros t x I. apply Sub in I. unfold time_clean, data_clean in I.
  rewrite (combine_masked _ _ Lc) in I. apply filter_In in I.
  destruct I as [I N]. cbn [snd] in N. apply negb_true_iff in N.
  split; assumption.
Qed.

Lemma entry_cdist (xa xb : list F) (d : F) (i j : nat) :
  i < length xa -> j < length xb ->
  entry fzero (cdist xa xb) i j = euclidean (nth i xa d) (nth j xb d).
Proof.
  intros Hi Hj. unfold entry, cdist.
  rewrite nth_map_in_range with (d := d) by exact Hi.
  rewrite nth_map_in_range with (d := d) by exact Hj. reflexivity.
Qed.

Lemma nth_normalize (ts : list F) (d : F) (i : nat) :
  i < length ts ->
  nth i (normalize ts) d = standardised ts (nth i ts d).
Proof.
  intros Hi. unfold normalize.
  rewrite nth_map_in_range with (d := d) by exact Hi. reflexivity.
Qed.

(** The recurrence matrix of [ts], entry by entry. *)
Lemma entry_recurrence (ts : list F) (thr d : F) (i j : nat) :
  entry 0%Z (binarize (cdist (normalize ts) (normalize ts)) thr) i j = 1%Z <->
  i < length ts /\ j < length ts /\
  fleb (euclidean (standardised ts (nth i ts d)) (standardised ts (nth j ts d)))
       thr = true.
Proof.
  set (D := cdist (normalize ts) (normalize ts)).
  assert (HD : has_shape (length ts) (length ts) D).
  { pose proof (cdist_shape (normalize ts) (normalize ts)) as S.
    rewrite normalize_length in S. exact S. }
  pose proof (binarize_shape thr HD) as HB.
  destruct (Nat.lt_ge_cases i (length ts)) as [Hi|Hi].
  - destruct (Nat.lt_ge_cases j (length ts)) as [Hj|Hj].
    + rewrite (entry_binarize thr HD Hi Hj). unfold D.
      rewrite (@entry_cdist _ _ d i j)
        by (rewrite normalize_length; assumption).
      rewrite !nth_normalize by assumption.
      destruct (fleb _ thr); split.
      * auto.
      * reflexivity.
      * discriminate.
      * intros (_ & _ & X). discriminate.
    + rewrite (entry_out_of_cols 0%Z i HB Hj). split; [discriminate|lia].
  - rewrite entry_out_of_rows by (destruct HB as [L _]; lia).
    split; [discriminate|lia].
Qed.

(** X17.  The sparse matrix of a record marks exactly the pairs of displayed
    values that are close: [(p, q)] is listed if and only if [p] and [q] index
    displayed values whose distance, after standardisation by the mean and
    the standard deviation of the whole cleaned series, is at most the
    threshold of the record. *)
Theorem sparse_matrix_marks_close_displayed_values
    (fs : FileSystem F) (video_id data_type_ : string) (r : Result F) :
  process_rqa_for_datatype fs video_id data_type_ = Ok (Some r) ->
  exists df data_col rest,
    fs (csv_path_of video_id data_type_) = Some df /\
    data_columns df = data_col :: rest /\
    let series := filter (fun x => negb (fisnan x)) (column df data_col) in
    let shown := vis_data (visualization r) in
    forall (p q : nat) (d : F),
      In (p, q) (sparse_matrix (visualization r)) <->
      p < length shown /\ q < length shown /\
      fleb (euclidean (standardised series (nth p shown d))
                      (standardised series (nth q shown d)))
           (threshold r) = true.
Proof.
  intros E.
  destruct (process_ok_inv _ _ _ E)
    as (df & data_col & R & thr & rate & dv & tv & Rv & ft & lt_ &
        Efs & IT & G & L & C & D & Gf & Gl & ->).
  destruct (first_data_column df G) as (_ & _ & rest & Dc).
  exists df, data_col, rest. split; [exact Efs|]. split; [exact Dc|].
  cbn [visualization vis_data sparse_matrix threshold]. cbv zeta.
  rewrite masked_self in *.
  set (series := filter (fun x => negb (fisnan x)) (column df data_col)) in *.
  destruct (calculate_ok_inv _ _ _ C) as (ER & _ & _).
  intros p q d. rewrite in_sparse_format.
  destruct (Z_le_gt_dec (Z.of_nat (length series)) 500) as [Le|Gt].
  - rewrite (downsample_small _ _ R Le) in D.
    injection D as <- _ <-. rewrite ER. apply entry_recurrence.
  - destruct (@downsample_large F series
                (masked (column df "Time") (column df data_col)) R 500
                ltac:(lia) ltac:(lia)) as [Hk D'].
    rewrite D' in D. injection D as <- _ <-.
    set (k := (Z.of_nat (length series) / 500)%Z) in *.
    assert (K : 0 < Z.to_nat k) by lia.
    rewrite (entry_slice2 R 0%Z p q Hk), ER.
    rewrite (entry_recurrence series thr d).
    rewrite (length_slice_nz series Hk), !(nth_slice_nz series d _ Hk).
    split.
    + intros (Hp & Hq & X). split; [|split; [|exact X]].
      * destruct (Nat.lt_ge_cases p (cdiv (length series) (Z.to_nat k)))
          as [Y|Y]; [exact Y|].
        pose proof (@cdiv_mul_ge (length series) (Z.to_nat k) p K Y). lia.
      * destruct (Nat.lt_ge_cases q (cdiv (length series) (Z.to_nat k)))
          as [Y|Y]; [exact Y|].
        pose proof (@cdiv_mul_ge (length series) (Z.to_nat k) q K Y). lia.
    + intros (Hp & Hq & X). split; [|split; [|exact X]].
      * apply (@cdiv_mul_lt (length series) (Z.to_nat k) p K Hp).
      * apply (@cdiv_mul_lt (length series) (Z.to_nat k) q K Hq).
Qed.

End Displayed.

(** ** Zero variance in binary64 *)

(** *** Integers and comparisons in binary64 *)

Lemma digits2_pos_bounds (m : positive) :
  (2 ^ (Zpos (digits2_pos m) - 1) <= Zpos m < 2 ^ Zpos (digits2_pos m))%Z.
Proof.
  assert (Pw : forall d : positive,
             (2 ^ Zpos d = 2 * 2 ^ (Zpos d - 1))%Z).
  { intros d. rewrite <- Z.pow_succ_r by lia. f_equal. lia. }
  induction m as [m IH|m IH|]; cbn [digits2_pos].
  - rewrite (Pw (Pos.succ (digits2_pos m))), Pos2Z.inj_succ.
    replace (Z.succ (Zpos (digits2_pos m)) - 1)%Z with (Zpos (digits2_pos m))
      by lia.
    rewrite (Pw (digits2_pos m)) in *. clear Pw. lia.
  - rewrite (Pw (Pos.succ (digits2_pos m))), Pos2Z.inj_succ.
    replace (Z.succ (Zpos (digits2_pos m)) - 1)%Z with (Zpos (digits2_pos m))
      by lia.
    rewrite (Pw (digits2_pos m)) in *. clear Pw. lia.
  - cbn. lia.
Qed.

Lemma iter_xO_value (p d : positive) :
  Zpos (Pos.iter xO p d) = (Zpos p * 2 ^ Zpos d)%Z.
Proof.
  induction d as [|d IH] using Pos.peano_ind.
  - cbn [Pos.iter]. rewrite Pos2Z.inj_xO. lia.
  - rewrite Pos.iter_succ, Pos2Z.inj_xO, IH, Pos2Z.inj_succ, Z.pow_succ_r by lia.
    lia.
Qed.

Lemma iter_xO_digits (p d : positive) :
  digits2_pos (Pos.iter xO p d) = (digits2_pos p + d)%positive.
Proof.
  induction d as [|d IH] using Pos.peano_ind.
  - cbn [Pos.iter digits2_pos]. lia.
  - rewrite Pos.iter_succ. cbn [digits2_pos]. rewrite IH. lia.
Qed.

(** A mantissa of 53 digits with an exponent in range is left as it is. *)
Lemma binary_round_aux_canonical (s : bool) (m : positive) (e : Z) :
  digits2_pos m = 53%positive -> (-1074 <= e <= 971)%Z ->
  binary_round_aux prec emax s (Zpos m) e loc_Exact = S754_finite s m e.
Proof.
  intros Dm He.
  assert (Fx : forall z, Zdigits2 z = 53%Z ->
                         (fexp prec emax (Zdigits2 z + e) - e = 0)%Z).
  { intros z ->. unfold fexp, emin, prec, emax. lia. }
  unfold binary_round_aux, shr_fexp.
  rewrite (Fx (Zpos m)) by (cbn [Zdigits2]; rewrite Dm; reflexivity).
  cbn [shr shr_record_of_loc shr_m loc_of_shr_record round_nearest_even].
  rewrite (Fx (Zpos m)) by (cbn [Zdigits2]; rewrite Dm; reflexivity).
  cbn [shr shr_record_of_loc shr_m].
  assert (L : (e <=? emax - prec)%Z = true)
    by (apply Z.leb_le; unfold emax, prec; lia).
  rewrite L. reflexivity.
Qed.

(** The binary64 value of an integer [0 < k < 2^53] is [k] itself, with a
    mantissa of 53 digits. *)
Lemma binary_normalize_small (k : Z) :
  (0 < k < 2 ^ 53)%Z ->
  exists m e,
    binary_normalize prec emax k 0 false = S754_finite false m e /\
    digits2_pos m = 53%positive /\ (-52 <= e <= 0)%Z /\
    Zpos m = (k * 2 ^ (- e))%Z.
Proof.
  intros [K0 K1]. destruct k as [|p|p]; try lia.
  pose proof (digits2_pos_bounds p) as DB.
  assert (D53 : (Zpos (digits2_pos p) <= 53)%Z).
  { destruct (Z_le_gt_dec (Zpos (digits2_pos p)) 53) as [L|G]; [exact L|].
    exfalso. assert (2 ^ 53 <= 2 ^ (Zpos (digits2_pos p) - 1))%Z
      by (apply Z.pow_le_mono_r; lia). lia. }
  cbn [binary_normalize]. unfold binary_round.
  assert (Fx : fexp prec emax (Zpos (digits2_pos p) + 0)
               = (Zpos (digits2_pos p) - 53)%Z).
  { unfold fexp, emin, prec, emax. lia. }
  rewrite Fx. unfold shl_align.
  destruct (Zpos (digits2_pos p) - 53 - 0)%Z as [|d|d] eqn:Ed; try lia.
  - exists p, 0%Z. rewrite binary_round_aux_canonical by lia.
    split; [reflexivity|]. split; [lia|]. split; [lia|]. cbn. lia.
  - exists (Pos.iter xO p d), (Zpos (digits2_pos p) - 53)%Z.
    assert (Dd : digits2_pos (Pos.iter xO p d) = 53%positive)
      by (rewrite iter_xO_digits; lia).
    rewrite binary_round_aux_canonical by (try exact Dd; lia).
    split; [reflexivity|]. split; [exact Dd|]. split; [lia|].
    rewrite iter_xO_value. f_equal. f_equal. lia.
Qed.

Lemma float_of_int_small (k : Z) :
  (0 < k < 2 ^ 53)%Z ->
  exists m e,
    Prim2SF (float_of_int k) = S754_finite false m e /\
    digits2_pos m = 53%positive /\ (-52 <= e <= 0)%Z /\
    Zpos m = (k * 2 ^ (- e))%Z.
Proof.
  intros K. destruct (binary_normalize_small K) as (m & e & E & Dm & He & V).
  exists m, e. split; [|auto]. unfold float_of_int. rewrite E.
  apply Prim2SF_SF2Prim. cbn [valid_binary]. unfold bounded, canonical_mantissa.
  rewrite Dm. apply andb_true_intro. split.
  - apply Z.eqb_eq. unfold fexp, emin, prec, emax. lia.
  - apply Z.leb_le. unfold emax, prec. lia.
Qed.

(** The floor of a binary64 value [0 <= x < k], for an integer
    [0 < k < 2^53], is an integer of [0 .. k - 1]. *)
Lemma float_floor_below (x : float) (k : Z) :
  (0 < k < 2 ^ 53)%Z ->
  PrimFloat.leb 0 x = true ->
  PrimFloat.leb (float_of_int k) x = false ->
  (0 <= float_floor x < k)%Z.
Proof.
  intros K L0 LK.
  destruct (float_of_int_small K) as (mk & ek & EK & Dk & Hek & Vk).
  rewrite FloatAxioms.leb_spec in L0, LK. rewrite EK in LK.
  pose proof (Prim2SF_valid x) as Vx.
  unfold float_floor.
  change (Prim2SF 0) with (S754_zero false) in L0.
  destruct (Prim2SF x) as [s|s| |s m e]; try lia.
  destruct s; [discriminate L0|].
  cbn [valid_binary] in Vx. unfold bounded, canonical_mantissa in Vx.
  apply andb_prop in Vx. destruct Vx as [Cx _]. apply Z.eqb_eq in Cx.
  unfold fexp, emin, prec, emax in Cx.
  pose proof (digits2_pos_bounds m) as DBm.
  pose proof (digits2_pos_bounds mk) as DBk. rewrite Dk in DBk.
  assert (Dm : (Zpos (digits2_pos m) <= 53)%Z) by lia.
  assert (Um : (Zpos m < 2 ^ 53)%Z).
  { assert (2 ^ Zpos (digits2_pos m) <= 2 ^ 53)%Z
      by (apply Z.pow_le_mono_r; lia). lia. }
  unfold SFleb, SFcompare in LK.
  destruct (Z.compare_spec ek e) as [Ee|Lt|Gt]; try discriminate LK.
  - (* same exponent: the mantissa of [x] is the smaller one *)
    subst e.
    change (Pos.compare_cont Eq mk m) with (mk ?= m)%positive in LK.
    destruct (Pos.compare_spec mk m) as [Em|Lm'|Lm']; try discriminate LK.
    assert (Lm : (Zpos m < Zpos mk)%Z) by lia.
    destruct (Z.leb_spec 0 ek) as [P|N].
    + assert (ek = 0%Z) by lia. subst ek. cbn in Vk. lia.
    + split; [apply Z.div_pos; [lia|apply Z.pow_pos_nonneg; lia]|].
      apply Z.div_lt_upper_bound; [apply Z.pow_pos_nonneg; lia|].
      rewrite Vk in Lm. lia.
  - (* smaller exponent *)
    assert (N : (e < 0)%Z) by lia.
    destruct (Z.leb_spec 0 e) as [P|_]; [lia|].
    split; [apply Z.div_pos; [lia|apply Z.pow_pos_nonneg; lia]|].
    apply Z.div_lt_upper_bound; [apply Z.pow_pos_nonneg; lia|].
    assert (E2 : (2 ^ (- e) = 2 ^ (- ek) * 2 ^ (ek - e))%Z).
    { rewrite <- Z.pow_add_r by lia. f_equal. lia. }
    assert (P2 : (2 <= 2 ^ (ek - e))%Z).
    { change 2%Z with (2 ^ 1)%Z at 1. apply Z.pow_le_mono_r; lia. }
    assert (Lk : (2 ^ 52 <= Zpos mk)%Z) by (cbn in DBk; lia).
    rewrite E2. rewrite Vk in Lk.
    assert (Pk : (0 < 2 ^ (- ek))%Z) by (apply Z.pow_pos_nonneg; lia).
    nia.
Qed.

(** *** A series whose standard deviation is computed as zero *)

Lemma is_nan_spec (x : float) :
  PrimFloat.is_nan x = true <-> Prim2SF x = S754_nan.
Proof.
  unfold PrimFloat.is_nan. rewrite FloatAxioms.eqb_spec.
  unfold SFeqb, SFcompare.
  destruct (Prim2SF x) as [s|s| |s m e]; cbn.
  - split; discriminate.
  - destruct s; split; discriminate.
  - split; reflexivity.
  - destruct s; rewrite Z.compare_refl, Pos.compare_cont_refl;
      split; discriminate.
Qed.

Lemma leb_nan (d t : float) :
  Prim2SF t = S754_nan -> PrimFloat.leb d t = false.
Proof.
  intros N. rewrite FloatAxioms.leb_spec, N.
  unfold SFleb, SFcompare. destruct (Prim2SF d); reflexivity.
Qed.

Lemma euclidean_non_finite (u v : float) :
  is_non_finite u = true -> is_non_finite v = true ->
  is_nan_or_pos_inf (euclidean u v) = true.
Proof.
  unfold is_non_finite, is_nan_or_pos_inf, euclidean.
  cbn [fsqrt fmul fsub Float64 Float64Root].
  rewrite FloatAxioms.sqrt_spec, FloatAxioms.mul_spec, FloatAxioms.sub_spec.
  destruct (Prim2SF u) as [s|[|]| |s m e]; try discriminate;
    destruct (Prim2SF v) as [s'|[|]| |s' m' e']; try discriminate;
    reflexivity.
Qed.

Lemma lerp_nan (a b g : float) :
  is_nan_or_pos_inf a = true -> is_nan_or_pos_inf b = true ->
  Prim2SF (lerp a b g) = S754_nan.
Proof.
  unfold is_nan_or_pos_inf, lerp. intros A B.
  cbn [fleb fsub fadd fmul of_int Float64].
  assert (Df : Prim2SF (b - a)%float = S754_nan).
  { rewrite FloatAxioms.sub_spec.
    destruct (Prim2SF a) as [s|[|]| |s m e]; try discriminate;
      destruct (Prim2SF b) as [s'|[|]| |s' m' e']; try discriminate;
      reflexivity. }
  destruct (PrimFloat.leb _ g).
  - rewrite FloatAxioms.sub_spec, FloatAxioms.mul_spec, Df.
    cbn. destruct (Prim2SF b); reflexivity.
  - rewrite FloatAxioms.add_spec, FloatAxioms.mul_spec, Df.
    cbn. destruct (Prim2SF a); reflexivity.
Qed.

Lemma getitem_in_range {A : Type} (l : list A) (i : Z) :
  (- Z.of_nat (length l) <= i < Z.of_nat (length l))%Z ->
  exists x, getitem l i = Ok x /\ In x l.
Proof.
  intros R. unfold getitem.
  set (j := if (i <? 0)%Z then (i + Z.of_nat (length l))%Z else i).
  assert (J : (0 <= j < Z.of_nat (length l))%Z).
  { unfold j. destruct (Z.ltb_spec i 0); lia. }
  assert (E1 : (j <? 0)%Z = false) by (apply Z.ltb_ge; lia).
  assert (E2 : (Z.of_nat (length l) <=? j)%Z = false) by (apply Z.leb_gt; lia).
  rewrite E1, E2. cbn [orb].
  destruct (nth_error l (Z.to_nat j)) as [x|] eqn:N.
  - exists x. split; [reflexivity|]. apply (nth_error_In _ _ N).
  - apply nth_error_None in N. lia.
Qed.

Section SortFacts.
Context {F : Type} `{Scalar F}.

Lemma in_insert_sorted (x y : F) (l : list F) :
  In y (insert_sorted x l) -> y = x \/ In y l.
Proof.
  induction l as [|z t IH]; cbn [insert_sorted].
  - intros [<-|[]]. left. reflexivity.
  - destruct (fleb x z).
    + intros [<-|I]; [left; reflexivity|right; exact I].
    + intros [<-|I]; [right; left; reflexivity|].
      destruct (IH I) as [->|I']; [left; reflexivity|right; right; exact I'].
Qed.

Lemma length_insert_sorted (x : F) (l : list F) :
  length (insert_sorted x l) = S (length l).
Proof.
  induction l as [|z t IH]; [reflexivity|]. cbn [insert_sorted].
  destruct (fleb x z); cbn [length]; [reflexivity|rewrite IH; reflexivity].
Qed.

Lemma in_np_sort (a : list F) (x : F) : In x (np_sort a) -> In x a.
Proof.
  unfold np_sort. intros I. apply in_app_or in I. destruct I as [I|I].
  - assert (G : forall l, In x (fold_right insert_sorted [] l) -> In x l).
    { induction l as [|y t IH]; [auto|]. cbn [fold_right]. intros J.
      apply in_insert_sorted in J. destruct J as [->|J];
        [left; reflexivity|right; apply IH; exact J]. }
    apply G in I. apply filter_In in I. tauto.
  - apply filter_In in I. tauto.
Qed.

Lemma length_np_sort (a : list F) : length (np_sort a) = length a.
Proof.
  unfold np_sort. rewrite length_app.
  assert (G : forall l, length (fold_right insert_sorted [] l) = length l).
  { induction l as [|y t IH]; [reflexivity|]. cbn [fold_right].
    rewrite length_insert_sorted, IH. reflexivity. }
  rewrite G. induction a as [|y t IH]; [reflexivity|].
  cbn [filter]. destruct (fisnan y); cbn [negb length]; lia.
Qed.

End SortFacts.

Lemma get_indexes_in_range (virtual_index : float) (count : Z) :
  (2 <= count <= 2 ^ 53)%Z ->
  (- count <= fst (get_indexes virtual_index count) < count)%Z /\
  (- count <= snd (get_indexes virtual_index count) < count)%Z.
Proof.
  intros C. unfold get_indexes. cbn [fleb fisnan fzero of_int ffloor Float64].
  destruct (PrimFloat.leb 0 virtual_index) eqn:L0;
    destruct (PrimFloat.is_nan virtual_index) eqn:N;
    destruct (PrimFloat.leb (float_of_int (count - 1)) virtual_index) eqn:LK;
    cbn [negb andb fst snd]; try lia.
  assert (K : (0 < count - 1 < 2 ^ 53)%Z).
  { change (2 ^ 53)%Z with 9007199254740992%Z in *. lia. }
  pose proof (float_floor_below K L0 LK). lia.
Qed.

(** In binary64 the percentile of a sample of 2 to [2^53] values, at a rank
    in range, never raises: the two positions it reads exist.  For a sample
    of NaN and [+infinity] values it is NaN. *)
Lemma percentile_in_binary64 (a : list float) (q : float) :
  (2 <= Z.of_nat (length a) <= 2 ^ 53)%Z ->
  fleb fzero (fdiv q (of_int 100)) && fleb (fdiv q (of_int 100)) (of_int 1)
  = true ->
  exists t,
    np_percentile a q = Ok t /\
    (Forall (fun x => is_nan_or_pos_inf x = true) a -> Prim2SF t = S754_nan).
Proof.
  intros C Q. unfold np_percentile. rewrite Q. cbn [negb].
  set (vi := fmul (of_int (Z.of_nat (length a) - 1)) (fdiv q (of_int 100))).
  destruct (get_indexes_in_range vi C) as [P N].
  destruct (get_indexes vi (Z.of_nat (length a))) as [p nx]. cbn [fst snd] in P, N.
  rewrite <- (length_np_sort a) in P, N, C.
  assert (L : (- Z.of_nat (length (np_sort a)) <= -1
               < Z.of_nat (length (np_sort a)))%Z) by lia.
  destruct (getitem_in_range (np_sort a) L) as (l & -> & Il).
  destruct (getitem_in_range (np_sort a) P) as (x & -> & Ix).
  destruct (getitem_in_range (np_sort a) N) as (y & -> & Iy).
  cbn [bind]. cbn [fisnan Float64].
  destruct (PrimFloat.is_nan l) eqn:Nl.
  - exists l. split; [reflexivity|]. intros _. apply is_nan_spec. exact Nl.
  - eexists. split; [reflexivity|]. intros NF. rewrite Forall_forall in NF.
    apply lerp_nan; apply NF, in_np_sort; assumption.
Qed.

Lemma binarize_all_zero {F : Type} `{Scalar F} (D : matrix F) (t : F) :
  (forall row d, In row D -> In d row -> fleb d t = false) ->
  Forall (Forall (fun x => x = 0%Z)) (binarize D t).
Proof.
  intros N. unfold binarize.
  apply Forall_forall. intros row Hrow.
  apply in_map_iff in Hrow. destruct Hrow as (r0 & <- & Hr0).
  apply Forall_forall. intros x Hx.
  apply in_map_iff in Hx. destruct Hx as (d & <- & Hd).
  rewrite (N r0 d Hr0 Hd). reflexivity.
Qed.

Lemma sparse_format_of_zeros (M : matrix Z) :
  Forall (Forall (fun x => x = 0%Z)) M -> matrix_to_sparse_format M = [].
Proof.
  intros Z0.
  assert (B : binary M).
  { unfold binary. apply Forall_forall. intros row Hrow.
    rewrite Forall_forall in Z0. specialize (Z0 row Hrow).
    apply Forall_forall. intros x Hx. rewrite Forall_forall in Z0.
    left. apply Z0. exact Hx. }
  pose proof (length_sparse_format B) as L.
  rewrite (sum_entries_all_zero Z0) in L.
  destruct (matrix_to_sparse_format M); [reflexivity|discriminate L].
Qed.

Lemma zeros_slice2 (step : Z) (M : matrix Z) :
  Forall (Forall (fun x => x = 0%Z)) M ->
  Forall (Forall (fun x => x = 0%Z)) (map (slice_nz step) (slice_nz step M)).
Proof.
  intros Z0. rewrite Forall_forall in Z0.
  apply Forall_forall. intros row Hrow.
  apply in_map_iff in Hrow. destruct Hrow as (r0 & <- & Hr0).
  apply in_slice_nz in Hr0. specialize (Z0 _ Hr0). rewrite Forall_forall in Z0.
  apply Forall_forall. intros x Hx. apply in_slice_nz in Hx. apply Z0. exact Hx.
Qed.

(** In binary64 the recurrence analysis of a series of 3 to [2^26] values,
    with the threshold derived for the default target, never raises.  When
    the standard deviation of the series is computed as zero, the threshold
    is NaN, no point is recurrent and the difference of line 48 wraps
    around. *)
Lemma calculate_in_binary64 (series : list float) :
  3 <= length series -> (Z.of_nat (length series) < 2 ^ 26)%Z ->
  exists R t rate,
    calculate_recurrence_matrix series None (of_ratio 7 100) = Ok (R, t, rate) /\
    (is_float_zero (np_std series) = true ->
     Prim2SF t = S754_nan /\
     Forall (Forall (fun x => x = 0%Z)) R /\
     rate = fdiv (of_int (2 ^ 64 - Z.of_nat (length series)))
                 (of_int (Z.of_nat (length series) * Z.of_nat (length series)
                          - Z.of_nat (length series)))).
Proof.
  intros Hn Hb.
  set (n := length series) in *.
  set (z := normalize series).
  assert (Lz : length z = n) by apply normalize_length.
  assert (HS : has_shape n n (cdist z z)).
  { pose proof (cdist_shape z z) as S. rewrite Lz in S. exact S. }
  assert (Lu : 2 * length (upper_triangle (cdist z z)) = n * (n - 1)).
  { destruct HS as [L Fa]. unfold upper_triangle.
    rewrite (@length_triu_from float n 0 (cdist z z) Fa) by lia.
    rewrite L. reflexivity. }
  assert (C : (2 <= Z.of_nat (length (upper_triangle (cdist z z))) <= 2 ^ 53)%Z).
  { change (2 ^ 53)%Z with (2 * (2 ^ 26 * 2 ^ 26))%Z. nia. }
  destruct (@percentile_in_binary64 (upper_triangle (cdist z z))
              (fmul (of_ratio 7 100) (of_int 100)) C)
    as (t & Et & Nt); [vm_compute; reflexivity|].
  exists (binarize (cdist z z) t), t,
    (recurrence_rate (binarize (cdist z z) t) (Z.of_nat n)).
  split.
  { unfold calculate_recurrence_matrix, recurrence_from_distances,
      select_threshold. fold z. rewrite Et. reflexivity. }
  intros Z0.
  assert (NFz : forall x, In x z -> is_non_finite x = true).
  { intros v Hv. unfold z, normalize in Hv.
    apply in_map_iff in Hv. destruct Hv as (x & <- & _).
    apply (division_by_zero_is_non_finite _ _ Z0). }
  assert (NFu : Forall (fun x => is_nan_or_pos_inf x = true)
                       (upper_triangle (cdist z z))).
  { apply Forall_forall. intros x Hx.
    apply (in_upper_triangle x HS) in Hx.
    destruct Hx as (i & j & Lij & Lj & ->).
    rewrite (@entry_cdist float _ _ z z 0%float i j) by lia.
    apply euclidean_non_finite; apply NFz, nth_In; lia. }
  specialize (Nt NFu).
  assert (Zr : Forall (Forall (fun x => x = 0%Z)) (binarize (cdist z z) t)).
  { apply binarize_all_zero. intros row d _ _. apply (@leb_nan d t Nt). }
  split; [exact Nt|]. split; [exact Zr|].
  rewrite (rate_with_wrap (F := float) (n := n) (R := binarize (cdist z z) t)).
  - rewrite (sum_entries_all_zero Zr), Z.add_0_r. reflexivity.
  - change (2 ^ 32)%Z with (2 ^ 26 * 64)%Z. lia.
  - apply binarize_shape. exact HS.
  - apply binarize_binary.
  - rewrite (sum_entries_all_zero Zr). lia.
Qed.

(** C1, as amended.  [process_rqa_for_datatype] has no test on the
    variance.  It returns [None] exactly when the file is missing, the
    [Time] column is missing, or fewer than 10 cleaned values remain.  A
    series whose standard deviation is computed as zero is normalised like
    any other one, and every normalised value is then NaN or an infinity.
    For every file with a [Time] column, all columns of the same length,
    whose first data column has at least 10 and fewer than [2^26] cleaned
    values, a record is returned whatever the values are: no exception is
    raised and the pair is not skipped.  When the standard deviation of the
    cleaned values is computed as zero, the threshold of that record is
    NaN, its sparse matrix is empty and its recurrence rate is
    [(2^64 - n) / (n * n - n)]. *)
Theorem zero_variance_is_not_detected
    (fs : FileSystem float) (video_id data_type_ : string) :
  (process_rqa_for_datatype fs video_id data_type_ = Ok None <->
   match fs (csv_path_of video_id data_type_) with
   | None => True
   | Some df =>
       ~ In "Time"%string (column_names df) \/
       exists data_col,
         getitem (data_columns df) 0 = Ok data_col /\
         length (masked (column df data_col) (column df data_col)) < 10
   end) /\
  (forall time_series : list float,
     is_float_zero (np_std time_series) = true ->
     Forall (fun v => is_non_finite v = true) (normalize time_series)) /\
  (forall (rows : nat) (df : DataFrame float) (data_col : string)
          (rest : list string),
     fs (csv_path_of video_id data_type_) = Some df ->
     rectangular rows df ->
     In "Time"%string (column_names df) ->
     data_columns df = data_col :: rest ->
     let series := filter (fun x => negb (fisnan x)) (column df data_col) in
     let n := Z.of_nat (length series) in
     10 <= length series -> (n < 2 ^ 26)%Z ->
     exists r,
       process_rqa_for_datatype fs video_id data_type_ = Ok (Some r) /\
       n_points (full_data r) = length series /\
       (is_float_zero (np_std series) = true ->
        PrimFloat.is_nan (threshold r) = true /\
        sparse_matrix (visualization r) = [] /\
        recurrence_rate_of r
        = fdiv (of_int (2 ^ 64 - n)) (of_int (n * n - n)))).
Proof.
  split; [apply skipped_iff_input_missing|]. split.
  { intros ts Z0. unfold normalize. apply Forall_forall. intros v Hv.
    apply in_map_iff in Hv. destruct Hv as (x & <- & _).
    apply (division_by_zero_is_non_finite _ _ Z0). }
  intros rows df data_col rest Efs Rect IT Dc series n Hn Hb.
  destruct (@calculate_in_binary64 series ltac:(lia) Hb)
    as (R & t & rate & EC & Z0).
  assert (Ic : In data_col (column_names df)).
  { assert (I : In data_col (data_columns df)) by (rewrite Dc; left; reflexivity).
    unfold data_columns in I. apply filter_In in I. tauto. }
  assert (Lt : length (masked (column df "Time") (column df data_col))
               = length series).
  { unfold series. rewrite <- masked_self. apply length_masked.
    rewrite (@length_column float rows df _ Rect IT),
            (@length_column float rows df _ Rect Ic). reflexivity. }
  set (time_clean := masked (column df "Time") (column df data_col)) in *.
  assert (L0 : (- Z.of_nat (length time_clean) <= 0
                < Z.of_nat (length time_clean))%Z) by lia.
  assert (L1 : (- Z.of_nat (length time_clean) <= -1
                < Z.of_nat (length time_clean))%Z) by lia.
  destruct (getitem_in_range time_clean L0) as (ft & Eft & _).
  destruct (getitem_in_range time_clean L1) as (lt_ & Elt & _).
  assert (DS : exists dv tv Rv,
             downsample_for_visualization series time_clean R 500
             = Ok (dv, tv, Rv) /\
             (Forall (Forall (fun x => x = 0%Z)) R ->
              Forall (Forall (fun x => x = 0%Z)) Rv)).
  { destruct (Z_le_gt_dec (Z.of_nat (length series)) 500) as [Le|Gt].
    - exists series, time_clean, R. split; [|auto].
      apply downsample_small. exact Le.
    - destruct (@downsample_large float series time_clean R 500
                  ltac:(lia) ltac:(lia)) as [_ D'].
      eexists _, _, _. split; [exact D'|]. apply zeros_slice2. }
  destruct DS as (dv & tv & Rv & ED & Zv).
  eexists. split.
  - unfold process_rqa_for_datatype. rewrite Efs.
    rewrite (proj2 (existsb_time_iff _) IT). cbn [negb].
    fold (data_columns df). rewrite Dc.
    change (getitem (data_col :: rest) 0) with (Ok data_col). cbn [bind].
    rewrite masked_self. fold series. fold time_clean.
    assert (Ln : (length series <? 10) = false) by (apply Nat.ltb_ge; exact Hn).
    rewrite Ln, EC. cbn [bind]. rewrite ED. cbn [bind].
    rewrite Eft, Elt. cbn [bind]. reflexivity.
  - cbn [full_data n_points threshold visualization sparse_matrix
         recurrence_rate_of].
    split; [reflexivity|]. intros S0. destruct (Z0 S0) as (Nt & Zr & ->).
    split; [apply is_nan_spec; exact Nt|].
    split; [apply sparse_format_of_zeros, Zv; exact Zr|reflexivity].
Qed.

(** ** Counterexamples *)

(** C1 fails: ten values 5.0 (zero variance) are not reported; a record is
    returned, with a NaN threshold and no recurrence point. *)
Lemma constant_series_yields_a_record :
  exists r,
    process_rqa_for_datatype sample_fs "v1" "flat" = Ok (Some r) /\
    vis_data (visualization r) = ten_fives /\
    is_float_zero (np_std ten_fives) = true /\
    PrimFloat.is_nan (threshold r) = true /\
    sparse_matrix (visualization r) = [].
Proof.
  eexists. split; [vm_compute; reflexivity|].
  cbn [visualization vis_data threshold sparse_matrix].
  repeat split; vm_compute; reflexivity.
Qed.

(** C2 fails: with the rows not in time order, a cleaned time value lies
    below the first component of [time_range]. *)
Lemma shuffled_times_range_is_not_min_max :
  exists r x,
    process_rqa_for_datatype sample_fs "v1" "shuffled" = Ok (Some r) /\
    In x (masked shuffled_times sample_values) /\
    PrimFloat.ltb x (fst (time_range r)) = true.
Proof.
  eexists. exists 0%float. split; [vm_compute; reflexivity|].
  split; [vm_compute; tauto|vm_compute; reflexivity].
Qed.

(** C4 fails: with the threshold [-1] the recurrence matrix has a 0 on its
    diagonal. *)
Lemma negative_threshold_clears_the_diagonal :
  exists R t rate,
    calculate_recurrence_matrix [1; 2; 3]%float (Some (-1)%float) (of_ratio 7 100)
    = Ok (R, t, rate) /\
    has_shape 3 3 R /\ symmetric 0%Z 3 R /\ entry 0%Z R 0 0 <> 1%Z.
Proof.
  eexists _, _, _. split; [vm_compute; reflexivity|].
  split; [split; [reflexivity|repeat constructor]|].
  split; [|vm_compute; discriminate].
  intros i j Hi Hj.
  destruct i as [|[|[|i]]]; destruct j as [|[|[|j]]]; try lia; reflexivity.
Qed.

(** C6 fails: for ten values 5.0 the recurrence matrix has no 1 at all,
    hence [k = 0] off-diagonal ones, but the rate is not [0 / 90]: it is
    [(2^64 - 10) / 90]. *)
Lemma rate_of_all_zero_matrix_is_not_the_fraction :
  exists R t rate,
    calculate_recurrence_matrix ten_fives None (of_ratio 7 100) = Ok (R, t, rate) /\
    has_shape 10 10 R /\ binary R /\
    off_diagonal_ones 10 R = 0%Z /\
    rate <> fdiv (of_int 0) (of_int (10 * 10 - 10)) /\
    rate = fdiv (of_int (2 ^ 64 - 10)) (of_int (10 * 10 - 10)).
Proof.
  eexists _, _, _. split; [vm_compute; reflexivity|].
  split; [split; [reflexivity|repeat constructor]|].
  split; [repeat constructor|].
  split; [vm_compute; reflexivity|].
  split; [|vm_compute; reflexivity].
  intros E. apply (f_equal (fun x => PrimFloat.ltb 1 x)) in E.
  vm_compute in E. discriminate.
Qed.


(** ** Instances on the sample inputs *)

Lemma time_range_witness :
  exists r,
    process_rqa_for_datatype sample_fs "v1" "speed" = Ok (Some r) /\
    time_range r = (0, 11)%float /\
    full_time_range (full_data r) = time_range r.
Proof.
  eexists. split; [vm_compute; reflexivity|].
  match goal with
  | |- time_range ?r = _ /\ _ =>
      destruct (@time_range_is_first_and_last_time sample_fs "v1" "speed" r)
        as (df & col & _ & _ & _ & _ & E & _); [vm_compute; reflexivity|]
  end.
  split; [reflexivity|exact E].
Defined.

Lemma source_without_value_column_witness :
  sample_fs (csv_path_of "v1" "clock") = Some [("Time"%string, sample_times)] /\
  process_rqa_for_datatype sample_fs "v1" "clock" = Raise IndexError /\
  main {| include_RQA := Some ["clock"; "speed"]%string;
          videoIDs := ["v1"]%string |} "assets/rqa" sample_fs
  = ([], Some IndexError).
Proof.
  split; [reflexivity|].
  apply (@source_without_value_column_aborts float _ _ sample_fs
           "v1" "clock" "assets/rqa" sample_times ["speed"%string] []).
  reflexivity.
Defined.

Lemma binarize_witness :
  symmetric 0%Z 3 (binarize sample_distances (1 # 2)%Q) /\
  (fleb fzero (1 # 2)%Q = true ->
   forall i, i < 3 -> entry 0%Z (binarize sample_distances (1 # 2)%Q) i i = 1%Z) /\
  (fleb fzero (1 # 2)%Q = false ->
   forall i, i < 3 -> entry 0%Z (binarize sample_distances (1 # 2)%Q) i i = 0%Z).
Proof.
  apply (@binarize_symmetric_unit_diagonal Q _ 3 sample_distances (1 # 2)%Q).
  - shape.
  - intros i j Hi Hj. small_indices; reflexivity.
  - intros i Hi. small_indices; reflexivity.
Defined.

Lemma recurrence_rate_witness :
  recurrence_rate sample_recurrence 3 = fdiv (of_int 2) (of_int (3 * 3 - 3)) :> Q.
Proof.
  destruct (@recurrence_rate_is_off_diagonal_fraction Q _ 3 sample_recurrence 2)
    as (E & _).
  - reflexivity.
  - shape.
  - binary_entries.
  - reflexivity.
  - apply E. intros i Hi. small_indices; reflexivity.
Defined.

Lemma sparse_format_witness :
  (forall r c, In (r, c) (matrix_to_sparse_format sample_grid)
               <-> entry 0%Z sample_grid r c = 1%Z) /\
  StronglySorted row_major_lt (matrix_to_sparse_format sample_grid) /\
  reconstruct 4 4 (matrix_to_sparse_format sample_grid) = sample_grid.
Proof.
  apply (@sparse_format_exact_and_round_trip 4 4 sample_grid).
  - shape.
  - binary_entries.
Defined.

Lemma downsample_witness :
  exists values' times' M',
    downsample_for_visualization [10; 20; 30; 40]%Z [0; 1; 2; 3]%Z sample_grid 2
    = Ok (values', times', M') /\
    every_kth 2 [10; 20; 30; 40]%Z values' /\
    (forall p q, entry 0%Z M' p q = entry 0%Z sample_grid (p * 2) (q * 2)).
Proof.
  destruct (@downsample_identity_or_stride Z [10; 20; 30; 40]%Z [0; 1; 2; 3]%Z
              sample_grid 2) as (_ & St & _); [lia|].
  destruct St as (v & t & M & E & _ & Ev & _ & _ & _ & Em); [simpl; lia|].
  exists v, t, M. split; [exact E|]. split; [exact Ev|exact Em].
Defined.

Lemma downsample_symmetry_witness :
  downsample_for_visualization [10; 20; 30; 40]%Z [0; 1; 2; 3]%Z sample_grid 2
  = Ok ([10; 30]%Z, [0; 2]%Z, [[1; 1]; [1; 1]]%Z) /\
  (forall r c, In (r, c) (matrix_to_sparse_format [[1; 1]; [1; 1]]%Z) ->
               In (c, r) (matrix_to_sparse_format [[1; 1]; [1; 1]]%Z)) /\
  ((forall i, i < 4 -> entry 0%Z sample_grid i i = 1%Z) ->
   forall p, p < 2 -> In (p, p) (matrix_to_sparse_format [[1; 1]; [1; 1]]%Z)).
Proof.
  split; [reflexivity|].
  apply (@downsample_keeps_symmetry_and_diagonal Z [10; 20; 30; 40]%Z
           [0; 1; 2; 3]%Z 4 sample_grid 2 [10; 30]%Z [0; 2]%Z).
  - shape.
  - intros i j Hi Hj. small_indices; reflexivity.
  - reflexivity.
Defined.



(** ** Instances of the further properties *)

Lemma written_files_witness :
  exists file,
    In file (fst (main {| include_RQA := Some ["speed"; "absent"; "speed"]%string;
                          videoIDs := ["v1"]%string |}
                       "assets/rqa" sample_fs)) /\
    In (out_video_id file) ["v1"%string] /\
    output_path file
    = path_join "assets/rqa" (out_video_id file ++ "_rqa_data.json")%string /\
    output_path file = "assets/rqa/v1_rqa_data.json"%string /\
    rqa_data file <> [] /\
    NoDup (map fst (rqa_data file)).
Proof.
  eexists. split; [vm_compute; left; reflexivity|].
  match goal with
  | |- In (out_video_id ?f) _ /\ _ =>
      destruct (@written_files_are_well_formed float _ _ sample_fs "assets/rqa"
                  ["speed"; "absent"; "speed"]%string ["v1"%string] f)
        as (A & B & C & D & _); [vm_compute; left; reflexivity|]
  end.
  split; [exact A|]. split; [exact B|]. split; [reflexivity|].
  split; [exact C|exact D].
Defined.

Lemma higher_target_witness :
  exists R1 t1 rate1 R2 t2 rate2,
    recurrence_from_distances sample_distances 3 None (7 # 100)%Q
    = Ok (R1, t1, rate1) /\
    recurrence_from_distances sample_distances 3 None (1 # 2)%Q
    = Ok (R2, t2, rate2) /\
    (t1 <= t2)%Q /\
    (forall i j, i < 3 -> j < 3 ->
                 entry 0%Z R1 i j = 1%Z -> entry 0%Z R2 i j = 1%Z) /\
    (sum_entries R1 <= sum_entries R2)%Z /\
    (rate1 <= rate2)%Q.
Proof.
  destruct (@higher_target_keeps_recurrence_points 3 sample_distances
              (7 # 100)%Q (1 # 2)%Q)
    as (R1 & t1 & rate1 & R2 & t2 & rate2 & E1 & E2 & T & P & S & Rt).
  - lia.
  - shape.
  - unfold Qle; simpl; lia.
  - unfold Qle; simpl; lia.
  - unfold Qle; simpl; lia.
  - exists R1, t1, rate1, R2, t2, rate2.
    split; [exact E1|]. split; [exact E2|]. split; [exact T|].
    split; [exact P|]. split; [exact S|].
    apply Rt.
    + reflexivity.
    + intros i j Hi Hj. small_indices; unfold Qle; simpl; lia.
    + intros i Hi. small_indices; reflexivity.
Defined.

Lemma sparse_count_witness :
  (forall r c, In (r, c) (matrix_to_sparse_format sample_grid) -> r < 4 /\ c < 4) /\
  NoDup (matrix_to_sparse_format sample_grid) /\
  (binary sample_grid ->
   Z.of_nat (length (matrix_to_sparse_format sample_grid))
   = sum_entries sample_grid).
Proof.
  apply (@sparse_format_counts_the_ones 4 4 sample_grid). shape.
Defined.

Lemma downsample_length_witness :
  exists values' times' M',
    downsample_for_visualization [1; 2; 3; 4; 5; 6; 7]%Z [1; 2; 3; 4; 5; 6; 7]%Z
                                 sample_grid 3
    = Ok (values', times', M') /\
    (3 <= Z.of_nat (length values') <= 2 * 3 - 1)%Z /\
    ((Z.of_nat (length [1; 2; 3; 4; 5; 6; 7]%Z) mod 3 = 0)%Z ->
     Z.of_nat (length values') = 3%Z).
Proof.
  apply (@downsample_length_bounds Z [1; 2; 3; 4; 5; 6; 7]%Z
           [1; 2; 3; 4; 5; 6; 7]%Z sample_grid 3).
  - lia.
  - simpl. lia.
Defined.

Lemma downsample_alignment_witness :
  length [0; 2]%Z = length [10; 30]%Z /\
  has_shape (length [10; 30]%Z) (length [10; 30]%Z) [[1; 1]; [1; 1]]%Z /\
  length [10; 30]%Z <= 4.
Proof.
  apply (@downsample_keeps_arrays_aligned Z [10; 20; 30; 40]%Z [0; 1; 2; 3]%Z
           4 sample_grid 2 [10; 30]%Z [0; 2]%Z [[1; 1]; [1; 1]]%Z).
  - reflexivity.
  - reflexivity.
  - shape.
  - reflexivity.
Defined.

Lemma record_witness :
  exists r,
    process_rqa_for_datatype sample_fs "v1" "speed" = Ok (Some r) /\
    data_type r = "speed"%string /\
    n_points (full_data r) = 12 /\
    matrix_size (visualization r) = length (vis_time (visualization r)).
Proof.
  eexists. split; [vm_compute; reflexivity|].
  match goal with
  | |- data_type ?r = _ /\ _ =>
      destruct (@record_describes_the_cleaned_series float _ _ sample_fs
                  "v1" "speed" r)
        as (df & col & rest & _ & _ & A & _ & _ & _ & _ & _ & B & _);
        [vm_compute; reflexivity|]
  end.
  split; [exact A|]. split; [reflexivity|exact B].
Defined.

Lemma visualization_witness :
  exists r,
    process_rqa_for_datatype sample_fs "v1" "speed" = Ok (Some r) /\
    length (vis_time (visualization r)) = matrix_size (visualization r) /\
    length (vis_data (visualization r)) = matrix_size (visualization r) /\
    (forall row col, In (row, col) (sparse_matrix (visualization r)) ->
                     row < matrix_size (visualization r) /\
                     col < matrix_size (visualization r)) /\
    NoDup (sparse_matrix (visualization r)).
Proof.
  eexists. split; [vm_compute; reflexivity|].
  match goal with
  | |- length (vis_time (visualization ?r)) = _ /\ _ =>
      destruct (@visualization_is_consistent float _ _ sample_fs "v1" "speed" r
                  12 [("Time"%string, sample_times);
                      ("speed"%string, sample_values)])
        as (A & B & _ & _ & C & D & _);
        [reflexivity|repeat constructor|vm_compute; reflexivity|]
  end.
  split; [exact A|]. split; [exact B|]. split; [exact C|exact D].
Defined.

Lemma rate_witness :
  exists r,
    process_rqa_for_datatype sample_fs "v1" "speed" = Ok (Some r) /\
    recurrence_rate_of r
    = fdiv (of_int (Z.of_nat (length (sparse_matrix (visualization r)))
                    - Z.of_nat (n_points (full_data r))))
           (of_int (Z.of_nat (n_points (full_data r))
                    * Z.of_nat (n_points (full_data r))
                    - Z.of_nat (n_points (full_data r)))).
Proof.
  eexists. split; [vm_compute; reflexivity|].
  match goal with
  | |- recurrence_rate_of ?r = _ =>
      pose proof (@rate_is_recoverable_from_the_sparse_matrix float _ _
                    sample_fs "v1" "speed" r) as W
  end.
  cbv zeta in W. rewrite W.
  - reflexivity.
  - vm_compute. reflexivity.
  - simpl. lia.
Defined.

Lemma later_columns_witness :
  process_rqa_for_datatype sample_wide_fs "v1" "speed"
  = process_rqa_for_datatype sample_fs "v1" "speed".
Proof.
  apply (@later_columns_are_ignored float _ _ sample_fs sample_wide_fs
           "v1" "speed"
           [("Time"%string, sample_times); ("speed"%string, sample_values)]
           [("heading"%string, shuffled_times)] "speed" []).
  - reflexivity.
  - reflexivity.
  - simpl. left. reflexivity.
  - reflexivity.
Defined.

Lemma displayed_points_witness :
  exists r data_col rest,
    process_rqa_for_datatype sample_fs "v1" "speed" = Ok (Some r) /\
    data_columns [("Time"%string, sample_times); ("speed"%string, sample_values)]
    = data_col :: rest /\
    forall t x,
      In (t, x) (combine (vis_time (visualization r))
                         (vis_data (visualization r))) ->
      In (t, x) (combine (column [("Time"%string, sample_times);
                                  ("speed"%string, sample_values)] "Time")
                         (column [("Time"%string, sample_times);
                                  ("speed"%string, sample_values)] data_col)) /\
      fisnan x = false.
Proof.
  eexists.
  assert (P : process_rqa_for_datatype sample_fs "v1" "speed" = Ok (Some _))
    by (vm_compute; reflexivity).
  destruct (@displayed_points_are_rows_of_the_file float _ _ sample_fs
              "v1" "speed" _ 12
              [("Time"%string, sample_times); ("speed"%string, sample_values)]
              eq_refl ltac:(repeat constructor) P)
    as (col & rest & A & B).
  exists col, rest. split; [exact P|]. split; [exact A|exact B].
Defined.

Lemma close_values_witness :
  exists r df data_col rest,
    process_rqa_for_datatype sample_fs "v1" "speed" = Ok (Some r) /\
    sample_fs (csv_path_of "v1" "speed") = Some df /\
    data_columns df = data_col :: rest /\
    forall (p q : nat) (d : float),
      In (p, q) (sparse_matrix (visualization r)) <->
      p < length (vis_data (visualization r)) /\
      q < length (vis_data (visualization r)) /\
      fleb (euclidean
              (standardised (filter (fun x => negb (fisnan x)) (column df data_col))
                            (nth p (vis_data (visualization r)) d))
              (standardised (filter (fun x => negb (fisnan x)) (column df data_col))
                            (nth q (vis_data (visualization r)) d)))
           (threshold r) = true.
Proof.
  eexists.
  assert (P : process_rqa_for_datatype sample_fs "v1" "speed" = Ok (Some _))
    by (vm_compute; reflexivity).
  destruct (@sparse_matrix_marks_close_displayed_values float _ _ sample_fs
              "v1" "speed" _ P)
    as (df & col & rest & A & B & C).
  exists df, col, rest. split; [exact P|]. split; [exact A|].
  split; [exact B|exact C].
Defined.

Lemma zero_variance_witness :
  exists r,
    process_rqa_for_datatype sample_fs "v1" "flat" = Ok (Some r) /\
    n_points (full_data r) = 10 /\
    PrimFloat.is_nan (threshold r) = true /\
    sparse_matrix (visualization r) = [] /\
    recurrence_rate_of r = fdiv (of_int (2 ^ 64 - 10)) (of_int (10 * 10 - 10)).
Proof.
  destruct (@zero_variance_is_not_detected sample_fs "v1" "flat") as (_ & _ & W).
  destruct (W 10 [("Time"%string, firstn 10 sample_times);
                  ("level"%string, ten_fives)] "level"%string [])
    as (r & E & N & Z0).
  - reflexivity.
  - repeat constructor.
  - left. reflexivity.
  - reflexivity.
  - vm_compute. lia.
  - reflexivity.
  - exists r. split; [exact E|]. split; [exact N|].
    apply Z0. vm_compute. reflexivity.
Defined.
